(** * jotai-x: scoped atom stores

  A shallow embedding of the scope-resolution and store-registry code of
  the package ([atomWithFn.ts], [createAtomProvider.tsx],
  [useHydrateStore.ts], [createAtomStore.ts]) and the properties of it
  that the specification states.

  Layout: the JavaScript data the code manipulates (module [JS]), then one
  module per source file, definitions first; the theorems follow, grouped
  in the same order. *)

From stdpp Require Import base gmap strings list fin_maps pretty.
From Stdlib Require Import ZArith.

Local Open Scope string_scope.
Local Open Scope list_scope.

#[local] Set Warnings "-clear-no-such-hyp".

(* ===================================================================== *)
(** * JavaScript values, records and the object heap *)
(* ===================================================================== *)

Module JS.

(** Identity of anything that is compared by reference: plain objects,
    functions, atoms, stores, [Map]s. *)
Abbreviation loc := nat.

(** The values that flow through the package.  Numbers are the integral
    ones; objects and functions are references. *)
Inductive value : Type :=
| VUndefined
| VNull
| VBool (b : bool)
| VNum (n : Z)
| VStr (s : string)
| VFun (l : loc)
| VObj (l : loc).

#[global] Instance value_eq_dec : EqDecision value.
Proof. solve_decision. Defined.

#[global] Instance value_inhabited : Inhabited value := populate VUndefined.

Definition value_code (v : value) : () + () + bool + Z + string + nat + nat :=
  match v with
  | VUndefined => inl (inl (inl (inl (inl (inl ())))))
  | VNull => inl (inl (inl (inl (inl (inr ())))))
  | VBool b => inl (inl (inl (inl (inr b))))
  | VNum n => inl (inl (inl (inr n)))
  | VStr s => inl (inl (inr s))
  | VFun l => inl (inr l)
  | VObj l => inr l
  end.

Definition value_decode (c : () + () + bool + Z + string + nat + nat) : value :=
  match c with
  | inl (inl (inl (inl (inl (inl ()))))) => VUndefined
  | inl (inl (inl (inl (inl (inr ()))))) => VNull
  | inl (inl (inl (inl (inr b)))) => VBool b
  | inl (inl (inl (inr n))) => VNum n
  | inl (inl (inr s)) => VStr s
  | inl (inr l) => VFun l
  | inr l => VObj l
  end.

#[global] Instance value_countable : Countable value.
Proof. by apply (inj_countable' value_code value_decode); intros []. Defined.

(** Result of the [typeof] operator. *)
Inductive jstype : Type :=
| TUndefined | TObject | TBoolean | TNumber | TString | TFunction.

#[global] Instance jstype_eq_dec : EqDecision jstype.
Proof. solve_decision. Defined.

Definition typeof (v : value) : jstype :=
  match v with
  | VUndefined => TUndefined
  | VNull => TObject
  | VBool _ => TBoolean
  | VNum _ => TNumber
  | VStr _ => TString
  | VFun _ => TFunction
  | VObj _ => TObject
  end.

(** [ToBoolean]: what [if (v)], [!v] and [v && w] test. *)
Definition truthy (v : value) : bool :=
  match v with
  | VUndefined | VNull => false
  | VBool b => b
  | VNum n => negb (n =? 0)%Z
  | VStr s => negb (bool_decide (s = ""))
  | VFun _ | VObj _ => true
  end.

(** [v === undefined || v === null], the test behind [??]. *)
Definition nullish (v : value) : bool :=
  match v with
  | VUndefined | VNull => true
  | _ => false
  end.

(** [a ?? b] *)
Definition coalesce (a b : value) : value := if nullish a then b else a.

(** A record literal: own enumerable string-keyed properties in the order
    [Object.keys] lists them. *)
Abbreviation record A := (list (string * A)).
Abbreviation object := (list (string * value)).

Section Records.
Context {A : Type}.

(** [r[k]] when the property exists *)
Fixpoint rec_get (r : record A) (k : string) : option A :=
  match r with
  | [] => None
  | (k', x) :: r' => if decide (k' = k) then Some x else rec_get r' k
  end.

(** [r[k] = x]: overwrite where the key already is, else append *)
Fixpoint rec_set (k : string) (x : A) (r : record A) : record A :=
  match r with
  | [] => [(k, x)]
  | (k', x') :: r' =>
      if decide (k' = k) then (k, x) :: r' else (k', x') :: rec_set k x r'
  end.

(** [k in r] *)
Definition rec_has (r : record A) (k : string) : bool :=
  bool_decide (is_Some (rec_get r k)).

(** [Object.keys(r)] *)
Definition rec_keys (r : record A) : list string := r.*1.

(** [{ ...r, ...s }]: every entry of [s] assigned onto a copy of [r] *)
Definition rec_spread (r s : record A) : record A :=
  foldl (λ acc kv, rec_set kv.1 kv.2 acc) r s.
End Records.

(** What every ordinary object inherits from [Object.prototype]: the member
    functions and, under [__proto__], the prototype itself.  They are objects
    of the runtime, of which only the identity shows here: no heap of the
    model holds their own properties. *)
Definition Object_prototype : object :=
  [("constructor", VFun 900); ("__defineGetter__", VFun 901);
   ("__defineSetter__", VFun 902); ("hasOwnProperty", VFun 903);
   ("__lookupGetter__", VFun 904); ("__lookupSetter__", VFun 905);
   ("isPrototypeOf", VFun 906); ("propertyIsEnumerable", VFun 907);
   ("toString", VFun 908); ("valueOf", VFun 909); ("__proto__", VObj 910);
   ("toLocaleString", VFun 911)].

(** What [o[k]] reads when [o] has no own property [k]. *)
Definition inherited (k : string) : value :=
  default VUndefined (rec_get Object_prototype k).

(** [o[k]] on an ordinary object with the own properties [o]: the own
    property, else the inherited member, else [undefined]. *)
Definition js_get (o : object) (k : string) : value :=
  default (inherited k) (rec_get o k).

(** The own enumerable properties of a string primitive, as object spread
    sees them: one per index, holding the character at that index. *)
Fixpoint string_entries_from (i : nat) (s : string) : object :=
  match s with
  | EmptyString => []
  | String c s' => (pretty i, VStr (String c EmptyString))
                     :: string_entries_from (S i) s'
  end.
Definition string_entries (s : string) : object := string_entries_from 0 s.

(** A string that begins with a decimal digit, as every index key does. *)
Definition digit_headed (s : string) : Prop :=
  match s with
  | EmptyString => False
  | String c _ => (48 ≤ Ascii.nat_of_ascii c ≤ 57)%nat
  end.

(** The heap: own properties of every live object and function. *)
Abbreviation heap := (gmap loc object).

Definition own_props (h : heap) (l : loc) : object := default [] (h !! l).

(** [k in v] for a value that [typeof] already told to be an object or a
    function, for the keys the package tests this way ([read], [write] and
    [__fn]): no object or function inherits one of these, so the own
    properties decide. *)
Definition has_prop (h : heap) (v : value) (k : string) : bool :=
  match v with
  | VObj l | VFun l => rec_has (own_props h l) k
  | _ => false
  end.

(** [v.k] *)
Definition get_prop (h : heap) (v : value) (k : string) : value :=
  match v with
  | VObj l | VFun l => js_get (own_props h l) k
  | _ => VUndefined
  end.

(** An object literal [{ ... }]: a new object at an unused location. *)
Definition alloc_obj (props : object) (h : heap) : loc * heap :=
  let l := fresh (dom h) in (l, <[l := props]> h).

End JS.

Import JS.

(* ===================================================================== *)
(** * The reactive container (jotai) *)
(* ===================================================================== *)

Module Jotai.

(** Modelled from the spec: the reactive container is an external
    collaborator ("create a cell; read it; write it"), so a store is
    modelled by what this package does to it: [written] holds, per atom,
    the value last handed to [store.set(atom, value)], and [hydrated] is the
    set of atoms [useHydrateAtoms] has already seeded in this store.  An
    atom without an entry in [written] still reads its own initial value. *)
Record JotaiStore : Type := MkStore {
  written : gmap value value;
  hydrated : gset value
}.

(** What [createStore()] returns. *)
Definition empty_store : JotaiStore := MkStore ∅ ∅.

(** Every store ever created, by identity. *)
Abbreviation stores := (gmap loc JotaiStore).

Definition store_of (ss : stores) (s : loc) : JotaiStore :=
  default empty_store (ss !! s).

(** [createStore()] *)
Definition createStore (ss : stores) : loc * stores :=
  let s := fresh (dom ss) in (s, <[s := empty_store]> ss).

(** [store.set(atom, v)] *)
Definition store_set (s : loc) (a v : value) (ss : stores) : stores :=
  <[s := MkStore (<[a := v]> (written (store_of ss s))) (hydrated (store_of ss s))]> ss.

(** The value last written to [atom] in store [s], if any. *)
Definition cell (ss : stores) (s : loc) (a : value) : option value :=
  written (store_of ss s) !! a.

(** Modelled from the spec: [useHydrateAtoms(values, { store })] of
    jotai/utils seeds each listed atom once per store ("each cell is hydrated
    at most once per store instance lifetime"): an atom already in the
    store's hydrated set is skipped, any other is recorded there and set. *)
Definition hydrate_atom (s : loc) (ss : stores) (av : value * value) : stores :=
  if decide (av.1 ∈ hydrated (store_of ss s)) then ss
  else <[s := MkStore (<[av.1 := av.2]> (written (store_of ss s)))
                      ({[av.1]} ∪ hydrated (store_of ss s))]> ss.

Definition useHydrateAtoms (values : list (value * value)) (s : loc)
    (ss : stores) : stores :=
  foldl (hydrate_atom s) ss values.

(** The external hook [useSetAtom(atom, { store })] of jotai: it returns a
    callback memoised on the store and the atom
    ([useCallback(..., [store, atom])]), so the identity of the callback, as
    a dependency of an effect, is that pair. *)
Definition setter : Type := loc * value.
Definition useSetAtom (a : value) (s : loc) : setter := (s, a).

(** Calling such a callback. *)
Definition call_setter (f : setter) (v : value) (ss : stores) : stores :=
  store_set f.1 f.2 v ss.

(** A function expression: a new function object. *)
Definition alloc_fun (h : heap) : value * heap :=
  let '(l, h) := alloc_obj [] h in (VFun l, h).

(** Modelled from the spec: [atom(initialValue)] for an initial value that
    is not a function ("create a cell"): a new config object with the
    initial value and the read and write capabilities. *)
Definition atom_primitive (init : value) (h : heap) : value * heap :=
  let '(read, h) := alloc_fun h in
  let '(write, h) := alloc_fun h in
  let '(l, h) := alloc_obj [("init", init); ("read", read); ("write", write)] h in
  (VObj l, h).

(** Modelled from the spec: [atom(read, write)], a cell "defined in terms of
    reading other cells": a new config object with the two functions. *)
Definition atom_derived (read write : value) (h : heap) : value * heap :=
  let '(l, h) := alloc_obj [("read", read); ("write", write)] h in
  (VObj l, h).

End Jotai.

(* ===================================================================== *)
(** * atomWithFn.ts: the function-value codec *)
(* ===================================================================== *)

Module AtomWithFn.
Import Jotai.

(** [wrapFn]:
    [typeof fnOrValue === 'function' ? { __fn: fnOrValue } : fnOrValue] *)
Definition wrapFn (fnOrValue : value) (h : heap) : value * heap :=
  if decide (typeof fnOrValue = TFunction) then
    let '(l, h') := alloc_obj [("__fn", fnOrValue)] h in (VObj l, h')
  else (fnOrValue, h).

(** [unwrapFn]:
    [wrappedFnOrValue && typeof wrappedFnOrValue === 'object' &&
     '__fn' in wrappedFnOrValue ? wrappedFnOrValue.__fn : wrappedFnOrValue] *)
Definition unwrapFn (wrappedFnOrValue : value) (h : heap) : value :=
  if truthy wrappedFnOrValue
     && bool_decide (typeof wrappedFnOrValue = TObject)
     && has_prop h wrappedFnOrValue "__fn"
  then get_prop h wrappedFnOrValue "__fn"
  else wrappedFnOrValue.

(** [unwrapFn(wrapFn(v))], the heap threaded from one call to the next. *)
Definition roundtrip (v : value) (h : heap) : value :=
  let '(w, h') := wrapFn v h in unwrapFn w h'.

(** An object that already carries the private marker key. *)
Definition marker_bearing (h : heap) (v : value) : bool :=
  bool_decide (typeof v = TObject) && has_prop h v "__fn".

(** [atomWithFn]: a base atom holding the wrapped value, behind an atom
    whose read unwraps and whose write wraps. *)
Definition atomWithFn (initialValue : value) (h : heap) : value * heap :=
  let '(wrapped, h) := wrapFn initialValue h in
  let '(baseAtom, h) := atom_primitive wrapped h in
  let '(read, h) := alloc_fun h in   (* (get) => unwrapFn(get(baseAtom)) *)
  let '(write, h) := alloc_fun h in  (* (_get, set, value) => set(baseAtom, wrapFn(value)) *)
  atom_derived read write h.

End AtomWithFn.

(* ===================================================================== *)
(** * useHydrateStore.ts: hydration and sync *)
(* ===================================================================== *)

Module UseHydrateStore.
Import Jotai.

(** The [values] array the loop of [useHydrateStore] builds: for each key
    of [atoms], in order, the pair [[atoms[key], initialValues[key]]] unless
    the latter is [undefined]. *)
Definition hydrate_values (atoms : record value) (initialValues : object)
  : list (value * value) :=
  flat_map
    (λ key,
       let initialValue := js_get initialValues key in
       if decide (initialValue = VUndefined) then []
       else [(js_get atoms key, initialValue)])
    (rec_keys atoms).

(** [useHydrateStore(atoms, initialValues, { store })] *)
Definition useHydrateStore (atoms : record value) (initialValues : object)
    (store : loc) (ss : stores) : stores :=
  useHydrateAtoms (hydrate_values atoms initialValues) store ss.

(** What React remembers of each [useEffect] of [useSyncStore] between
    renders: its dependency array [[set, value]], per key of [atoms]. *)
Abbreviation effect_deps := (gmap string (setter * value)).

(** One turn of the loop of [useSyncStore]: the calls [set(value)] its
    effect makes when React runs it.  React runs an effect after the first
    render and after every render in which a dependency differs from the
    one of the previous render. *)
Definition sync_field (atoms : record value) (values : object) (store : loc)
    (prev : effect_deps) (key : string) : list (setter * value) :=
  let value := js_get values key in
  let atom := js_get atoms key in
  let set := useSetAtom atom store in
  if decide (prev !! key = Some (set, value)) then []
  else if decide (value ≠ VUndefined ∧ value ≠ VNull) then [(set, value)]
  else [].

(** All calls of one render, in the order the effects run. *)
Definition sync_effects (atoms : record value) (values : object) (store : loc)
    (prev : effect_deps) : list (setter * value) :=
  flat_map (sync_field atoms values store prev) (rec_keys atoms).

(** The dependency arrays this render leaves behind. *)
Definition sync_deps (atoms : record value) (values : object) (store : loc)
    (prev : effect_deps) : effect_deps :=
  foldl
    (λ deps key,
       <[key := (useSetAtom (js_get atoms key) store, js_get values key)]> deps)
    prev (rec_keys atoms).

Definition run_effects (calls : list (setter * value)) (ss : stores) : stores :=
  foldl (λ ss c, call_setter c.1 c.2 ss) ss calls.

(** [useSyncStore(atoms, values, { store })], render and commit. *)
Definition useSyncStore (atoms : record value) (values : object) (store : loc)
    (prev : effect_deps) (ss : stores) : effect_deps * stores :=
  (sync_deps atoms values store prev,
   run_effects (sync_effects atoms values store prev) ss).

(** The effect of a field is due when its dependency array differs from the
    one React kept; it then writes unless the value is a sentinel. *)
Definition effect_due (atoms : record value) (values : object) (store : loc)
    (prev : effect_deps) (key : string) : Prop :=
  prev !! key ≠ Some (useSetAtom (js_get atoms key) store, js_get values key).

Definition not_sentinel (v : value) : Prop := v ≠ VUndefined ∧ v ≠ VNull.

End UseHydrateStore.

(* ===================================================================== *)
(** * createAtomProvider.tsx: the registry and the Provider *)
(* ===================================================================== *)

Module CreateAtomProvider.
Import Jotai UseHydrateStore.

(** [getFullyQualifiedScope]: the template [`${storeName}:${scope}`] *)
Definition getFullyQualifiedScope (storeName scope : string) : string :=
  storeName +:+ ":" +:+ scope.

Definition PROVIDER_SCOPE : string := "provider".

(** The value of [AtomStoreContext]: a [Map<string, JotaiStore>]. *)
Abbreviation registry := (gmap string loc).

(** The line [console.warn] prints. *)
Definition unresolved_warning (storeName : string) : string :=
  "Tried to access jotai store '" +:+ storeName
    +:+ "' outside of a matching provider.".

(** [useAtomStore(storeName, scope = PROVIDER_SCOPE, warnIfUndefined = true)],
    given what [React.useContext(AtomStoreContext)] returns.  An omitted
    argument is [None].  The result is the store (or [None] for
    [undefined]) and the lines written to the console. *)
Definition useAtomStore (storeContext : registry) (storeName : string)
    (scope : option string) (warnIfUndefined : option bool)
  : option loc * list string :=
  let scope := default PROVIDER_SCOPE scope in
  let warnIfUndefined := default true warnIfUndefined in
  let store :=
    match storeContext !! getFullyQualifiedScope storeName scope with
    | Some s => Some s
    | None => storeContext !! getFullyQualifiedScope storeName PROVIDER_SCOPE
    end in
  if negb (bool_decide (is_Some store)) && warnIfUndefined
  then (store, [unresolved_warning storeName])
  else (store, []).

(** Every [Map] object alive, by identity. *)
Abbreviation mapheap := (gmap loc registry).

Definition map_content (ms : mapheap) (m : loc) : registry :=
  default ∅ (ms !! m).

(** [new Map(src)] *)
Definition map_new (src : loc) (ms : mapheap) : loc * mapheap :=
  let m := fresh (dom ms) in (m, <[m := map_content ms src]> ms).

(** [m.set(k, v)], in place *)
Definition map_set (m : loc) (k : string) (v : loc) (ms : mapheap) : mapheap :=
  <[m := <[k := v]> (map_content ms m)]> ms.

(** The body of the Provider's [React.useMemo]: the context value handed to
    the subtree.  [scope] is the [scope] prop, [None] when it is not given. *)
Definition provider_storeContext (storeScope : string) (scope : option string)
    (storeState : loc) (previousStoreContext : loc) (ms : mapheap)
  : loc * mapheap :=
  let '(newStoreContext, ms) := map_new previousStoreContext ms in
  let ms :=
    match scope with
    | Some sc =>
        if truthy (VStr sc)
        then map_set newStoreContext (getFullyQualifiedScope storeScope sc)
               storeState ms
        else ms
    | None => ms
    end in
  let ms :=
    map_set newStoreContext (getFullyQualifiedScope storeScope PROVIDER_SCOPE)
      storeState ms in
  (newStoreContext, ms).

(** The same in closed form: the entries a Provider puts on top of the
    inherited ones. *)
Definition provider_entries (storeScope : string) (scope : option string)
    (storeState : loc) (inherited : registry) : registry :=
  <[getFullyQualifiedScope storeScope PROVIDER_SCOPE := storeState]>
    (match scope with
     | Some sc =>
         if decide (sc = "") then inherited
         else <[getFullyQualifiedScope storeScope sc := storeState]> inherited
     | None => inherited
     end).

(** The props of a Provider, as the two destructurings take them apart.
    The component takes [store] (and does not use it), [scope], [children]
    and [resetKey]; the rest goes to [HydrateAtoms], spread after
    [store={storeState}] and [atoms={atoms}], and [HydrateAtoms] takes
    [initialValues], [children], [store] and [atoms] out of it.  So a prop
    named [atoms] takes the place of the Provider's atom record: [p_atoms]
    is [None] when no such prop is given, else the own enumerable
    properties of its value, all that [Object.keys(atoms)] and [atoms[key]]
    see of it (none for a number or a boolean; [undefined] and [null], on
    which [Object.keys] throws, have no counterpart here).  [p_others] holds
    every other prop.  A prop that is not given is [VUndefined],
    respectively [None]; [children] is left out. *)
Record ProviderProps : Type := MkProps {
  p_store : value;
  p_scope : option string;
  p_resetKey : value;
  p_initialValues : option object;
  p_atoms : option (record value);
  p_others : object
}.

(** The names the two destructurings take: a prop of one of these names is
    never a per-field value. *)
Definition reserved_props : list string :=
  ["store"; "scope"; "children"; "resetKey"; "initialValues"; "atoms"].

(** What [...props] collects in [HydrateAtoms]: the per-field values.  An
    entry of [p_others] under a reserved name stands for no prop and is
    left out. *)
Definition p_fields (props : ProviderProps) : object :=
  filter (λ kv, kv.1 ∉ reserved_props) (p_others props).

(** The [atoms] that [HydrateAtoms] receives. *)
Definition effective_atoms (atoms : record value) (props : ProviderProps)
  : record value :=
  default atoms (p_atoms props).

(** What React keeps for one mounted Provider between renders. *)
Record ProviderHooks : Type := MkHooks {
  storeState : loc;                        (* useState *)
  resetDeps : value;                       (* deps of useEffect: [resetKey] *)
  memoDeps : loc * option string * loc;    (* deps of useMemo *)
  storeContext : loc;                      (* value of useMemo *)
  syncDeps : effect_deps                   (* effects of HydrateAtoms *)
}.

(** The stores and the context [Map]s alive. *)
Record World : Type := MkWorld {
  w_stores : stores;
  w_maps : mapheap
}.

(** The Provider's own effect,
    [useEffect(() => { if (resetKey) setStoreState(createStore()) }, [resetKey])]:
    the store state after it. *)
Definition reset_effect (hooks : option ProviderHooks) (resetKey : value)
    (current : loc) (ss : stores) : loc * stores :=
  if decide (resetDeps <$> hooks = Some resetKey) then (current, ss)
  else if truthy resetKey then createStore ss
  else (current, ss).

(** The [useMemo] around [provider_storeContext]. *)
Definition memo_storeContext (hooks : option ProviderHooks)
    (storeScope : string) (scope : option string) (current : loc)
    (previousStoreContext : loc) (ms : mapheap) : loc * mapheap :=
  match hooks with
  | Some hk =>
      if decide (memoDeps hk = (previousStoreContext, scope, current))
      then (storeContext hk, ms)
      else provider_storeContext storeScope scope current previousStoreContext ms
  | None => provider_storeContext storeScope scope current previousStoreContext ms
  end.

(** [HydrateAtoms]: hydration while rendering, with initial values
    [{ ...initialValues, ...props }]; the sync effects at commit, with
    [props]. *)
Definition HydrateAtoms (initialValues : option object) (props : object)
    (store : loc) (atoms : record value) (prev : effect_deps) (ss : stores)
  : effect_deps * stores :=
  let ss :=
    useHydrateStore atoms (rec_spread (default [] initialValues) props) store ss in
  useSyncStore atoms props store prev ss.

(** One render of the component [createAtomProvider(storeScope, atoms)]
    returns, followed by its commit: [hooks] is [None] on mount.  The child
    [HydrateAtoms] gets [store={storeState} atoms={atoms} {...props}], hence
    [effective_atoms]; its effects run before the Provider's own.  When the
    store state changes, React renders the Provider again.  What the
    [Effect] component and [children] do is not part of it. *)
Definition Provider (storeScope : string) (atoms : record value)
    (props : ProviderProps) (previousStoreContext : loc)
    (hooks : option ProviderHooks) (w : World) : ProviderHooks * World :=
  (* React.useState<JotaiStore>(createStore()) *)
  let '(initial, ss) := createStore (w_stores w) in
  let current := from_option storeState initial hooks in
  let '(ctx, ms) :=
    memo_storeContext hooks storeScope (p_scope props) current
      previousStoreContext (w_maps w) in
  let '(deps, ss) :=
    HydrateAtoms (p_initialValues props) (p_fields props) current
      (effective_atoms atoms props) (from_option syncDeps ∅ hooks) ss in
  let '(next, ss) := reset_effect hooks (p_resetKey props) current ss in
  (MkHooks next (p_resetKey props)
     (previousStoreContext, p_scope props, current) ctx deps,
   MkWorld ss ms).

(** The initial values hydration sees: [{ ...initialValues, ...props }]. *)
Definition hydration_values (props : ProviderProps) : object :=
  rec_spread (default [] (p_initialValues props)) (p_fields props).

(** The stores as the Provider's own effect finds them in a render of a
    mounted Provider: after the [createStore()] of the [useState] argument,
    hydration and the sync effects. *)
Definition stores_before_reset (atoms : record value) (props : ProviderProps)
    (hk : ProviderHooks) (w : World) : stores :=
  run_effects
    (sync_effects (effective_atoms atoms props) (p_fields props) (storeState hk)
       (syncDeps hk))
    (useHydrateStore (effective_atoms atoms props) (hydration_values props)
       (storeState hk) (createStore (w_stores w)).2).

(** The same props with one more entry in [initialValues], respectively
    one more per-field prop (under a name that is not reserved). *)
Definition with_initialValue (key : string) (v : value) (props : ProviderProps)
  : ProviderProps :=
  MkProps (p_store props) (p_scope props) (p_resetKey props)
    (Some (rec_set key v (default [] (p_initialValues props))))
    (p_atoms props) (p_others props).

Definition with_field (key : string) (v : value) (props : ProviderProps)
  : ProviderProps :=
  MkProps (p_store props) (p_scope props) (p_resetKey props)
    (p_initialValues props) (p_atoms props) (rec_set key v (p_others props)).

End CreateAtomProvider.


(* ===================================================================== *)
(** * createAtomStore.ts: the store factory and the accessor surface *)
(* ===================================================================== *)

Module CreateAtomStore.
Import Jotai AtomWithFn CreateAtomProvider.

(** [isAtom] *)
Definition isAtom (h : heap) (possibleAtom : value) : bool :=
  truthy possibleAtom
  && bool_decide (typeof possibleAtom = TObject)
  && has_prop h possibleAtom "read"
  && bool_decide (typeof (get_prop h possibleAtom "read") = TFunction).

(** The operator [k in v] where nothing guards it: a [TypeError], here
    [None], unless [v] is an object or a function. *)
Definition js_in (h : heap) (k : string) (v : value) : option bool :=
  match v with
  | VObj l | VFun l => Some (rec_has (own_props h l) k)
  | _ => None
  end.

(** A [for (const entry of entries)] loop whose body may throw. *)
Fixpoint for_of {S E : Type} (body : S → E → option S) (entries : list E)
    (s : S) : option S :=
  match entries with
  | [] => Some s
  | e :: entries => s' ← body s e; for_of body entries s'
  end.

(** The three tables the first loop fills. *)
Record BaseAtoms : Type := MkBase {
  atomsWithoutExtend : record value;
  writableAtomsWithoutExtend : record value;
  atomIsWritable : record bool
}.

(** Body of the loop over [Object.entries(initialState)]. *)
Definition base_step (acc : BaseAtoms * heap) (entry : string * value)
  : option (BaseAtoms * heap) :=
  let '(b, h) := acc in
  let '(key, atomOrValue) := entry in
  let '(atomConfig, h) :=
    if isAtom h atomOrValue then (atomOrValue, h) else atomWithFn atomOrValue h in
  writable ← js_in h "write" atomConfig;
  Some (MkBase
          (rec_set key atomConfig (atomsWithoutExtend b))
          (if writable : bool
           then rec_set key atomConfig (writableAtomsWithoutExtend b)
           else writableAtomsWithoutExtend b)
          (rec_set key writable (atomIsWritable b)),
        h).

Definition build_base (initialState : object) (h : heap)
  : option (BaseAtoms * heap) :=
  for_of base_step initialState (MkBase [] [] [], h).

(** Body of the loop over [Object.entries(extendedAtoms)]. *)
Definition extend_step (h : heap) (acc : record value * record bool)
    (entry : string * value) : option (record value * record bool) :=
  let '(atoms, isWritable) := acc in
  let '(key, atomConfig) := entry in
  writable ← js_in h "write" atomConfig;
  Some (rec_set key atomConfig atoms, rec_set key writable isWritable).

(** What holds of the three tables once the keys [processed] have gone
    through the first loop: the keys are those, and the writable table holds
    exactly the base atoms flagged writable. *)
Definition base_invariant (b : BaseAtoms) (processed : list string) : Prop :=
  (∀ key, key ∈ rec_keys (atomsWithoutExtend b) ↔ key ∈ processed)
  ∧ (∀ key a, rec_get (writableAtomsWithoutExtend b) key = Some a ↔
              rec_get (atomsWithoutExtend b) key = Some a
              ∧ rec_get (atomIsWritable b) key = Some true).

(** The user's [extend] function: from the base atoms to its own. *)
Definition extender : Type := record value → heap → record value * heap.

(** The tables behind [get], [set] and [use]: for each key, the atom its
    accessor closes over. *)
Record Accessors : Type := MkAccessors {
  getAtoms : record value;
  setAtoms : record value;
  useAtoms : record value
}.

(** Body of the loop over [Object.keys(atoms)]. *)
Definition accessor_step (atoms : record value) (isWritableTable : record bool)
    (acc : Accessors) (key : string) : Accessors :=
  let atomConfig := js_get atoms key in
  let isWritable := default false (rec_get isWritableTable key) in
  MkAccessors
    (rec_set key atomConfig (getAtoms acc))
    (if isWritable then rec_set key atomConfig (setAtoms acc) else setAtoms acc)
    (if isWritable then rec_set key atomConfig (useAtoms acc) else useAtoms acc).

Definition build_accessors (atoms : record value) (isWritableTable : record bool)
  : Accessors :=
  foldl (accessor_step atoms isWritableTable) (MkAccessors [] [] []) (rec_keys atoms).

(** What [createAtomStore] puts together: the atoms it hands to
    [createAtomProvider], [storeApi.atom], the writability table and the
    accessor tables.  (The three index names, derived from [name] by
    capitalisation, are left out.) *)
Record AtomStore : Type := MkAtomStore {
  name : string;
  providerAtoms : record value;
  atoms : record value;
  isWritableTable : record bool;
  accessors : Accessors
}.

(** [createAtomStore(initialState, { name, extend })]; [None] is a thrown
    [TypeError]. *)
Definition createAtomStore (initialState : object) (name : string)
    (extend : option extender) (h : heap) : option (AtomStore * heap) :=
  '(b, h) ← build_base initialState h;
  let atoms := rec_spread [] (atomsWithoutExtend b) in
  '(atoms, isWritable, h) ←
    match extend with
    | Some extend =>
        let '(extendedAtoms, h) := extend (atomsWithoutExtend b) h in
        '(atoms, isWritable) ←
          for_of (extend_step h) extendedAtoms (atoms, atomIsWritable b);
        Some (atoms, isWritable, h)
    | None => Some (atoms, atomIsWritable b, h)
    end;
  Some (MkAtomStore name (writableAtomsWithoutExtend b) atoms isWritable
          (build_accessors atoms isWritable),
        h).

(** ** The accessor surface *)

(** [UseAtomOptionsOrScope]: a bare scope or an options object.  An omitted
    argument is [Options []], which is what the default [= {}] gives. *)
Inductive UseAtomOptionsOrScope : Type :=
| ScopeStr (scope : string)
| Options (options : object).

(** [convertScopeShorthand] *)
Definition convertScopeShorthand (optionsOrScope : UseAtomOptionsOrScope) : object :=
  match optionsOrScope with
  | ScopeStr scope => [("scope", VStr scope)]
  | Options options => options
  end.

(** What [...x] contributes to an object literal. *)
Definition spread_entries (x : UseAtomOptionsOrScope) : object :=
  match x with
  | ScopeStr s => string_entries s
  | Options o => o
  end.

(** [scope] is declared [string]: read at that type. *)
Definition as_scope (v : value) : option string :=
  match v with
  | VStr s => Some s
  | _ => None
  end.

(** A store found in the registry, as a value. *)
Definition store_value (s : option loc) : value := from_option VObj VUndefined s.

(** A destructuring default: [x = d]. *)
Definition or_default (x d : value) : value :=
  match x with
  | VUndefined => d
  | _ => x
  end.

(** What stands in the place of the atom in a call into jotai: an atom
    config or, where the options argument of the caller ends up there, that
    argument as it was given.  What jotai does with a call of the second
    kind is not part of the model. *)
Inductive atom_arg : Type :=
| Atom (atomConfig : value)
| Given (optionsOrScope : UseAtomOptionsOrScope).

Coercion Atom : value >-> atom_arg.

(** The call into jotai an accessor ends in. *)
Inductive HookCall : Type :=
| UseAtomValue (atomConfig : atom_arg) (store delay : value)
| UseSetAtom (atomConfig : atom_arg) (store : value)
| UseAtom (atomConfig : atom_arg) (store delay : value).

Section Surface.
(** The store's name, its [delay] option and the registry that
    [React.useContext] yields where the accessor is called. *)
Context (name : string) (delayRoot : value) (storeContext : registry).

(** [useStore]: the store and the console output. *)
Definition useStore (optionsOrScope : UseAtomOptionsOrScope)
  : value * list string :=
  let options := convertScopeShorthand optionsOrScope in
  let scope := js_get options "scope" in
  let store := js_get options "store" in
  let warnIfNoStore := or_default (js_get options "warnIfNoStore") (VBool true) in
  let '(contextStore, log) :=
    useAtomStore storeContext name (as_scope scope)
      (Some (negb (truthy store) && truthy warnIfNoStore)) in
  (coalesce store (store_value contextStore), log).

Definition useAtomValueWithStore (atomConfig : atom_arg)
    (optionsOrScope : UseAtomOptionsOrScope) : HookCall * list string :=
  let options := convertScopeShorthand optionsOrScope in
  let '(store, log) :=
    useStore (Options (rec_spread [("warnIfNoStore", VBool false)] options)) in
  (UseAtomValue atomConfig store (coalesce (js_get options "delay") delayRoot), log).

Definition useSetAtomWithStore (atomConfig : atom_arg)
    (optionsOrScope : UseAtomOptionsOrScope) : HookCall * list string :=
  let '(store, log) := useStore optionsOrScope in
  (UseSetAtom atomConfig store, log).

Definition useAtomWithStore (atomConfig : atom_arg)
    (optionsOrScope : UseAtomOptionsOrScope) : HookCall * list string :=
  let '(store, log) := useStore optionsOrScope in
  let delay :=
    or_default (js_get (convertScopeShorthand optionsOrScope) "delay") delayRoot in
  (UseAtom atomConfig store delay, log).

(** [withDefaultOptions], for one entry of the record:
    [(options = {}) => fn({ ...defaultOptions, ...options })] *)
Definition withDefaultOptions {R : Type} (fn : UseAtomOptionsOrScope → R)
    (defaultOptions : object) : UseAtomOptionsOrScope → R :=
  λ options,
    fn (Options (rec_spread (rec_spread [] defaultOptions) (spread_entries options))).

(** [{ ...convertScopeShorthand(defaultOptions), ...convertScopeShorthand(options) }] *)
Definition merged_options (defaultOptions options : UseAtomOptionsOrScope)
  : UseAtomOptionsOrScope :=
  Options (rec_spread (rec_spread [] (convertScopeShorthand defaultOptions))
             (convertScopeShorthand options)).

(** The members [atom] of [get], [set] and [use]:
    [(atomConfig, options) => use...WithStore(atomConfig,
       { ...convertScopeShorthand(defaultOptions), ...convertScopeShorthand(options) })] *)
Definition api_get_atom (defaultOptions : UseAtomOptionsOrScope)
    (atomConfig : atom_arg) (options : UseAtomOptionsOrScope) : HookCall * list string :=
  useAtomValueWithStore atomConfig (merged_options defaultOptions options).

Definition api_set_atom (defaultOptions : UseAtomOptionsOrScope)
    (atomConfig : atom_arg) (options : UseAtomOptionsOrScope) : HookCall * list string :=
  useSetAtomWithStore atomConfig (merged_options defaultOptions options).

Definition api_use_atom (defaultOptions : UseAtomOptionsOrScope)
    (atomConfig : atom_arg) (options : UseAtomOptionsOrScope) : HookCall * list string :=
  useAtomWithStore atomConfig (merged_options defaultOptions options).

(** The per-field members of the object [useStoreApi(defaultOptions)]
    returns, called with the options as their one argument: the call into
    jotai that is made and the console output.  A field's accessor exists
    when its table has the key; [None] when the object has no member of its
    own under the key, so that no accessor of the store is called.  In
    [get], [set] and [use]
    the member [atom] is listed after the spread of the per-field accessors,
    so under the key [atom] it is that member which is called, whatever the
    tables hold: the argument is its [atomConfig], and its own options are
    left out. *)
Definition api_get (acc : Accessors) (defaultOptions : UseAtomOptionsOrScope)
    (key : string) (options : UseAtomOptionsOrScope)
  : option (HookCall * list string) :=
  if decide (key = "atom")
  then Some (api_get_atom defaultOptions (Given options) (Options []))
  else
    atomConfig ← rec_get (getAtoms acc) key;
    Some (withDefaultOptions (useAtomValueWithStore (Atom atomConfig))
            (convertScopeShorthand defaultOptions) options).

Definition api_set (acc : Accessors) (defaultOptions : UseAtomOptionsOrScope)
    (key : string) (options : UseAtomOptionsOrScope)
  : option (HookCall * list string) :=
  if decide (key = "atom")
  then Some (api_set_atom defaultOptions (Given options) (Options []))
  else
    atomConfig ← rec_get (setAtoms acc) key;
    Some (withDefaultOptions (useSetAtomWithStore (Atom atomConfig))
            (convertScopeShorthand defaultOptions) options).

Definition api_use (acc : Accessors) (defaultOptions : UseAtomOptionsOrScope)
    (key : string) (options : UseAtomOptionsOrScope)
  : option (HookCall * list string) :=
  if decide (key = "atom")
  then Some (api_use_atom defaultOptions (Given options) (Options []))
  else
    atomConfig ← rec_get (useAtoms acc) key;
    Some (withDefaultOptions (useAtomWithStore (Atom atomConfig))
            (convertScopeShorthand defaultOptions) options).

Definition api_store (defaultOptions options : UseAtomOptionsOrScope)
  : value * list string :=
  useStore (merged_options defaultOptions options).

End Surface.

End CreateAtomStore.

(** A small tree used in the examples: store ["A"] with the one field
    [count], whose atom is the object at location 10; the Provider sits
    under the root context, the empty [Map] at location 0. *)
Module Scenario.
Import Jotai CreateAtomProvider CreateAtomStore.

Definition atoms : record value := [("count", VObj 10)].

Definition props (resetKey : value) : ProviderProps :=
  MkProps VUndefined None resetKey (Some [("count", VNum 1)]) None [].

Definition root : World := MkWorld ∅ {[ 0 := ∅ ]}.

(** Mounted with [resetKey={true}]: the mount and the render that follows
    the store replacement. *)
Definition mounted : ProviderHooks * World :=
  let r := Provider "A" atoms (props (VBool true)) 0 None root in
  Provider "A" atoms (props (VBool true)) 0 (Some r.1) r.2.

(** A descendant then sets [count] to 5. *)
Definition after_write : World :=
  MkWorld (store_set (storeState mounted.1) (VObj 10) (VNum 5) (w_stores mounted.2))
          (w_maps mounted.2).

(** The parent renders the Provider again, now with [resetKey={false}]. *)
Definition after_toggle : ProviderHooks * World :=
  Provider "A" atoms (props (VBool false)) 0 (Some mounted.1) after_write.

(** Or else with [resetKey={2}], and the render this triggers. *)
Definition after_reset : ProviderHooks * World :=
  Provider "A" atoms (props (VNum 2)) 0 (Some mounted.1) after_write.

Definition after_reset_render : ProviderHooks * World :=
  Provider "A" atoms (props (VNum 2)) 0 (Some after_reset.1) after_reset.2.

(** A store declared with the fields [count] and [say], and an extension
    that returns a read-only atom, [atom((get) => ...)], under [count]. *)
Definition initialState : object := [("count", VNum 1); ("say", VStr "hi")].

Definition readonly_count : extender :=
  λ _ h, let '(read, h) := alloc_fun h in
         let '(l, h) := alloc_obj [("read", read)] h in
         ([("count", VObj l)], h).

Definition base : BaseAtoms * heap :=
  default (MkBase [] [] [], ∅) (build_base initialState ∅).

Definition store : AtomStore * heap :=
  default (MkAtomStore "" [] [] [] (MkAccessors [] [] []), ∅)
    (createAtomStore initialState "A" (Some readonly_count) ∅).

(** Where an accessor of store ["A"] is called: below a Provider with
    [scope="abc"] holding store 1 and, nearer, one without scope holding
    store 2. *)
Definition nested : registry := {[ "A:abc" := 1; "A:provider" := 2 ]}.

(** The same fields with an extension that hands the base atom of [count]
    back under the key [alias]. *)
Definition alias_count : extender :=
  λ baseAtoms h, ([("alias", js_get baseAtoms "count")], h).

Definition aliased : AtomStore * heap :=
  default (MkAtomStore "" [] [] [] (MkAccessors [] [] []), ∅)
    (createAtomStore initialState "A" (Some alias_count) ∅).

(** The same fields with an extension that makes a writable atom,
    [atom(read, write)], of its own under the key [extra]. *)
Definition writable_extra : extender :=
  λ _ h, let '(read, h) := alloc_fun h in
         let '(write, h) := alloc_fun h in
         let '(l, h) := alloc_obj [("read", read); ("write", write)] h in
         ([("extra", VObj l)], h).

Definition extended : AtomStore * heap :=
  default (MkAtomStore "" [] [] [] (MkAccessors [] [] []), ∅)
    (createAtomStore initialState "A" (Some writable_extra) ∅).

(** [<AProvider atoms={{ extra: a }} extra={7}>], where [a] is the atom the
    extension [writable_extra] made. *)
Definition atoms_prop : ProviderProps :=
  MkProps VUndefined None VUndefined None
    (Some [("extra", js_get (CreateAtomStore.atoms extended.1) "extra")])
    [("extra", VNum 7)].

End Scenario.

(* ===================================================================== *)
(** * Further definitions: renders in closed form, names, examples *)
(* ===================================================================== *)

Module Render.
Import Jotai UseHydrateStore CreateAtomProvider.

(** Whether a string contains the separator [:] (character 58). *)
Fixpoint has_colon (s : string) : bool :=
  match s with
  | EmptyString => false
  | String c s' => bool_decide (c = Ascii.ascii_of_nat 58) || has_colon s'
  end.

(** The store a render works on: the state kept from the render before, or
    on mount the one [createStore()] has just made. *)
Definition render_store (hooks : option ProviderHooks) (w : World) : loc :=
  from_option storeState (createStore (w_stores w)).1 hooks.

(** The stores once hydration and the sync effects of a render have run,
    before the Provider's own effect. *)
Definition stores_after_effects (atoms : record value) (props : ProviderProps)
    (hooks : option ProviderHooks) (w : World) : stores :=
  run_effects
    (sync_effects (effective_atoms atoms props) (p_fields props)
       (render_store hooks w) (from_option syncDeps ∅ hooks))
    (useHydrateStore (effective_atoms atoms props) (hydration_values props)
       (render_store hooks w) (createStore (w_stores w)).2).

(** The context [Map] a render hands to the subtree, as a registry. *)
Definition provided_registry (r : ProviderHooks * World) : registry :=
  map_content (w_maps r.2) (storeContext r.1).

(** Setter calls made by descendants between two renders. *)
Definition descendant_writes (calls : list (setter * value)) (w : World) : World :=
  MkWorld (run_effects calls (w_stores w)) (w_maps w).

(** What a cell holds after the first render on a new store, given the
    per-field values [fields] and the initial values [merged] that
    hydration reads: the field's prop when that is neither [undefined] nor
    [null], else the initial value when that is defined. *)
Definition seeded (fields merged : object) (key : string) : option value :=
  if decide (js_get fields key ≠ VUndefined ∧ js_get fields key ≠ VNull)
  then Some (js_get fields key)
  else if decide (js_get merged key = VUndefined)
       then None
       else Some (js_get merged key).

(** The same for the props of a Provider, with [{ ...initialValues, ...props }]
    as initial values. *)
Definition seeded_value (props : ProviderProps) (key : string) : option value :=
  seeded (p_fields props) (hydration_values props) key.

End Render.

Module Names.

(** [String.prototype.toUpperCase] on one character, for the ASCII range:
    [a]..[z] go to [A]..[Z], every other ASCII character stays.  Characters
    beyond ASCII are not modelled; the statements about names assume a
    first character within ASCII. *)
Definition upper_ascii (c : Ascii.ascii) : Ascii.ascii :=
  let n := Ascii.nat_of_ascii c in
  if (97 <=? n)%nat && (n <=? 122)%nat then Ascii.ascii_of_nat (n - 32) else c.

Definition is_ascii (c : Ascii.ascii) : Prop := (Ascii.nat_of_ascii c < 128)%nat.

Definition ascii_headed (s : string) : Prop :=
  match s with
  | EmptyString => True
  | String c _ => is_ascii c
  end.

(** [capitalizeFirstLetter]:
    [str.length > 0 ? str[0].toUpperCase() + str.slice(1) : ''] *)
Definition capitalizeFirstLetter (str : string) : string :=
  match str with
  | EmptyString => ""
  | String c rest => String (upper_ascii c) rest
  end.

(** [getProviderIndex] *)
Definition getProviderIndex (name : string) : string :=
  capitalizeFirstLetter name +:+ "Provider".

(** [getStoreIndex]: [name.length > 0 ? `${name}Store` : 'store'] *)
Definition getStoreIndex (name : string) : string :=
  match name with
  | EmptyString => "store"
  | _ => name +:+ "Store"
  end.

(** [getUseStoreIndex] *)
Definition getUseStoreIndex (name : string) : string :=
  "use" +:+ capitalizeFirstLetter name +:+ "Store".

(** The members of the object [createAtomStore] returns. *)
Inductive member : Type :=
| TheProvider
| TheUseStoreApi
| TheStoreApi
| TheName.

(** The object literal
    [{ [providerIndex]: Provider, [useStoreIndex]: useStoreApi,
       [storeIndex]: storeApi, name }]: a later key that equals an earlier
    one would take its place. *)
Definition api_object (name : string) : record member :=
  rec_set "name" TheName
    (rec_set (getStoreIndex name) TheStoreApi
       (rec_set (getUseStoreIndex name) TheUseStoreApi
          (rec_set (getProviderIndex name) TheProvider []))).

End Names.

Module Factory.
Import Jotai AtomWithFn CreateAtomStore.

(** A later heap in which every object of an earlier one is as it was. *)
Definition extends (h h' : heap) : Prop :=
  ∀ l, is_Some (h !! l) → h' !! l = h !! l.




End Factory.

(* ===================================================================== *)
(** * Theorems *)
(* ===================================================================== *)

Section RecordFacts.
Context {A : Type}.
Implicit Types (r s : record A) (k : string) (x : A).

Lemma rec_get_set_eq r k x : rec_get (rec_set k x r) k = Some x.
Proof.
  induction r as [|[k' x'] r IH]; simpl.
  - by rewrite decide_True.
  - destruct (decide (k' = k)) as [->|Hne]; simpl.
    + by rewrite decide_True.
    + by rewrite decide_False.
Qed.

Lemma rec_get_set_ne r k k' x :
  k ≠ k' → rec_get (rec_set k x r) k' = rec_get r k'.
Proof.
  intros Hne. induction r as [|[k0 x0] r IH]; simpl.
  - by rewrite decide_False.
  - destruct (decide (k0 = k)) as [->|Hne0]; simpl.
    + by rewrite !decide_False.
    + destruct (decide (k0 = k')); [done | apply IH].
Qed.

Lemma rec_get_set r k k' x :
  rec_get (rec_set k x r) k' = if decide (k = k') then Some x else rec_get r k'.
Proof.
  destruct (decide (k = k')) as [->|Hne].
  - apply rec_get_set_eq.
  - by apply rec_get_set_ne.
Qed.

Lemma rec_get_Some_elem r k x : rec_get r k = Some x → (k, x) ∈ r.
Proof.
  induction r as [|[k' x'] r IH]; simpl; [done|].
  destruct (decide (k' = k)) as [->|Hne].
  - intros [= ->]. apply list_elem_of_here.
  - intros H. apply list_elem_of_further, IH, H.
Qed.

Lemma rec_get_None_keys r k : rec_get r k = None ↔ k ∉ rec_keys r.
Proof.
  unfold rec_keys. induction r as [|[k' x'] r IH]; simpl.
  - split; [intros _; apply not_elem_of_nil | done].
  - rewrite not_elem_of_cons. destruct (decide (k' = k)) as [->|Hne].
    + split; [done | intros [[] _]; done].
    + rewrite IH. split; [intros H; split; [congruence | exact H] | intros [_ H]; exact H].
Qed.

Lemma rec_get_NoDup r k x :
  NoDup (rec_keys r) → (k, x) ∈ r → rec_get r k = Some x.
Proof.
  unfold rec_keys. induction r as [|[k' x'] r IH]; simpl.
  - intros _ H. by apply elem_of_nil in H.
  - intros [Hnotin Hnd]%NoDup_cons Hin.
    apply elem_of_cons in Hin as [Heq|Hin].
    + injection Heq as <- <-. by rewrite decide_True.
    + destruct (decide (k' = k)) as [->|Hne]; [|by apply IH].
      exfalso. apply Hnotin. apply list_elem_of_fmap. by exists (k, x).
Qed.
End RecordFacts.

Section Codec.
Import AtomWithFn.

Lemma has_prop_alloc (h : heap) (props : object) (k : string) :
  has_prop (alloc_obj props h).2 (VObj (alloc_obj props h).1) k = rec_has props k.
Proof.
  unfold alloc_obj, has_prop, own_props; simpl. by rewrite lookup_insert_eq.
Qed.

Lemma get_prop_alloc (h : heap) (props : object) (k : string) :
  get_prop (alloc_obj props h).2 (VObj (alloc_obj props h).1) k = js_get props k.
Proof.
  unfold alloc_obj, get_prop, own_props; simpl. by rewrite lookup_insert_eq.
Qed.

Lemma alloc_obj_fresh (h : heap) (props : object) :
  h !! (alloc_obj props h).1 = None.
Proof.
  unfold alloc_obj; simpl. apply not_elem_of_dom, is_fresh.
Qed.

(** Every value other than a function is handed back as it is, and the
    heap is left alone. *)
Lemma wrapFn_non_function (v : value) (h : heap) :
  typeof v ≠ TFunction → wrapFn v h = (v, h).
Proof. intros Hty. unfold wrapFn. by rewrite decide_False. Qed.

(** A function ends up under [__fn] of a new object. *)
Lemma wrapFn_function (v : value) (h : heap) :
  typeof v = TFunction →
  wrapFn v h = (VObj (fresh (dom h)), <[fresh (dom h) := [("__fn", v)]]> h).
Proof. intros Hty. unfold wrapFn, alloc_obj. by rewrite decide_True. Qed.

(** C3, as the specification words it, fails: a plain object that has a
    property named [__fn] is not a function, so [wrapFn] returns it as it
    is, and [unwrapFn] then takes it for a wrapper and returns the
    property.  Here the object at location 0 is [{ __fn: 42 }]. *)
Lemma roundtrip_marked_object_counterexample :
  roundtrip (VObj 0) {[ 0 := [("__fn", VNum 42)] ]} = VNum 42
  ∧ roundtrip (VObj 0) {[ 0 := [("__fn", VNum 42)] ]} ≠ VObj 0.
Proof. split; [reflexivity | discriminate]. Qed.

(** C3 (amended): for every value [v] that is not an object carrying a
    [__fn] property (functions, [null], primitives and every other plain
    object), [unwrapFn (wrapFn v)] is [v] again; and for every function
    [f], [wrapFn f] is a newly allocated container object, never [f]
    itself, whose [__fn] property is [f]. *)
Theorem unwrapFn_wrapFn_roundtrip (h : heap) (v : value) :
  marker_bearing h v = false →
  roundtrip v h = v
  ∧ (typeof v = TFunction →
     (wrapFn v h).1 ≠ v
     ∧ typeof (wrapFn v h).1 = TObject
     ∧ (∃ l, (wrapFn v h).1 = VObj l ∧ h !! l = None)
     ∧ get_prop (wrapFn v h).2 (wrapFn v h).1 "__fn" = v).
Proof.
  intros Hmark. split.
  - unfold roundtrip. destruct (decide (typeof v = TFunction)) as [Hf|Hnf].
    + rewrite wrapFn_function by done.
      unfold unwrapFn, has_prop, get_prop, own_props; simpl.
      by rewrite lookup_insert_eq.
    + rewrite wrapFn_non_function by done.
      unfold unwrapFn. unfold marker_bearing in Hmark.
      destruct (truthy v); simpl; [|done].
      by rewrite Hmark.
  - intros Hf. rewrite wrapFn_function by done. simpl.
    repeat split.
    + destruct v; discriminate.
    + exists (fresh (dom h)). split; [done|]. apply not_elem_of_dom, is_fresh.
    + unfold own_props. by rewrite lookup_insert_eq.
Qed.

Lemma unwrapFn_wrapFn_roundtrip_witness :
  marker_bearing ∅ (VFun 7) = false
  ∧ roundtrip (VFun 7) ∅ = VFun 7
  ∧ (wrapFn (VFun 7) ∅).1 ≠ VFun 7.
Proof.
  split; [reflexivity|].
  destruct (unwrapFn_wrapFn_roundtrip ∅ (VFun 7) eq_refl) as [Hrt Hfn].
  split; [exact Hrt|]. exact (proj1 (Hfn eq_refl)).
Defined.

End Codec.

Section Registry.
Import Jotai CreateAtomProvider.
Implicit Types (storeContext : registry) (storeName : string) (ms : mapheap).

(** The two keys resolution reads. *)
Lemma useAtomStore_store storeContext storeName scope warn :
  (useAtomStore storeContext storeName scope warn).1 =
    match storeContext !! getFullyQualifiedScope storeName (default PROVIDER_SCOPE scope) with
    | Some s => Some s
    | None => storeContext !! getFullyQualifiedScope storeName PROVIDER_SCOPE
    end.
Proof. unfold useAtomStore. by case_match. Qed.

(** With the scope left out, resolution goes straight to the wildcard key. *)
Lemma useAtomStore_default_scope storeContext storeName warn :
  (useAtomStore storeContext storeName None warn).1 =
    storeContext !! getFullyQualifiedScope storeName PROVIDER_SCOPE.
Proof. rewrite useAtomStore_store. simpl. by case_match. Qed.

(** C1: store resolution is two-level.  For every registry snapshot, store
    name and scope: an instance registered under the key of
    [(storeName, scope)] is the result; failing that, the instance
    registered under the key of [(storeName, "provider")] is; failing that,
    the result is [undefined].  No other key matters: two snapshots that
    agree on these two keys resolve alike, console output included. *)
Theorem useAtomStore_two_level storeContext storeName (scope : string) warn :
  (∀ s, storeContext !! getFullyQualifiedScope storeName scope = Some s →
        (useAtomStore storeContext storeName (Some scope) warn).1 = Some s)
  ∧ (∀ s, storeContext !! getFullyQualifiedScope storeName scope = None →
          storeContext !! getFullyQualifiedScope storeName PROVIDER_SCOPE = Some s →
          (useAtomStore storeContext storeName (Some scope) warn).1 = Some s)
  ∧ (storeContext !! getFullyQualifiedScope storeName scope = None →
     storeContext !! getFullyQualifiedScope storeName PROVIDER_SCOPE = None →
     (useAtomStore storeContext storeName (Some scope) warn).1 = None)
  ∧ (∀ other : registry,
        other !! getFullyQualifiedScope storeName scope
          = storeContext !! getFullyQualifiedScope storeName scope →
        other !! getFullyQualifiedScope storeName PROVIDER_SCOPE
          = storeContext !! getFullyQualifiedScope storeName PROVIDER_SCOPE →
        useAtomStore other storeName (Some scope) warn
          = useAtomStore storeContext storeName (Some scope) warn).
Proof.
  repeat split.
  - intros s Hs. rewrite useAtomStore_store. simpl. by rewrite Hs.
  - intros s Hs Hp. rewrite useAtomStore_store. simpl. by rewrite Hs.
  - intros Hs Hp. rewrite useAtomStore_store. simpl. by rewrite Hs.
  - intros other Hs Hp. unfold useAtomStore. simpl. by rewrite Hs, Hp.
Qed.

Lemma useAtomStore_two_level_witness :
  (useAtomStore (<["A:x" := 1]> (<["A:provider" := 2]> ∅)) "A" (Some "x") None).1 = Some 1
  ∧ (useAtomStore (<["A:x" := 1]> (<["A:provider" := 2]> ∅)) "A" (Some "y") None).1 = Some 2
  ∧ (useAtomStore (<["A:x" := 1]> ∅) "A" (Some "y") None).1 = None
  ∧ useAtomStore (<["B:z" := 5]> (<["A:x" := 1]> ∅)) "A" (Some "x") None
    = useAtomStore (<["A:x" := 1]> ∅) "A" (Some "x") None.
Proof.
  split; [|split; [|split]].
  - apply (proj1 (useAtomStore_two_level
                    (<["A:x" := 1]> (<["A:provider" := 2]> ∅)) "A" "x" None) 1).
    reflexivity.
  - apply (proj1 (proj2 (useAtomStore_two_level
                    (<["A:x" := 1]> (<["A:provider" := 2]> ∅)) "A" "y" None)) 2);
      reflexivity.
  - apply (proj1 (proj2 (proj2 (useAtomStore_two_level
                    (<["A:x" := 1]> ∅) "A" "y" None)))); reflexivity.
  - apply (proj2 (proj2 (proj2 (useAtomStore_two_level
                    (<["A:x" := 1]> ∅) "A" "x" None)))); reflexivity.
Defined.

(** C9: resolving a store that has an entry neither under the requested key
    nor under the wildcard key returns [undefined] (the function is total:
    there is no failing path); with warnings enabled, which is the default,
    exactly one console line is written and it names the store; with
    warnings disabled nothing is written. *)
Theorem useAtomStore_unresolved storeContext storeName scope warn :
  storeContext !! getFullyQualifiedScope storeName (default PROVIDER_SCOPE scope) = None →
  storeContext !! getFullyQualifiedScope storeName PROVIDER_SCOPE = None →
  useAtomStore storeContext storeName scope warn
    = (None,
       if default true warn
       then ["Tried to access jotai store '" +:+ storeName
               +:+ "' outside of a matching provider."]
       else []).
Proof.
  intros Hs Hp. unfold useAtomStore. rewrite Hs, Hp. simpl.
  by destruct (default true warn).
Qed.

Lemma useAtomStore_unresolved_witness :
  useAtomStore (<["B:provider" := 3]> ∅) "A" (Some "x") (Some true)
    = (None, ["Tried to access jotai store 'A' outside of a matching provider."])
  ∧ useAtomStore (<["B:provider" := 3]> ∅) "A" (Some "x") (Some false) = (None, []).
Proof.
  split.
  - apply (useAtomStore_unresolved (<["B:provider" := 3]> ∅) "A" (Some "x") (Some true));
      reflexivity.
  - apply (useAtomStore_unresolved (<["B:provider" := 3]> ∅) "A" (Some "x") (Some false));
      reflexivity.
Defined.

(** The key is the concatenation: a store name or scope that contains the
    separator can yield the key of another pair. *)
Lemma getFullyQualifiedScope_not_injective :
  getFullyQualifiedScope "a:b" "c" = getFullyQualifiedScope "a" "b:c".
Proof. reflexivity. Qed.

(** A store that is found is returned without any console output. *)
Lemma useAtomStore_resolved_silent storeContext storeName scope warn s :
  (useAtomStore storeContext storeName scope warn).1 = Some s →
  (useAtomStore storeContext storeName scope warn).2 = [].
Proof.
  unfold useAtomStore.
  destruct (storeContext !! getFullyQualifiedScope storeName (default PROVIDER_SCOPE scope)) as [s1|];
    [done|].
  destruct (storeContext !! getFullyQualifiedScope storeName PROVIDER_SCOPE) as [s2|]; [done|].
  simpl. by destruct (default true warn).
Qed.

Lemma map_content_set ms m k v m' :
  map_content (map_set m k v ms) m' =
    if decide (m = m') then <[k := v]> (map_content ms m) else map_content ms m'.
Proof.
  unfold map_set, map_content. case_decide as Hm.
  - subst. by rewrite lookup_insert_eq.
  - by rewrite lookup_insert_ne.
Qed.

Lemma map_set_other ms m k v m' : m ≠ m' → map_set m k v ms !! m' = ms !! m'.
Proof. intros Hne. unfold map_set. by rewrite lookup_insert_ne. Qed.

Lemma provider_storeContext_spec storeScope scope storeState prev ms :
  provider_storeContext storeScope scope storeState prev ms
  = (fresh (dom ms),
     <[fresh (dom ms) :=
         provider_entries storeScope scope storeState (map_content ms prev)]> ms).
Proof.
  unfold provider_storeContext, map_new, provider_entries. simpl.
  set (new := fresh (dom ms)).
  assert (Hnew : map_content (<[new := map_content ms prev]> ms) new
                 = map_content ms prev).
  { unfold map_content at 1. by rewrite lookup_insert_eq. }
  f_equal. destruct scope as [sc|].
  - destruct (decide (sc = "")) as [->|Hne]; simpl.
    + unfold map_set. rewrite Hnew. by rewrite insert_insert_eq.
    + rewrite bool_decide_eq_false_2 by done. simpl.
      unfold map_set at 1. rewrite map_content_set, decide_True by done.
      rewrite Hnew. unfold map_set. by rewrite !insert_insert_eq.
  - unfold map_set. rewrite Hnew. by rewrite insert_insert_eq.
Qed.

(** C2, as the specification words it, fails: the Provider tests the scope
    prop for truthiness, so an explicit scope that is the empty string gets
    no entry of its own.  Below, the Provider of store ["A"] holds store 7,
    inherits the empty [Map] at location 0 and is given [scope=""]. *)
Lemma provider_empty_scope_counterexample :
  map_content (provider_storeContext "A" (Some "") 7 0 {[ 0 := ∅ ]}).2
              (provider_storeContext "A" (Some "") 7 0 {[ 0 := ∅ ]}).1
    !! getFullyQualifiedScope "A" "" = None
  ∧ map_content (provider_storeContext "A" (Some "") 7 0 {[ 0 := ∅ ]}).2
                (provider_storeContext "A" (Some "") 7 0 {[ 0 := ∅ ]}).1
    !! getFullyQualifiedScope "A" PROVIDER_SCOPE = Some 7.
Proof. split; vm_compute; reflexivity. Qed.

(** C2 (amended): a Provider extends the inherited snapshot in a new [Map]
    and leaves the inherited one, and every other [Map], as it was.  Given a
    non-empty scope prop it adds entries under both ["storeName:scope"] and
    ["storeName:provider"]; given no scope prop, or the empty string, it
    adds the ["storeName:provider"] entry only; every inherited entry for a
    key it does not set is present, unchanged, in the new snapshot. *)
Theorem provider_storeContext_extends storeScope scope storeState prev ms :
  is_Some (ms !! prev) →
  let new := (provider_storeContext storeScope scope storeState prev ms).1 in
  let ms' := (provider_storeContext storeScope scope storeState prev ms).2 in
  ms !! new = None
  ∧ new ≠ prev
  ∧ (∀ m, m ≠ new → ms' !! m = ms !! m)
  ∧ map_content ms' prev = map_content ms prev
  ∧ map_content ms' new !! getFullyQualifiedScope storeScope PROVIDER_SCOPE
    = Some storeState
  ∧ (∀ sc, scope = Some sc → sc ≠ "" →
       map_content ms' new !! getFullyQualifiedScope storeScope sc = Some storeState)
  ∧ (∀ k, k ≠ getFullyQualifiedScope storeScope PROVIDER_SCOPE →
       (∀ sc, scope = Some sc → sc ≠ "" → k ≠ getFullyQualifiedScope storeScope sc) →
       map_content ms' new !! k = map_content ms prev !! k).
Proof.
  intros Hprev new ms'. subst new ms'. rewrite provider_storeContext_spec. simpl.
  assert (Hfresh : ms !! fresh (dom ms) = None) by apply not_elem_of_dom, is_fresh.
  assert (Hne : fresh (dom ms) ≠ prev).
  { intros Heq. rewrite Heq in Hfresh. rewrite Hfresh in Hprev. by destruct Hprev. }
  assert (Hcontent : ∀ r : registry,
    map_content (<[fresh (dom ms) := r]> ms) (fresh (dom ms)) = r).
  { intros r. unfold map_content. by rewrite lookup_insert_eq. }
  split; [done|]. split; [done|]. split.
  { intros m Hm. by rewrite lookup_insert_ne. }
  split.
  { unfold map_content. by rewrite lookup_insert_ne. }
  rewrite Hcontent. unfold provider_entries. split.
  { by rewrite lookup_insert_eq. }
  split.
  - intros sc -> Hsc. rewrite decide_False by done.
    destruct (decide (getFullyQualifiedScope storeScope PROVIDER_SCOPE
                      = getFullyQualifiedScope storeScope sc)) as [Heq|Hneq].
    + rewrite Heq. by rewrite lookup_insert_eq.
    + rewrite lookup_insert_ne by done. by rewrite lookup_insert_eq.
  - intros k Hk Hsc. rewrite lookup_insert_ne by done.
    destruct scope as [sc|]; [|done].
    destruct (decide (sc = "")) as [->|Hne']; [done|].
    rewrite lookup_insert_ne; [done|]. intros Heq. by apply (Hsc sc).
Qed.

Lemma provider_storeContext_extends_witness :
  is_Some (({[ 0 := {[ "A:provider" := 3; "B:provider" := 4 ]} ]} : mapheap) !! 0)
  ∧ map_content
      (provider_storeContext "A" (Some "x") 7 0
         {[ 0 := {[ "A:provider" := 3; "B:provider" := 4 ]} ]}).2 0
    = map_content ({[ 0 := {[ "A:provider" := 3; "B:provider" := 4 ]} ]} : mapheap) 0
  ∧ map_content
      (provider_storeContext "A" (Some "x") 7 0
         {[ 0 := {[ "A:provider" := 3; "B:provider" := 4 ]} ]}).2
      (provider_storeContext "A" (Some "x") 7 0
         {[ 0 := {[ "A:provider" := 3; "B:provider" := 4 ]} ]}).1
      !! getFullyQualifiedScope "A" "x" = Some 7.
Proof.
  assert (H0 : is_Some (({[ 0 := {[ "A:provider" := 3; "B:provider" := 4 ]} ]}
                          : mapheap) !! 0)).
  { exists {[ "A:provider" := 3; "B:provider" := 4 ]}. reflexivity. }
  split; [exact H0|].
  destruct (provider_storeContext_extends "A" (Some "x") 7 0
              {[ 0 := {[ "A:provider" := 3; "B:provider" := 4 ]} ]} H0)
    as (_ & _ & _ & Hprev & _ & Hsc & _).
  split; [exact Hprev|].
  apply (Hsc "x"); [reflexivity | discriminate].
Defined.

End Registry.

Section StoreFacts.
Import Jotai.
Implicit Types (ss : stores) (s : loc) (a v : value).

Lemma store_of_insert ss s s' (x : JotaiStore) :
  store_of (<[s := x]> ss) s' = if decide (s = s') then x else store_of ss s'.
Proof.
  unfold store_of. case_decide as Hs.
  - subst. by rewrite lookup_insert_eq.
  - by rewrite lookup_insert_ne.
Qed.

Lemma createStore_fresh ss : ss !! (createStore ss).1 = None.
Proof. unfold createStore; simpl. apply not_elem_of_dom, is_fresh. Qed.

Lemma createStore_lookup ss s :
  (createStore ss).2 !! s =
    if decide ((createStore ss).1 = s) then Some empty_store else ss !! s.
Proof. unfold createStore; simpl. apply lookup_insert. Qed.

Lemma createStore_keeps ss s :
  is_Some (ss !! s) → (createStore ss).1 ≠ s ∧ (createStore ss).2 !! s = ss !! s.
Proof.
  intros Hs. assert (Hne : (createStore ss).1 ≠ s).
  { intros Heq. pose proof (createStore_fresh ss) as Hf. rewrite Heq in Hf.
    rewrite Hf in Hs. by destruct Hs. }
  split; [done|]. rewrite createStore_lookup. by rewrite decide_False.
Qed.

Lemma cell_store_set ss s a v s' a' :
  cell (store_set s a v ss) s' a' =
    if decide (s = s' ∧ a = a') then Some v else cell ss s' a'.
Proof.
  unfold cell, store_set. rewrite store_of_insert.
  destruct (decide (s = s')) as [->|Hs]; simpl.
  - rewrite lookup_insert. destruct (decide (a = a')) as [->|Ha].
    + by rewrite decide_True.
    + rewrite decide_False; [done | by intros [_ ?]].
  - rewrite decide_False; [done | by intros [? _]].
Qed.

Lemma hydrated_store_set ss s a v s' :
  hydrated (store_of (store_set s a v ss) s') = hydrated (store_of ss s').
Proof.
  unfold store_set. rewrite store_of_insert. by case_decide; subst.
Qed.

Lemma store_set_other ss s a v s' : s ≠ s' → store_set s a v ss !! s' = ss !! s'.
Proof. intros Hne. unfold store_set. by rewrite lookup_insert_ne. Qed.

Lemma store_set_is_Some ss s a v s' :
  is_Some (ss !! s') → is_Some (store_set s a v ss !! s').
Proof.
  intros Hs. unfold store_set. rewrite lookup_insert. by case_decide.
Qed.

(** ** Hydration, one atom at a time *)

Lemma hydrate_atom_other ss s av s' :
  s ≠ s' → hydrate_atom s ss av !! s' = ss !! s'.
Proof.
  intros Hne. unfold hydrate_atom. case_decide; [done|]. by rewrite lookup_insert_ne.
Qed.

Lemma hydrate_atom_is_Some ss s av s' :
  is_Some (ss !! s') → is_Some (hydrate_atom s ss av !! s').
Proof.
  intros Hs. unfold hydrate_atom. case_decide; [done|].
  rewrite lookup_insert. by case_decide.
Qed.

Lemma hydrate_atom_cell ss s a0 v0 a :
  cell (hydrate_atom s ss (a0, v0)) s a =
    if decide (a0 = a ∧ a0 ∉ hydrated (store_of ss s)) then Some v0 else cell ss s a.
Proof.
  unfold hydrate_atom; simpl. destruct (decide (a0 ∈ hydrated (store_of ss s))) as [Hin|Hnotin].
  - rewrite decide_False; [done | by intros [_ ?]].
  - unfold cell. rewrite store_of_insert, decide_True by done. simpl.
    rewrite lookup_insert. destruct (decide (a0 = a)) as [->|Hne].
    + by rewrite decide_True.
    + rewrite decide_False; [done | by intros [? _]].
Qed.

Lemma hydrate_atom_hydrated ss s a0 v0 :
  hydrated (store_of (hydrate_atom s ss (a0, v0)) s)
  = {[a0]} ∪ hydrated (store_of ss s).
Proof.
  unfold hydrate_atom; simpl. destruct (decide (a0 ∈ hydrated (store_of ss s))) as [Hin|Hnotin].
  - set_solver.
  - by rewrite store_of_insert, decide_True.
Qed.

Lemma useHydrateAtoms_other values ss s s' :
  s ≠ s' → useHydrateAtoms values s ss !! s' = ss !! s'.
Proof.
  intros Hne. revert ss. unfold useHydrateAtoms.
  induction values as [|av values IH]; intros ss; simpl; [done|].
  rewrite IH. by apply hydrate_atom_other.
Qed.

Lemma useHydrateAtoms_is_Some values ss s s' :
  is_Some (ss !! s') → is_Some (useHydrateAtoms values s ss !! s').
Proof.
  revert ss. unfold useHydrateAtoms.
  induction values as [|av values IH]; intros ss Hs; simpl; [done|].
  apply IH. by apply hydrate_atom_is_Some.
Qed.

(** An atom the list does not mention is left as it is. *)
Lemma useHydrateAtoms_not_listed values ss s a :
  a ∉ values.*1 →
  cell (useHydrateAtoms values s ss) s a = cell ss s a
  ∧ (a ∈ hydrated (store_of (useHydrateAtoms values s ss) s)
     ↔ a ∈ hydrated (store_of ss s)).
Proof.
  revert ss. unfold useHydrateAtoms.
  induction values as [|[a0 v0] values IH]; intros ss Hnotin; simpl; [done|].
  simpl in Hnotin. apply not_elem_of_cons in Hnotin as [Hne Hnotin].
  destruct (IH (hydrate_atom s ss (a0, v0)) Hnotin) as [Hc Hh].
  rewrite Hc, Hh, hydrate_atom_cell, hydrate_atom_hydrated. split.
  - rewrite decide_False; [done | intros [? _]; congruence].
  - set_solver.
Qed.

(** An atom that was hydrated before is never seeded again. *)
Lemma useHydrateAtoms_already values ss s a :
  a ∈ hydrated (store_of ss s) →
  cell (useHydrateAtoms values s ss) s a = cell ss s a
  ∧ a ∈ hydrated (store_of (useHydrateAtoms values s ss) s).
Proof.
  revert ss. unfold useHydrateAtoms.
  induction values as [|[a0 v0] values IH]; intros ss Hin; simpl; [done|].
  assert (Hin' : a ∈ hydrated (store_of (hydrate_atom s ss (a0, v0)) s)).
  { rewrite hydrate_atom_hydrated. set_solver. }
  destruct (IH _ Hin') as [Hc Hh]. split; [|done].
  rewrite Hc, hydrate_atom_cell.
  rewrite decide_False; [done | intros [-> ?]; done].
Qed.

(** An atom listed once and not hydrated before is seeded with its value. *)
Lemma useHydrateAtoms_seeds values ss s a v :
  NoDup values.*1 → (a, v) ∈ values → a ∉ hydrated (store_of ss s) →
  cell (useHydrateAtoms values s ss) s a = Some v
  ∧ a ∈ hydrated (store_of (useHydrateAtoms values s ss) s).
Proof.
  revert ss.
  induction values as [|[a0 v0] values IH]; intros ss Hnd Hin Hnew.
  { by apply elem_of_nil in Hin. }
  simpl in Hnd. apply NoDup_cons in Hnd as [Hhead Hnd].
  apply elem_of_cons in Hin as [Heq|Hin].
  - injection Heq as <- <-.
    change (useHydrateAtoms ((a, v) :: values) s ss)
      with (useHydrateAtoms values s (hydrate_atom s ss (a, v))).
    destruct (useHydrateAtoms_not_listed values (hydrate_atom s ss (a, v)) s a Hhead)
      as [Hc Hh].
    rewrite Hc, Hh, hydrate_atom_cell, hydrate_atom_hydrated.
    rewrite decide_True by done. split; [done | set_solver].
  - assert (Hne : a0 ≠ a).
    { intros ->. apply Hhead. apply list_elem_of_fmap. by exists (a, v). }
    change (useHydrateAtoms ((a0, v0) :: values) s ss)
      with (useHydrateAtoms values s (hydrate_atom s ss (a0, v0))).
    apply IH; [done | done |].
    rewrite hydrate_atom_hydrated. set_solver.
Qed.

(** ** Effects: a sequence of setter calls *)

Lemma run_effects_hydrated calls ss s :
  hydrated (store_of (UseHydrateStore.run_effects calls ss) s)
  = hydrated (store_of ss s).
Proof.
  revert ss. unfold UseHydrateStore.run_effects.
  induction calls as [|[f v] calls IH]; intros ss; simpl; [done|].
  rewrite IH. unfold call_setter. apply hydrated_store_set.
Qed.

Lemma run_effects_is_Some calls ss s :
  is_Some (ss !! s) → is_Some (UseHydrateStore.run_effects calls ss !! s).
Proof.
  revert ss. unfold UseHydrateStore.run_effects.
  induction calls as [|[f v] calls IH]; intros ss Hs; simpl; [done|].
  apply IH. by apply store_set_is_Some.
Qed.

Lemma run_effects_not_called calls ss s a :
  (s, a) ∉ calls.*1 →
  cell (UseHydrateStore.run_effects calls ss) s a = cell ss s a.
Proof.
  revert ss. unfold UseHydrateStore.run_effects.
  induction calls as [|[[s0 a0] v0] calls IH]; intros ss Hnotin; simpl; [done|].
  simpl in Hnotin. apply not_elem_of_cons in Hnotin as [Hne Hnotin].
  rewrite IH by done. unfold call_setter; simpl. rewrite cell_store_set.
  rewrite decide_False; [done | intros [-> ->]; done].
Qed.

Lemma run_effects_called calls ss s a v :
  NoDup calls.*1 → ((s, a), v) ∈ calls →
  cell (UseHydrateStore.run_effects calls ss) s a = Some v.
Proof.
  revert ss.
  induction calls as [|[[s0 a0] v0] calls IH]; intros ss Hnd Hin.
  { by apply elem_of_nil in Hin. }
  simpl in Hnd. apply NoDup_cons in Hnd as [Hhead Hnd].
  apply elem_of_cons in Hin as [Heq|Hin].
  - injection Heq as <- <- <-.
    change (UseHydrateStore.run_effects (((s, a), v) :: calls) ss)
      with (UseHydrateStore.run_effects calls (call_setter (s, a) v ss)).
    rewrite run_effects_not_called by done.
    unfold call_setter; simpl. rewrite cell_store_set. by rewrite decide_True.
  - change (UseHydrateStore.run_effects (((s0, a0), v0) :: calls) ss)
      with (UseHydrateStore.run_effects calls (call_setter (s0, a0) v0 ss)).
    by apply IH.
Qed.

End StoreFacts.

Section RecordValues.
Implicit Types (r : record value) (k : string) (a : value).

Lemma rec_get_is_Some {A} (r : record A) k : k ∈ rec_keys r → is_Some (rec_get r k).
Proof.
  intros Hin. destruct (rec_get r k) eqn:Hget; [by eexists|].
  by apply rec_get_None_keys in Hget.
Qed.

Lemma rec_get_Some_keys {A} (r : record A) k (x : A) :
  rec_get r k = Some x → k ∈ rec_keys r.
Proof.
  intros Hget. apply rec_get_Some_elem in Hget.
  unfold rec_keys. apply list_elem_of_fmap. by exists (k, x).
Qed.

Lemma js_get_Some r k a : rec_get r k = Some a → js_get r k = a.
Proof. intros Hget. unfold js_get. by rewrite Hget. Qed.

(** Reading the record at each of its keys lists its values. *)
Lemma keys_js_get r :
  NoDup (rec_keys r) → js_get r <$> rec_keys r = r.*2.
Proof.
  intros Hnd. unfold rec_keys. rewrite <- list_fmap_compose.
  apply list_eq_Forall2, Forall2_fmap, Forall_Forall2_diag, Forall_forall.
  intros [k a] Hin. simpl. apply js_get_Some. by apply rec_get_NoDup.
Qed.

(** Distinct values: a value sits under one key only. *)
Lemma rec_value_inj {A} (r : record A) k k' (x : A) :
  NoDup r.*2 → (k, x) ∈ r → (k', x) ∈ r → k = k'.
Proof.
  induction r as [|[k0 x0] r IH]; simpl; intros Hnd Hin Hin'.
  { by apply elem_of_nil in Hin. }
  apply NoDup_cons in Hnd as [Hhead Hnd].
  apply elem_of_cons in Hin as [Heq|Hin];
    apply elem_of_cons in Hin' as [Heq'|Hin'].
  - congruence.
  - injection Heq as -> ->. exfalso. apply Hhead.
    apply list_elem_of_fmap. by exists (k', x0).
  - injection Heq' as -> ->. exfalso. apply Hhead.
    apply list_elem_of_fmap. by exists (k, x0).
  - by apply IH.
Qed.

Lemma rec_get_inj {A} (r : record A) k k' (x : A) :
  NoDup r.*2 → rec_get r k = Some x → rec_get r k' = Some x → k = k'.
Proof.
  intros Hnd Hk Hk'. apply (rec_value_inj r k k' x Hnd); by apply rec_get_Some_elem.
Qed.

(** A loop that pushes at most one item per key yields a sublist of the
    one-item-per-key list. *)
Lemma flat_map_sublist {K B C : Type} (f : K → list B) (g : K → C) (p : B → C)
    (l : list K) :
  (∀ i, f i = [] ∨ ∃ b, f i = [b] ∧ p b = g i) →
  (p <$> flat_map f l) `sublist_of` (g <$> l).
Proof.
  intros Hf. induction l as [|i l IH]; simpl; [constructor|].
  rewrite fmap_app. destruct (Hf i) as [->|(b & -> & Hb)]; simpl.
  - by apply sublist_cons.
  - rewrite Hb. by apply sublist_skip.
Qed.

Lemma elem_of_flat_map {K B : Type} (f : K → list B) (l : list K) (b : B) :
  b ∈ flat_map f l ↔ ∃ i, i ∈ l ∧ b ∈ f i.
Proof.
  rewrite list_elem_of_In, in_flat_map. split; intros (i & Hi & Hb); exists i.
  - by rewrite !list_elem_of_In.
  - by rewrite <- !list_elem_of_In.
Qed.

End RecordValues.

Section Hydration.
Import Jotai UseHydrateStore.
Implicit Types (atoms : record value) (initialValues values : object)
  (ss : stores) (store : loc) (a v : value) (key : string).

Lemma hydrate_values_elem atoms initialValues a v :
  (a, v) ∈ hydrate_values atoms initialValues ↔
  ∃ key, key ∈ rec_keys atoms ∧ js_get atoms key = a
         ∧ js_get initialValues key = v ∧ v ≠ VUndefined.
Proof.
  unfold hydrate_values. rewrite elem_of_flat_map. split.
  - intros (key & Hkey & Hin). exists key. split; [done|].
    destruct (decide (js_get initialValues key = VUndefined)) as [Hu|Hd].
    + by apply elem_of_nil in Hin.
    + apply list_elem_of_singleton in Hin. injection Hin as -> ->. done.
  - intros (key & Hkey & <- & <- & Hd). exists key. split; [done|].
    rewrite decide_False by done. apply list_elem_of_here.
Qed.

Lemma hydrate_values_NoDup atoms initialValues :
  NoDup (rec_keys atoms) → NoDup atoms.*2 →
  NoDup (hydrate_values atoms initialValues).*1.
Proof.
  intros Hk Ha. rewrite <- (keys_js_get atoms Hk) in Ha.
  eapply sublist_NoDup; [exact Ha|].
  apply flat_map_sublist. intros key. cbv zeta.
  destruct (decide (js_get initialValues key = VUndefined)); [by left|].
  right. by eexists.
Qed.





End Hydration.

Section Sync.
Import Jotai UseHydrateStore.
Implicit Types (atoms : record value) (values : object) (prev : effect_deps)
  (ss : stores) (store : loc) (a v : value) (key : string).

Lemma sync_field_writes atoms values store prev key :
  effect_due atoms values store prev key → not_sentinel (js_get values key) →
  sync_field atoms values store prev key
  = [(useSetAtom (js_get atoms key) store, js_get values key)].
Proof.
  intros Hdue Hv. unfold sync_field. by rewrite decide_False, decide_True.
Qed.

Lemma sync_field_skips atoms values store prev key :
  ¬ (effect_due atoms values store prev key ∧ not_sentinel (js_get values key)) →
  sync_field atoms values store prev key = [].
Proof.
  intros Hno. unfold sync_field.
  destruct (decide (prev !! key
              = Some (useSetAtom (js_get atoms key) store, js_get values key)));
    [done|].
  destruct (decide (js_get values key ≠ VUndefined ∧ js_get values key ≠ VNull));
    [|done].
  exfalso. apply Hno. by split.
Qed.

Lemma sync_field_cases atoms values store prev key :
  sync_field atoms values store prev key = []
  ∨ ∃ c, sync_field atoms values store prev key = [c]
         ∧ c.1 = (store, js_get atoms key).
Proof.
  unfold sync_field. repeat case_decide; [by left | right | by left].
  by eexists.
Qed.

Lemma sync_effects_elem atoms values store prev s a v :
  ((s, a), v) ∈ sync_effects atoms values store prev ↔
  ∃ key, key ∈ rec_keys atoms ∧ s = store ∧ a = js_get atoms key
         ∧ v = js_get values key
         ∧ effect_due atoms values store prev key ∧ not_sentinel v.
Proof.
  unfold sync_effects. rewrite elem_of_flat_map. split.
  - intros (key & Hkey & Hin). exists key. split; [done|].
    unfold sync_field in Hin. repeat case_decide.
    + by apply elem_of_nil in Hin.
    + apply list_elem_of_singleton in Hin. by injection Hin as -> -> ->.
    + by apply elem_of_nil in Hin.
  - intros (key & Hkey & -> & -> & -> & Hdue & Hv). exists key. split; [done|].
    rewrite sync_field_writes by done. apply list_elem_of_here.
Qed.

Lemma sync_effects_NoDup atoms values store prev :
  NoDup (rec_keys atoms) → NoDup atoms.*2 →
  NoDup (sync_effects atoms values store prev).*1.
Proof.
  intros Hk Ha. rewrite <- (keys_js_get atoms Hk) in Ha.
  apply (NoDup_fmap_2 (pair store)) in Ha. rewrite <- list_fmap_compose in Ha.
  eapply sublist_NoDup; [exact Ha|].
  apply flat_map_sublist. intros key.
  destruct (sync_field_cases atoms values store prev key) as [->|(c & -> & Hc)];
    [by left | right; by exists c].
Qed.

Lemma sync_deps_lookup atoms values store prev key :
  sync_deps atoms values store prev !! key =
    if decide (key ∈ rec_keys atoms)
    then Some (useSetAtom (js_get atoms key) store, js_get values key)
    else prev !! key.
Proof.
  unfold sync_deps. generalize (rec_keys atoms) as keys. intros keys. revert prev.
  induction keys as [|k keys IH]; intros prev; cbn [foldl].
  - rewrite decide_False; [done | apply not_elem_of_nil].
  - rewrite IH. destruct (decide (key ∈ keys)) as [Hin|Hnotin].
    + rewrite decide_True; [done | by apply list_elem_of_further].
    + rewrite lookup_insert. destruct (decide (k = key)) as [->|Hne].
      * rewrite decide_True; [done | apply list_elem_of_here].
      * rewrite decide_False; [done|]. rewrite elem_of_cons. naive_solver.
Qed.

(** What one render of sync leaves in the cell of a field. *)
Lemma useSyncStore_cell atoms values store prev ss key a :
  NoDup (rec_keys atoms) → NoDup atoms.*2 → rec_get atoms key = Some a →
  cell (useSyncStore atoms values store prev ss).2 store a =
    if decide (effect_due atoms values store prev key
               ∧ not_sentinel (js_get values key))
    then Some (js_get values key) else cell ss store a.
Proof.
  intros Hk Ha Hget. unfold useSyncStore; simpl.
  pose proof (js_get_Some _ _ _ Hget) as Hjs.
  case_decide as Hcase.
  - destruct Hcase as [Hdue Hv]. apply run_effects_called.
    + by apply sync_effects_NoDup.
    + apply sync_effects_elem. exists key.
      split; [by eapply rec_get_Some_keys | done].
  - apply run_effects_not_called. intros Hin.
    apply list_elem_of_fmap in Hin as ([[s' a'] v'] & Heq & Hin). simpl in Heq.
    injection Heq as <- <-.
    apply sync_effects_elem in Hin as (key' & Hkey' & _ & Ha' & -> & Hdue & Hv).
    destruct (rec_get_is_Some atoms key' Hkey') as [a'' Hget'].
    rewrite (js_get_Some _ _ _ Hget') in Ha'. subst a''.
    assert (key = key') by (by eapply rec_get_inj). subst key'.
    apply Hcase. by split.
Qed.

(** C5, as the specification words it, fails in the "only if" direction:
    the effect depends on [[set, value]], and [set] changes with the store.
    Below, the previous render synced the value 5 into store 0; this render
    runs against store 1 with the very same value, and writes it. *)
Lemma sync_unchanged_value_counterexample :
  snd <$> sync_deps [("count", VObj 10)] [("count", VNum 5)] 0 ∅ !! "count"
    = Some (js_get [("count", VNum 5)] "count")
  ∧ sync_field [("count", VObj 10)] [("count", VNum 5)] 1
      (sync_deps [("count", VObj 10)] [("count", VNum 5)] 0 ∅) "count"
    = [((1, VObj 10), VNum 5)].
Proof. split; vm_compute; reflexivity. Qed.

(** C5 (amended): for every field of the synced field set and every render,
    the effect of sync calls the setter of the field's cell with the
    external value, [values[key]] as JavaScript reads it, if and only if the
    value is neither [undefined] nor [null] and the effect is due: it is
    the first render, or the value or the setter (the store or the atom) is
    not the one of the previous render; and sync makes no other call.  When
    no two fields share an atom, the cell then holds that value, else it is
    left as it was; syncing again with a different value that is not a
    sentinel overwrites the cell, whereas hydrating a second time does
    not. *)
Theorem useSyncStore_writes_when_due atoms values store prev ss key a :
  NoDup (rec_keys atoms) → rec_get atoms key = Some a →
  (sync_field atoms values store prev key
     = [(useSetAtom a store, js_get values key)]
   ↔ (prev !! key ≠ Some (useSetAtom a store, js_get values key)
      ∧ js_get values key ≠ VUndefined ∧ js_get values key ≠ VNull))
  ∧ (sync_field atoms values store prev key = []
     ↔ ¬ (prev !! key ≠ Some (useSetAtom a store, js_get values key)
          ∧ js_get values key ≠ VUndefined ∧ js_get values key ≠ VNull))
  ∧ (∀ c, c ∈ sync_effects atoms values store prev →
          ∃ key', key' ∈ rec_keys atoms
                  ∧ sync_field atoms values store prev key' = [c])
  ∧ (NoDup atoms.*2 →
     cell (useSyncStore atoms values store prev ss).2 store a
     = (if decide (prev !! key ≠ Some (useSetAtom a store, js_get values key)
                   ∧ js_get values key ≠ VUndefined ∧ js_get values key ≠ VNull)
        then Some (js_get values key) else cell ss store a)
     ∧ (∀ values2,
          js_get values2 key ≠ js_get values key →
          js_get values2 key ≠ VUndefined → js_get values2 key ≠ VNull →
          cell (useSyncStore atoms values2 store
                  (useSyncStore atoms values store prev ss).1
                  (useSyncStore atoms values store prev ss).2).2 store a
          = Some (js_get values2 key))
     ∧ (∀ values2,
          js_get values key ≠ VUndefined →
          a ∉ hydrated (store_of ss store) →
          cell (useHydrateStore atoms values2 store
                  (useHydrateStore atoms values store ss)) store a
          = Some (js_get values key))).
Proof.
  intros Hk Hget. pose proof (js_get_Some _ _ _ Hget) as Hjs.
  split; [|split; [|split]].
  - unfold sync_field. rewrite Hjs. unfold not_sentinel. split.
    + repeat case_decide; [done | naive_solver | done].
    + intros (Hdue & Hu & Hn). by rewrite decide_False, decide_True.
  - unfold sync_field. rewrite Hjs. split.
    + repeat case_decide; [naive_solver | done | naive_solver].
    + intros Hno. repeat case_decide; [done | | done]. exfalso. naive_solver.
  - intros [[s' a'] v'] Hin.
    apply sync_effects_elem in Hin as (key' & Hkey' & -> & -> & -> & Hdue & Hv).
    exists key'. split; [done|]. by apply sync_field_writes.
  - intros Ha. split; [|split].
    + rewrite (useSyncStore_cell atoms values store prev ss key a) by done.
      apply decide_ext. unfold effect_due, not_sentinel. by rewrite Hjs.
    + intros values2 Hdiff Hu Hn.
      rewrite (useSyncStore_cell atoms values2 store _ _ key a) by done.
      rewrite decide_True; [done|]. split; [|done].
      unfold effect_due, useSyncStore; simpl. rewrite sync_deps_lookup.
      rewrite decide_True by (by eapply rec_get_Some_keys).
      intros Heq. injection Heq as Heq. by symmetry in Heq.
    + intros values2 Hu Hnew. unfold useHydrateStore.
      assert (Hin : (a, js_get values key) ∈ hydrate_values atoms values).
      { apply hydrate_values_elem. exists key.
        split; [by eapply rec_get_Some_keys | done]. }
      destruct (useHydrateAtoms_seeds _ ss store a _
                  (hydrate_values_NoDup atoms values Hk Ha) Hin Hnew) as [Hc Hh].
      destruct (useHydrateAtoms_already (hydrate_values atoms values2) _ store a Hh)
        as [Hc' _].
      by rewrite Hc'.
Qed.

Lemma useSyncStore_writes_when_due_witness :
  sync_field [("count", VObj 10)] [("count", VNum 5)] 0 ∅ "count"
    = [((0, VObj 10), VNum 5)]
  ∧ cell (useSyncStore [("count", VObj 10)] [("count", VNum 6)] 0
            (useSyncStore [("count", VObj 10)] [("count", VNum 5)] 0 ∅ ∅).1
            (useSyncStore [("count", VObj 10)] [("count", VNum 5)] 0 ∅ ∅).2).2
         0 (VObj 10) = Some (VNum 6)
  ∧ cell (useHydrateStore [("count", VObj 10)] [("count", VNum 6)] 0
            (useHydrateStore [("count", VObj 10)] [("count", VNum 5)] 0 ∅))
         0 (VObj 10) = Some (VNum 5).
Proof.
  assert (Hk : NoDup (rec_keys [("count", VObj 10)]))
    by (apply (bool_decide_unpack _); vm_compute; exact I).
  assert (Ha : NoDup [("count", VObj 10)].*2)
    by (apply (bool_decide_unpack _); vm_compute; exact I).
  destruct (useSyncStore_writes_when_due [("count", VObj 10)] [("count", VNum 5)]
              0 ∅ ∅ "count" (VObj 10) Hk eq_refl)
    as (Hw & _ & _ & Hcells).
  destruct (Hcells Ha) as (_ & Hover & Hhyd).
  split; [|split].
  - apply Hw. repeat split; discriminate.
  - apply (Hover [("count", VNum 6)]); discriminate.
  - apply (Hhyd [("count", VNum 6)]); [discriminate|].
    apply not_elem_of_empty.
Defined.

End Sync.

Section ProviderReset.
Import Jotai UseHydrateStore CreateAtomProvider.
Implicit Types (atoms : record value) (props : ProviderProps)
  (hk : ProviderHooks) (w : World) (ss : stores).

Lemma Provider_update storeScope atoms props prev hk w :
  storeState (Provider storeScope atoms props prev (Some hk) w).1
    = (reset_effect (Some hk) (p_resetKey props) (storeState hk)
         (stores_before_reset atoms props hk w)).1
  ∧ w_stores (Provider storeScope atoms props prev (Some hk) w).2
    = (reset_effect (Some hk) (p_resetKey props) (storeState hk)
         (stores_before_reset atoms props hk w)).2
  ∧ resetDeps (Provider storeScope atoms props prev (Some hk) w).1 = p_resetKey props
  ∧ syncDeps (Provider storeScope atoms props prev (Some hk) w).1
    = sync_deps (effective_atoms atoms props) (p_fields props) (storeState hk)
        (syncDeps hk).
Proof.
  unfold Provider, HydrateAtoms, useSyncStore, stores_before_reset, hydration_values.
  destruct (createStore (w_stores w)) as [initial ss1]. cbn [from_option snd].
  repeat match goal with
         | |- context [memo_storeContext ?h ?n ?sc ?c ?pv ?ms] =>
             destruct (memo_storeContext h n sc c pv ms) as [ctx ms']
         | |- context [reset_effect ?h ?k ?c ?ss] =>
             destruct (reset_effect h k c ss) as [next ss4] eqn:Hreset
         end.
  done.
Qed.

Lemma stores_before_reset_is_Some atoms props hk w s :
  is_Some (w_stores w !! s) →
  is_Some (stores_before_reset atoms props hk w !! s).
Proof.
  intros Hs. unfold stores_before_reset, useHydrateStore.
  apply run_effects_is_Some, useHydrateAtoms_is_Some.
  destruct (createStore_keeps (w_stores w) s Hs) as [_ Heq]. by rewrite Heq.
Qed.

(** The store a Provider holds after a render is one of the live stores,
    provided the one it held before was. *)
Lemma Provider_store_live storeScope atoms props prev hooks w :
  (∀ hk, hooks = Some hk → is_Some (w_stores w !! storeState hk)) →
  is_Some (w_stores (Provider storeScope atoms props prev hooks w).2
             !! storeState (Provider storeScope atoms props prev hooks w).1).
Proof.
  intros Hlive. unfold Provider, HydrateAtoms, useSyncStore, useHydrateStore.
  destruct (createStore (w_stores w)) as [initial ss1] eqn:Hcreate. cbv zeta.
  assert (Hcur : is_Some (ss1 !! from_option storeState initial hooks)).
  { replace ss1 with (createStore (w_stores w)).2 by (by rewrite Hcreate).
    destruct hooks as [hk|]; cbn [from_option].
    - destruct (createStore_keeps (w_stores w) (storeState hk)) as [_ ->]; auto.
    - rewrite createStore_lookup, Hcreate. cbn [fst]. by rewrite decide_True. }
  repeat match goal with
         | |- context [memo_storeContext ?h ?n ?sc ?c ?pv ?ms] =>
             destruct (memo_storeContext h n sc c pv ms) as [ctx ms']
         end.
  cbn [fst snd].
  match goal with
  | |- context [reset_effect ?h ?k ?c ?ss] =>
      destruct (reset_effect h k c ss) as [next ss4] eqn:Hreset
  end.
  cbn [fst snd storeState w_stores]. unfold reset_effect in Hreset.
  repeat case_match; simplify_eq.
  - by apply run_effects_is_Some, useHydrateAtoms_is_Some.
  - match type of Hreset with
    | createStore ?ss = _ =>
        pose proof (createStore_lookup ss next) as Hlook; rewrite Hreset in Hlook;
        cbn [fst snd] in Hlook; rewrite Hlook
    end.
    by rewrite decide_True.
  - by apply run_effects_is_Some, useHydrateAtoms_is_Some.
Qed.

(** The guard of the effect: a falsy key never replaces the store. *)
Lemma reset_effect_falsy hooks resetKey current ss :
  truthy resetKey = false → reset_effect hooks resetKey current ss = (current, ss).
Proof. intros Hf. unfold reset_effect. case_decide; [done|]. by rewrite Hf. Qed.

Lemma reset_effect_same hk current ss :
  reset_effect (Some hk) (resetDeps hk) current ss = (current, ss).
Proof. unfold reset_effect. simpl. by rewrite decide_True. Qed.

Lemma reset_effect_changed hk resetKey current ss :
  resetDeps hk ≠ resetKey → truthy resetKey = true →
  reset_effect (Some hk) resetKey current ss = createStore ss.
Proof.
  intros Hne Ht. unfold reset_effect. simpl.
  rewrite decide_False by congruence. by rewrite Ht.
Qed.

End ProviderReset.

Section RecordSpread.
Context {A : Type}.
Implicit Types (r s : record A) (k : string) (x : A).

Lemma rec_keys_elem r k : k ∈ rec_keys r ↔ is_Some (rec_get r k).
Proof.
  split; [apply rec_get_is_Some|]. intros [x Hx]. by eapply rec_get_Some_keys.
Qed.

Lemma rec_keys_set r k k' x :
  k' ∈ rec_keys (rec_set k x r) ↔ k' = k ∨ k' ∈ rec_keys r.
Proof.
  rewrite !rec_keys_elem, rec_get_set. destruct (decide (k = k')) as [->|Hne].
  - split; [by left | by eexists].
  - split; [by right | intros [?|?]; [congruence | done]].
Qed.

Lemma rec_set_NoDup r k x : NoDup (rec_keys r) → NoDup (rec_keys (rec_set k x r)).
Proof.
  unfold rec_keys. induction r as [|[k0 x0] r IH]; simpl; intros Hnd.
  - apply NoDup_singleton.
  - apply NoDup_cons in Hnd as [Hhead Hnd].
    destruct (decide (k0 = k)) as [->|Hne]; simpl.
    + by apply NoDup_cons.
    + apply NoDup_cons. split; [|by apply IH].
      intros Hin. apply (rec_keys_set r k k0 x) in Hin as [?|?]; [congruence | done].
Qed.

Lemma rec_spread_NoDup r s : NoDup (rec_keys r) → NoDup (rec_keys (rec_spread r s)).
Proof.
  revert r. unfold rec_spread.
  induction s as [|[k x] s IH]; intros r Hnd; simpl; [done|].
  by apply IH, rec_set_NoDup.
Qed.

(** Spreading entries whose keys are all different from [k] leaves [k]. *)
Lemma rec_get_spread_other r s k :
  k ∉ rec_keys s → rec_get (rec_spread r s) k = rec_get r k.
Proof.
  revert r. unfold rec_spread, rec_keys.
  induction s as [|[k0 x0] s IH]; intros r Hnotin; simpl; [done|].
  simpl in Hnotin. apply not_elem_of_cons in Hnotin as [Hne Hnotin].
  rewrite IH by done. by apply rec_get_set_ne.
Qed.

(** The spread of a record proper: its entries win over the target's. *)
Lemma rec_get_spread r s k :
  NoDup (rec_keys s) →
  rec_get (rec_spread r s) k =
    match rec_get s k with Some x => Some x | None => rec_get r k end.
Proof.
  revert r. unfold rec_spread, rec_keys.
  induction s as [|[k0 x0] s IH]; intros r Hnd; simpl; [done|].
  apply NoDup_cons in Hnd as [Hhead Hnd]. rewrite IH by done.
  destruct (decide (k0 = k)) as [->|Hne].
  - assert (Hnone : rec_get s k = None) by (by apply rec_get_None_keys).
    rewrite Hnone. apply rec_get_set_eq.
  - destruct (rec_get s k); [done|]. by apply rec_get_set_ne.
Qed.

Lemma rec_get_spread_nil s k :
  NoDup (rec_keys s) → rec_get (rec_spread [] s) k = rec_get s k.
Proof. intros Hnd. rewrite rec_get_spread by done. by destruct (rec_get s k). Qed.

(** Two targets that agree on a key still agree on it after the same spread. *)
Lemma rec_get_spread_agree r r' s k :
  rec_get r k = rec_get r' k →
  rec_get (rec_spread r s) k = rec_get (rec_spread r' s) k.
Proof.
  revert r r'. unfold rec_spread.
  induction s as [|[k0 x0] s IH]; intros r r' Heq; simpl; [done|].
  apply IH. rewrite !rec_get_set. by case_decide.
Qed.

End RecordSpread.

Section Factory.
Import Jotai AtomWithFn UseHydrateStore CreateAtomProvider CreateAtomStore.
Implicit Types (h : heap) (b : BaseAtoms) (key : string) (a v : value).







Lemma base_step_invariant b h entry b' h' processed :
  base_step (b, h) entry = Some (b', h') →
  entry.1 ∉ processed → base_invariant b processed →
  base_invariant b' (processed ++ [entry.1]).
Proof.
  destruct entry as [key atomOrValue]. unfold base_step. simpl.
  destruct (if isAtom h atomOrValue then (atomOrValue, h) else atomWithFn atomOrValue h)
    as [atomConfig h0].
  destruct (js_in h0 "write" atomConfig) as [writable|]; simpl; [|done].
  intros [= <- <-] Hnew [Hkeys Hwr]. split; simpl.
  - intros key'. rewrite rec_keys_set, Hkeys, elem_of_app, list_elem_of_singleton.
    tauto.
  - assert (Hnone : ∀ a, rec_get (writableAtomsWithoutExtend b) key ≠ Some a).
    { intros a Hget. apply Hwr in Hget as [Hget _].
      apply rec_get_Some_keys, Hkeys in Hget. done. }
    intros key' a. destruct (decide (key = key')) as [<-|Hne].
    + rewrite !rec_get_set_eq. destruct writable.
      * rewrite rec_get_set_eq. split; [by intros [= ->] | by intros [[= ->] _]].
      * split; [by intros ?%Hnone | by intros [_ [=]]].
    + rewrite !rec_get_set_ne by done. rewrite <- Hwr.
      destruct writable; [by rewrite rec_get_set_ne | done].
Qed.

Lemma for_of_base_invariant (entries : object) : ∀ b h b' h' processed,
  for_of base_step entries (b, h) = Some (b', h') →
  NoDup (processed ++ entries.*1) → base_invariant b processed →
  base_invariant b' (processed ++ entries.*1).
Proof.
  induction entries as [|entry entries IH]; intros b h b' h' processed;
    cbn [for_of fmap list_fmap].
  - intros [= <- <-] _ Hinv. by rewrite app_nil_r.
  - destruct (base_step (b, h) entry) as [[b1 h1]|] eqn:Hstep;
      cbn [mbind option_bind]; [|done].
    intros Hloop Hnd Hinv.
    replace (processed ++ entry.1 :: entries.*1)
      with ((processed ++ [entry.1]) ++ entries.*1) in *
      by (by rewrite <- app_assoc).
    eapply IH; [exact Hloop | exact Hnd |].
    eapply base_step_invariant; [exact Hstep | | exact Hinv].
    apply NoDup_app in Hnd as (Hnd & _ & _).
    apply NoDup_app in Hnd as (_ & Hdisj & _).
    intros Hin. apply (Hdisj _ Hin). apply list_elem_of_here.
Qed.

Lemma build_base_invariant (initialState : object) h b h' :
  NoDup (rec_keys initialState) →
  build_base initialState h = Some (b, h') →
  base_invariant b (rec_keys initialState).
Proof.
  intros Hnd Hb.
  apply (for_of_base_invariant initialState (MkBase [] [] []) h b h' []);
    [exact Hb | exact Hnd |].
  split; simpl.
  - intros key. split; intros Hin; by apply elem_of_nil in Hin.
  - intros key a. split; [done | by intros [? _]].
Qed.

(** ** The loop over the extension *)

Lemma extend_step_total h (acc : record value * record bool) (entry : string * value) :
  (∃ l, entry.2 = VObj l) → is_Some (extend_step h acc entry).
Proof.
  destruct acc as [ats isw], entry as [key atomConfig]. intros [l Hl].
  simpl in Hl. subst. simpl. by eexists.
Qed.

Lemma for_of_extend_total h (ext : object) (acc : record value * record bool) :
  (∀ k v, (k, v) ∈ ext → ∃ l, v = VObj l) →
  is_Some (for_of (extend_step h) ext acc).
Proof.
  revert acc. induction ext as [|[k v] ext IH]; intros acc Hobj;
    cbn [for_of]; [by eexists|].
  destruct (extend_step_total h acc (k, v)) as [acc' ->].
  { apply (Hobj k v), list_elem_of_here. }
  cbn [mbind option_bind]. apply IH. intros k' v' Hin.
  apply (Hobj k' v'). by apply list_elem_of_further.
Qed.

(** Each extension entry overwrites the atom and the flag under its key;
    the other keys keep theirs. *)
Lemma for_of_extend_lookup h (ext : object) :
  ∀ (ats : record value) (isw : record bool) ats' isw',
  for_of (extend_step h) ext (ats, isw) = Some (ats', isw') →
  NoDup (rec_keys ext) →
  ∀ key,
    match rec_get ext key with
    | Some ea =>
        rec_get ats' key = Some ea ∧ Some <$> rec_get isw' key = Some (js_in h "write" ea)
    | None => rec_get ats' key = rec_get ats key ∧ rec_get isw' key = rec_get isw key
    end.
Proof.
  unfold rec_keys.
  induction ext as [|[k v] ext IH]; intros ats isw ats' isw'; cbn [for_of].
  - by intros [= <- <-] _ key.
  - change (extend_step h (ats, isw) (k, v))
      with (js_in h "write" v ≫= λ writable : bool,
              Some (rec_set k v ats, rec_set k writable isw)).
    destruct (js_in h "write" v) as [writable|] eqn:Hin;
      cbn [mbind option_bind]; [|done].
    intros Hloop Hnd key. simpl in Hnd. apply NoDup_cons in Hnd as [Hhead Hnd].
    specialize (IH _ _ _ _ Hloop Hnd key). simpl.
    destruct (decide (k = key)) as [->|Hne].
    + assert (Hnone : rec_get ext key = None) by (by apply rec_get_None_keys).
      rewrite Hnone in IH. destruct IH as [-> ->].
      rewrite !rec_get_set_eq. by rewrite Hin.
    + destruct (rec_get ext key); [done|]. destruct IH as [-> ->].
      by rewrite !rec_get_set_ne.
Qed.

(** ** The accessor tables *)

Lemma accessors_fold_get (ats : record value) (isw : record bool) (keys : list string) :
  ∀ (acc : Accessors) key,
  rec_get (getAtoms (foldl (accessor_step ats isw) acc keys)) key =
    if decide (key ∈ keys) then Some (js_get ats key) else rec_get (getAtoms acc) key.
Proof.
  induction keys as [|k keys IH]; intros acc key; cbn [foldl].
  - rewrite decide_False; [done | apply not_elem_of_nil].
  - rewrite IH. destruct (decide (key ∈ keys)) as [Hin|Hnotin].
    + rewrite decide_True; [done | by apply list_elem_of_further].
    + simpl. rewrite rec_get_set. destruct (decide (k = key)) as [->|Hne].
      * rewrite decide_True; [done | apply list_elem_of_here].
      * rewrite decide_False; [done|]. rewrite elem_of_cons. naive_solver.
Qed.

Lemma accessors_fold_set (ats : record value) (isw : record bool) (keys : list string) :
  ∀ (acc : Accessors) key,
  rec_get (setAtoms (foldl (accessor_step ats isw) acc keys)) key =
    (if decide (key ∈ keys) then
       if default false (rec_get isw key) then Some (js_get ats key)
       else rec_get (setAtoms acc) key
     else rec_get (setAtoms acc) key)
  ∧ rec_get (useAtoms (foldl (accessor_step ats isw) acc keys)) key =
    (if decide (key ∈ keys) then
       if default false (rec_get isw key) then Some (js_get ats key)
       else rec_get (useAtoms acc) key
     else rec_get (useAtoms acc) key).
Proof.
  induction keys as [|k keys IH]; intros acc key; cbn [foldl].
  - rewrite decide_False; [done | apply not_elem_of_nil].
  - destruct (IH (accessor_step ats isw acc k) key) as [-> ->]. clear IH.
    unfold accessor_step. cbn [setAtoms useAtoms].
    destruct (decide (k = key)) as [->|Hne].
    + rewrite !(decide_True (P := key ∈ key :: keys)) by apply list_elem_of_here.
      destruct (default false (rec_get isw key)).
      * rewrite !rec_get_set_eq. by destruct (decide (key ∈ keys)).
      * by destruct (decide (key ∈ keys)).
    + assert (Hiff : key ∈ k :: keys ↔ key ∈ keys).
      { rewrite elem_of_cons. naive_solver. }
      rewrite !(decide_ext _ _ _ _ Hiff).
      destruct (default false (rec_get isw k)).
      * by rewrite !rec_get_set_ne.
      * done.
Qed.

Lemma build_accessors_lookup (ats : record value) (isw : record bool) key a :
  rec_get ats key = Some a →
  rec_get (getAtoms (build_accessors ats isw)) key = Some a
  ∧ rec_get (setAtoms (build_accessors ats isw)) key
    = (if default false (rec_get isw key) then Some a else None)
  ∧ rec_get (useAtoms (build_accessors ats isw)) key
    = (if default false (rec_get isw key) then Some a else None).
Proof.
  intros Hget. pose proof (rec_get_Some_keys _ _ _ Hget) as Hkey.
  unfold build_accessors. rewrite accessors_fold_get.
  destruct (accessors_fold_set ats isw (rec_keys ats) (MkAccessors [] [] []) key)
    as [-> ->].
  rewrite !decide_True by done. by rewrite (js_get_Some _ _ _ Hget).
Qed.

(** C8: when a key is both a base field and a field the extension returns,
    construction goes through (no error: the result is [Some]; and the
    function has no console output at all), the extension's atom takes the
    place of the base atom in the final field set and in the [get] table,
    and the writability flag, with it the presence of the [set] and [use]
    accessors, is derived anew from the extension's atom. *)
Theorem createAtomStore_extension_wins (initialState : object) (nm : string)
    (extend : extender) h b h1 :
  build_base initialState h = Some (b, h1) →
  NoDup (rec_keys (extend (atomsWithoutExtend b) h1).1) →
  (∀ k v, (k, v) ∈ (extend (atomsWithoutExtend b) h1).1 → ∃ l, v = VObj l) →
  ∃ st,
    createAtomStore initialState nm (Some extend) h
      = Some (st, (extend (atomsWithoutExtend b) h1).2)
    ∧ ∀ key baseAtom extAtom,
        rec_get (atomsWithoutExtend b) key = Some baseAtom →
        rec_get (extend (atomsWithoutExtend b) h1).1 key = Some extAtom →
        rec_get (atoms st) key = Some extAtom
        ∧ rec_get (isWritableTable st) key
          = Some (has_prop (extend (atomsWithoutExtend b) h1).2 extAtom "write")
        ∧ rec_get (getAtoms (accessors st)) key = Some extAtom
        ∧ rec_get (setAtoms (accessors st)) key
          = (if has_prop (extend (atomsWithoutExtend b) h1).2 extAtom "write"
             then Some extAtom else None)
        ∧ rec_get (useAtoms (accessors st)) key
          = (if has_prop (extend (atomsWithoutExtend b) h1).2 extAtom "write"
             then Some extAtom else None).
Proof.
  intros Hb Hnd Hobj. unfold createAtomStore. rewrite Hb. cbn [mbind option_bind].
  destruct (extend (atomsWithoutExtend b) h1) as [ext h2] eqn:Hext.
  cbn [fst snd] in *.
  destruct (for_of_extend_total h2 ext
              (rec_spread [] (atomsWithoutExtend b), atomIsWritable b) Hobj)
    as [[ats isw] Hloop].
  rewrite Hloop. cbn [mbind option_bind]. eexists. split; [reflexivity|].
  intros key baseAtom extAtom Hbase Hextk. cbn [atoms isWritableTable accessors].
  pose proof (for_of_extend_lookup h2 ext _ _ _ _ Hloop Hnd key) as Hlook.
  rewrite Hextk in Hlook. destruct Hlook as [Hats Hisw].
  destruct (Hobj key extAtom (rec_get_Some_elem _ _ _ Hextk)) as [l ->].
  simpl in Hisw. destruct (rec_get isw key) as [flag|] eqn:Hflag; [|done].
  assert (flag = has_prop h2 (VObj l) "write") as -> by (simpl in *; congruence).
  destruct (build_accessors_lookup ats isw key (VObj l) Hats) as (Hg & Hs & Hu).
  rewrite Hflag in Hs, Hu. simpl in Hs, Hu. done.
Qed.

End Factory.

Section ProviderFrame.
Import Jotai AtomWithFn UseHydrateStore CreateAtomProvider CreateAtomStore.
Implicit Types (h : heap) (b : BaseAtoms) (key : string) (a v : value)
  (props : ProviderProps).

Lemma flat_map_ext_elem {K B : Type} (f g : K → list B) (l : list K) :
  (∀ i, i ∈ l → f i = g i) → flat_map f l = flat_map g l.
Proof.
  induction l as [|i l IH]; intros Hfg; simpl; [done|].
  rewrite (Hfg i) by apply list_elem_of_here. f_equal.
  apply IH. intros j Hj. apply Hfg. by apply list_elem_of_further.
Qed.

Lemma hydrate_values_ext (ats : record value) (iv iv' : object) :
  (∀ k, k ∈ rec_keys ats → js_get iv' k = js_get iv k) →
  hydrate_values ats iv' = hydrate_values ats iv.
Proof.
  intros Hagree. unfold hydrate_values. apply flat_map_ext_elem.
  intros k Hk. cbv zeta. by rewrite (Hagree k Hk).
Qed.

Lemma sync_effects_ext (ats : record value) (values values' : object) store prev :
  (∀ k, k ∈ rec_keys ats → js_get values' k = js_get values k) →
  sync_effects ats values' store prev = sync_effects ats values store prev.
Proof.
  intros Hagree. unfold sync_effects. apply flat_map_ext_elem.
  intros k Hk. unfold sync_field. by rewrite (Hagree k Hk).
Qed.

Lemma sync_deps_ext (ats : record value) (values values' : object) store prev :
  (∀ k, k ∈ rec_keys ats → js_get values' k = js_get values k) →
  sync_deps ats values' store prev = sync_deps ats values store prev.
Proof.
  unfold sync_deps. generalize (rec_keys ats) as keys. intros keys. revert prev.
  induction keys as [|k keys IH]; intros prev Hagree; cbn [foldl]; [done|].
  rewrite (Hagree k) by apply list_elem_of_here. apply IH.
  intros j Hj. apply Hagree. by apply list_elem_of_further.
Qed.

(** Assigning one key in the source of a spread changes no other key. *)
Lemma rec_get_spread_set_source {A : Type} (r s : record A) key (x : A) k :
  k ≠ key → rec_get (rec_spread r (rec_set key x s)) k = rec_get (rec_spread r s) k.
Proof.
  intros Hne. revert r. unfold rec_spread.
  induction s as [|[k0 x0] s IH]; intros r; simpl.
  - by apply rec_get_set_ne.
  - destruct (decide (k0 = key)) as [->|Hne0]; simpl.
    + apply (rec_get_spread_agree (rec_set key x r) (rec_set key x0 r) s k).
      by rewrite !rec_get_set_ne.
    + apply IH.
Qed.

Lemma js_get_agree (o o' : object) k :
  rec_get o' k = rec_get o k → js_get o' k = js_get o k.
Proof. intros Heq. unfold js_get. by rewrite Heq. Qed.

Lemma HydrateAtoms_ext (ats : record value) (iv iv' : option object)
    (fields fields' : object) store prev ss :
  (∀ k, k ∈ rec_keys ats →
        js_get (rec_spread (default [] iv') fields') k
        = js_get (rec_spread (default [] iv) fields) k) →
  (∀ k, k ∈ rec_keys ats → js_get fields' k = js_get fields k) →
  HydrateAtoms iv' fields' store ats prev ss = HydrateAtoms iv fields store ats prev ss.
Proof.
  intros Hh Hf. unfold HydrateAtoms, useSyncStore, useHydrateStore.
  rewrite (hydrate_values_ext ats _ _ Hh).
  by rewrite (sync_effects_ext ats _ _ store prev Hf), (sync_deps_ext ats _ _ store prev Hf).
Qed.

(** A Provider looks at its initial values and per-field props only under
    the keys of the atoms [HydrateAtoms] receives. *)
Lemma Provider_ext storeScope (ats : record value) props props' prev hooks w :
  p_scope props' = p_scope props → p_resetKey props' = p_resetKey props →
  p_atoms props' = p_atoms props →
  (∀ k, k ∈ rec_keys (effective_atoms ats props) →
        js_get (hydration_values props') k = js_get (hydration_values props) k) →
  (∀ k, k ∈ rec_keys (effective_atoms ats props) →
        js_get (p_fields props') k = js_get (p_fields props) k) →
  Provider storeScope ats props' prev hooks w = Provider storeScope ats props prev hooks w.
Proof.
  intros Hsc Hrk Hat Hh Hf. unfold Provider, effective_atoms. rewrite Hsc, Hrk, Hat.
  destruct (createStore (w_stores w)) as [initial ss1]. cbv zeta.
  destruct (memo_storeContext hooks storeScope (p_scope props)
              (from_option storeState initial hooks) prev (w_maps w)) as [ctx ms].
  by rewrite (HydrateAtoms_ext (default ats (p_atoms props))
                (p_initialValues props) (p_initialValues props')
                (p_fields props) (p_fields props') _ _ _ Hh Hf).
Qed.

(** Assigning a prop under a name that is not reserved assigns a per-field
    value. *)
Lemma p_fields_with_field key v props :
  key ∉ reserved_props →
  p_fields (with_field key v props) = rec_set key v (p_fields props).
Proof.
  intros Hkey. unfold p_fields, with_field. cbn [p_others].
  induction (p_others props) as [|[k0 x0] r IH]; cbn [rec_set].
  - rewrite filter_cons, decide_True by done. by rewrite filter_nil.
  - destruct (decide (k0 = key)) as [->|Hne].
    + rewrite !filter_cons, !decide_True by done. cbn [rec_set].
      by rewrite decide_True.
    + rewrite !filter_cons. destruct (decide ((k0, x0).1 ∉ reserved_props)).
      * cbn [rec_set]. rewrite decide_False by done. by rewrite IH.
      * exact IH.
Qed.

Lemma createAtomStore_providerAtoms (initialState : object) nm extend h b h1 st h' :
  build_base initialState h = Some (b, h1) →
  createAtomStore initialState nm extend h = Some (st, h') →
  providerAtoms st = writableAtomsWithoutExtend b.
Proof.
  intros Hb. unfold createAtomStore. rewrite Hb. cbn [mbind option_bind].
  destruct extend as [extend|].
  - destruct (extend (atomsWithoutExtend b) h1) as [ext h2].
    destruct (for_of (extend_step h2) ext _) as [[ats isw]|];
      cbn [mbind option_bind]; [|done].
    by intros [= <- <-].
  - cbn [mbind option_bind]. by intros [= <- <-].
Qed.

(** C7 (amended): the Provider is built with exactly the base atoms flagged
    writable.  Every pair hydration hands over and every setter call sync
    makes on that record is for such an atom, under a key of the base
    bundle, and every such atom can be a target; so an atom that is not the
    atom of a writable base field is never seeded or written, and a field of
    the extension is only if the extension handed such an atom back.  For a
    Provider that is given no prop named [atoms], one more [initialValues]
    entry for a key that is not in the base bundle, or one more per-field
    prop for such a key under a name that is not reserved, leaves its render
    and commit as they are, whatever the value. *)
Theorem provider_targets_writable_base_atoms (initialState : object) nm extend
    h b h1 st h' :
  NoDup (rec_keys initialState) →
  build_base initialState h = Some (b, h1) →
  createAtomStore initialState nm extend h = Some (st, h') →
  (∀ key a, rec_get (providerAtoms st) key = Some a ↔
            key ∈ rec_keys initialState
            ∧ rec_get (atomsWithoutExtend b) key = Some a
            ∧ rec_get (atomIsWritable b) key = Some true)
  ∧ (∀ iv a v, (a, v) ∈ hydrate_values (providerAtoms st) iv →
       ∃ key, key ∈ rec_keys initialState
              ∧ rec_get (atomsWithoutExtend b) key = Some a
              ∧ rec_get (atomIsWritable b) key = Some true
              ∧ js_get iv key = v)
  ∧ (∀ values store prev c, c ∈ sync_effects (providerAtoms st) values store prev →
       ∃ key, key ∈ rec_keys initialState
              ∧ rec_get (atomsWithoutExtend b) key = Some c.1.2
              ∧ rec_get (atomIsWritable b) key = Some true
              ∧ js_get values key = c.2)
  ∧ (∀ key a, rec_get (providerAtoms st) key = Some a →
       (a, VNull) ∈ hydrate_values (providerAtoms st) [(key, VNull)]
       ∧ ∀ store, ((store, a), VBool true)
                  ∈ sync_effects (providerAtoms st) [(key, VBool true)] store ∅)
  ∧ (∀ a, a ∉ (providerAtoms st).*2 →
       (∀ iv, a ∉ (hydrate_values (providerAtoms st) iv).*1)
       ∧ (∀ values store prev s,
            (s, a) ∉ (sync_effects (providerAtoms st) values store prev).*1))
  ∧ (∀ storeScope props prev hooks w key v,
       p_atoms props = None →
       key ∉ rec_keys initialState →
       Provider storeScope (providerAtoms st) (with_initialValue key v props)
         prev hooks w
       = Provider storeScope (providerAtoms st) props prev hooks w
       ∧ (key ∉ reserved_props →
          Provider storeScope (providerAtoms st) (with_field key v props)
            prev hooks w
          = Provider storeScope (providerAtoms st) props prev hooks w)).
Proof.
  intros Hnd Hb Hst.
  rewrite (createAtomStore_providerAtoms _ _ _ _ _ _ _ _ Hb Hst).
  destruct (build_base_invariant initialState h b h1 Hnd Hb) as [Hkeys Hwr].
  assert (Hprov : ∀ key a, rec_get (writableAtomsWithoutExtend b) key = Some a ↔
            key ∈ rec_keys initialState
            ∧ rec_get (atomsWithoutExtend b) key = Some a
            ∧ rec_get (atomIsWritable b) key = Some true).
  { intros key a. rewrite Hwr. split; [|tauto]. intros [Hget Hflag].
    split; [|done]. apply Hkeys. by eapply rec_get_Some_keys. }
  assert (Hpkeys : ∀ key, key ∈ rec_keys (writableAtomsWithoutExtend b) →
                          key ∈ rec_keys initialState).
  { intros key [a Hget]%rec_get_is_Some. by apply Hprov in Hget as [? _]. }
  assert (Hhyd : ∀ iv a v, (a, v) ∈ hydrate_values (writableAtomsWithoutExtend b) iv →
       ∃ key, key ∈ rec_keys initialState
              ∧ rec_get (atomsWithoutExtend b) key = Some a
              ∧ rec_get (atomIsWritable b) key = Some true
              ∧ js_get iv key = v).
  { intros iv a v (key & Hkey & Hget & Hv & _)%hydrate_values_elem.
    destruct (rec_get_is_Some _ key Hkey) as [a' Ha'].
    rewrite (js_get_Some _ _ _ Ha') in Hget. subst a'.
    apply Hprov in Ha' as (? & ? & ?). by exists key. }
  assert (Hsync : ∀ values store prev c,
       c ∈ sync_effects (writableAtomsWithoutExtend b) values store prev →
       ∃ key, key ∈ rec_keys initialState
              ∧ rec_get (atomsWithoutExtend b) key = Some c.1.2
              ∧ rec_get (atomIsWritable b) key = Some true
              ∧ js_get values key = c.2).
  { intros values store prev [[s a] v] Hin.
    apply sync_effects_elem in Hin as (key & Hkey & _ & Hget & Hv & _).
    destruct (rec_get_is_Some _ key Hkey) as [a' Ha'].
    rewrite (js_get_Some _ _ _ Ha') in Hget. subst a'.
    apply Hprov in Ha' as (? & ? & ?). by exists key. }
  assert (Hown : ∀ key v, js_get [(key, v)] key = v).
  { intros key v. unfold js_get. cbn [rec_get]. by rewrite decide_True. }
  split; [exact Hprov|]. split; [exact Hhyd|]. split; [exact Hsync|].
  split; [|split].
  - intros key a Hget. split.
    + apply hydrate_values_elem. exists key.
      split; [by eapply rec_get_Some_keys|].
      split; [by apply js_get_Some|]. by rewrite Hown.
    + intros store. apply sync_effects_elem. exists key.
      split; [by eapply rec_get_Some_keys|]. split; [done|].
      split; [symmetry; by apply js_get_Some|]. rewrite Hown.
      split; [done|]. split; [|done].
      unfold effect_due. by rewrite lookup_empty.
  - intros a Hnot.
    assert (Hno : ∀ key, rec_get (writableAtomsWithoutExtend b) key ≠ Some a).
    { intros key Hget. apply Hnot, list_elem_of_fmap. exists (key, a).
      split; [done | by apply rec_get_Some_elem]. }
    split.
    + intros iv Hin. apply list_elem_of_fmap in Hin as ([a' v] & Heq & Hin).
      simpl in Heq. subst a'. apply Hhyd in Hin as (key & Hkey & Hget & Hw & _).
      apply (Hno key). by apply Hprov.
    + intros values store prev s Hin.
      apply list_elem_of_fmap in Hin as ([[s' a'] v] & Heq & Hin).
      simpl in Heq. injection Heq as <- <-.
      apply Hsync in Hin as (key & Hkey & Hget & Hw & _). simpl in Hget.
      apply (Hno key). by apply Hprov.
  - intros storeScope props prev hooks w key v Hnone Hkey.
    assert (Heff : effective_atoms (writableAtomsWithoutExtend b) props
                   = writableAtomsWithoutExtend b)
      by (unfold effective_atoms; by rewrite Hnone).
    assert (Hne : ∀ k, k ∈ rec_keys (writableAtomsWithoutExtend b) → k ≠ key).
    { intros k Hk ->. by apply Hkey, Hpkeys. }
    split; [|intros Hres]; apply Provider_ext; try done; rewrite Heff;
      intros k Hk; apply js_get_agree; unfold hydration_values;
      rewrite ?p_fields_with_field by done.
    + cbn [p_initialValues with_initialValue default].
      change (p_fields (with_initialValue key v props)) with (p_fields props).
      apply rec_get_spread_agree. apply rec_get_set_ne. intros ->. by apply (Hne k).
    + cbn [p_initialValues with_field]. apply rec_get_spread_set_source.
      by apply Hne.
    + apply rec_get_set_ne. intros ->. by apply (Hne k).
Qed.

(** C7, as the specification words it, fails in two ways.  An extension may
    hand a base atom back under a key of its own: the store below has the
    extension field [alias] on the atom of [count], and mounting its
    Provider with [initialValues = { count: 1 }] seeds that cell.  And a
    prop named [atoms] takes the place of the record the Provider was built
    with: [<AProvider atoms={{ extra: a }} extra={7}>] writes 7 to the cell
    of [a], the writable atom of the extension field [extra], which is not
    a base atom. *)
Lemma extension_field_seeded_counterexample :
  (rec_get Scenario.initialState "alias" = None
   ∧ rec_get (atoms Scenario.aliased.1) "alias" = Some (VObj 5)
   ∧ cell (w_stores (Provider "A" (providerAtoms Scenario.aliased.1)
                       (Scenario.props VUndefined) 0 None Scenario.root).2)
          (storeState (Provider "A" (providerAtoms Scenario.aliased.1)
                         (Scenario.props VUndefined) 0 None Scenario.root).1)
          (VObj 5) = Some (VNum 1))
  ∧ (rec_get Scenario.initialState "extra" = None
     ∧ rec_get (atoms Scenario.extended.1) "extra" = Some (VObj 14)
     ∧ bool_decide (VObj 14 ∈ (providerAtoms Scenario.extended.1).*2) = false
     ∧ cell (w_stores (Provider "A" (providerAtoms Scenario.extended.1)
                         Scenario.atoms_prop 0 None Scenario.root).2)
            (storeState (Provider "A" (providerAtoms Scenario.extended.1)
                           Scenario.atoms_prop 0 None Scenario.root).1)
            (VObj 14) = Some (VNum 7)).
Proof.
  split; [split; [|split] | split; [|split; [|split]]]; vm_compute; reflexivity.
Qed.

End ProviderFrame.

Section Witnesses.
Import Jotai AtomWithFn UseHydrateStore CreateAtomProvider CreateAtomStore.

Lemma scenario_base :
  build_base Scenario.initialState ∅ = Some (Scenario.base.1, Scenario.base.2).
Proof. vm_compute. reflexivity. Qed.

Lemma scenario_store :
  createAtomStore Scenario.initialState "A" (Some Scenario.readonly_count) ∅
  = Some (Scenario.store.1, Scenario.store.2).
Proof. vm_compute. reflexivity. Qed.

Lemma scenario_keys : NoDup (rec_keys Scenario.initialState).
Proof. apply (bool_decide_unpack _). vm_compute. exact I. Qed.

Lemma createAtomStore_extension_wins_witness :
  ∃ st h',
    createAtomStore Scenario.initialState "A" (Some Scenario.readonly_count) ∅
      = Some (st, h')
    ∧ rec_get (atomsWithoutExtend Scenario.base.1) "count" = Some (VObj 5)
    ∧ rec_get (atoms st) "count" = Some (VObj 13)
    ∧ rec_get (isWritableTable st) "count" = Some false
    ∧ rec_get (getAtoms (accessors st)) "count" = Some (VObj 13)
    ∧ rec_get (setAtoms (accessors st)) "count" = None.
Proof.
  assert (Hnd : NoDup (rec_keys (Scenario.readonly_count
                  (atomsWithoutExtend Scenario.base.1) Scenario.base.2).1))
    by (apply (bool_decide_unpack _); vm_compute; exact I).
  assert (Hobj : ∀ k v,
    (k, v) ∈ (Scenario.readonly_count
                (atomsWithoutExtend Scenario.base.1) Scenario.base.2).1 →
    ∃ l, v = VObj l).
  { intros k v Hin. vm_compute in Hin. apply list_elem_of_singleton in Hin.
    injection Hin as _ ->. by eexists. }
  destruct (createAtomStore_extension_wins Scenario.initialState "A"
              Scenario.readonly_count ∅ Scenario.base.1 Scenario.base.2
              scenario_base Hnd Hobj) as (st & Hst & Hkey).
  exists st. eexists. split; [exact Hst|].
  destruct (Hkey "count" (VObj 5) (VObj 13) eq_refl eq_refl)
    as (Hat & Hw & Hg & Hs & _).
  split; [reflexivity|]. split; [exact Hat|]. split; [exact Hw|].
  split; [exact Hg | exact Hs].
Defined.

Lemma provider_targets_writable_base_atoms_witness :
  rec_get (providerAtoms Scenario.store.1) "count" = Some (VObj 5)
  ∧ rec_get (atoms Scenario.store.1) "count" = Some (VObj 13)
  ∧ (VObj 13 ∉ (hydrate_values (providerAtoms Scenario.store.1)
                  [("count", VNum 7)]).*1)
  ∧ Provider "A" (providerAtoms Scenario.store.1)
      (with_initialValue "double" (VNum 9) (Scenario.props VUndefined))
      0 None Scenario.root
    = Provider "A" (providerAtoms Scenario.store.1) (Scenario.props VUndefined)
        0 None Scenario.root.
Proof.
  destruct (provider_targets_writable_base_atoms Scenario.initialState "A"
              (Some Scenario.readonly_count) ∅ Scenario.base.1 Scenario.base.2
              Scenario.store.1 Scenario.store.2
              scenario_keys scenario_base scenario_store)
    as (Hprov & _ & _ & _ & Hext & Hframe).
  split.
  { apply Hprov. split; [|split; reflexivity].
    apply (bool_decide_unpack _). vm_compute. exact I. }
  split; [reflexivity|]. split.
  - apply (Hext (VObj 13)).
    apply (bool_decide_unpack _). vm_compute. exact I.
  - refine (proj1 (Hframe "A" (Scenario.props VUndefined) 0 None Scenario.root
                     "double" (VNum 9) eq_refl _)).
    apply (bool_decide_unpack _). vm_compute. exact I.
Defined.

End Witnesses.

Section IndexKeys.

Ltac char_code :=
  repeat match goal with
         | |- context [Ascii.nat_of_ascii ?c] =>
             let n := eval vm_compute in (Ascii.nat_of_ascii c) in
             change (Ascii.nat_of_ascii c) with n
         end.

Lemma pretty_N_char_digit (x : N) :
  (48 ≤ Ascii.nat_of_ascii (pretty_N_char x) ≤ 57)%nat.
Proof.
  unfold pretty_N_char.
  repeat case_match; char_code; lia.
Qed.

Lemma pretty_N_go_digit_headed (x : N) (s : string) :
  (0 < x)%N ∨ digit_headed s → digit_headed (pretty_N_go x s).
Proof.
  revert s. induction (N.lt_wf_0 x) as [x _ IH]; intros s Hs.
  assert (x = 0 ∨ 0 < x)%N as [->|Hpos] by lia.
  - rewrite pretty_N_go_0. destruct Hs as [Hlt|Hs]; [lia | done].
  - rewrite pretty_N_go_step by done. apply IH.
    + by apply N.div_lt.
    + right. simpl. apply pretty_N_char_digit.
Qed.

(** The key of an index of a string or array starts with a digit. *)
Lemma pretty_nat_digit_headed (i : nat) : digit_headed (pretty i).
Proof.
  unfold pretty, pretty_nat, pretty, pretty_N.
  case_decide as Hz; [simpl; char_code; lia|].
  apply pretty_N_go_digit_headed. left. lia.
Qed.

Lemma string_entries_keys (s : string) (k : string) :
  k ∈ rec_keys (string_entries s) → digit_headed k.
Proof.
  unfold string_entries, rec_keys. generalize 0 as i. 
  induction s as [|c s IH]; intros i; simpl.
  - intros Hin. by apply elem_of_nil in Hin.
  - intros [->|Hin]%elem_of_cons; [apply pretty_nat_digit_headed | by eapply IH].
Qed.

End IndexKeys.

Section Surface.
Import Jotai CreateAtomProvider CreateAtomStore.
Context (name : string) (delayRoot : value) (storeContext : registry).
Implicit Types (s : string) (acc : Accessors) (atomConfig : value)
  (defaultOptions options : UseAtomOptionsOrScope).

(** Where the argument goes through [convertScopeShorthand], a bare scope
    and [{ scope }] are the same call: the resolver, [store], the [.atom]
    members, and the default options of every member. *)
Lemma useStore_scope_shorthand s :
  useStore name storeContext (ScopeStr s)
  = useStore name storeContext (Options [("scope", VStr s)]).
Proof. reflexivity. Qed.

Lemma api_store_scope_shorthand defaultOptions s :
  api_store name storeContext defaultOptions (ScopeStr s)
  = api_store name storeContext defaultOptions (Options [("scope", VStr s)]).
Proof. reflexivity. Qed.

Lemma api_atom_scope_shorthand defaultOptions atomConfig s :
  api_get_atom name delayRoot storeContext defaultOptions atomConfig (ScopeStr s)
  = api_get_atom name delayRoot storeContext defaultOptions atomConfig
      (Options [("scope", VStr s)])
  ∧ api_set_atom name storeContext defaultOptions atomConfig (ScopeStr s)
    = api_set_atom name storeContext defaultOptions atomConfig
        (Options [("scope", VStr s)])
  ∧ api_use_atom name delayRoot storeContext defaultOptions atomConfig (ScopeStr s)
    = api_use_atom name delayRoot storeContext defaultOptions atomConfig
        (Options [("scope", VStr s)]).
Proof. repeat split. Qed.

Lemma api_defaults_scope_shorthand acc key options atomConfig s :
  api_get name delayRoot storeContext acc (ScopeStr s) key options
  = api_get name delayRoot storeContext acc (Options [("scope", VStr s)]) key options
  ∧ api_set name storeContext acc (ScopeStr s) key options
    = api_set name storeContext acc (Options [("scope", VStr s)]) key options
  ∧ api_use name delayRoot storeContext acc (ScopeStr s) key options
    = api_use name delayRoot storeContext acc (Options [("scope", VStr s)]) key options
  ∧ api_store name storeContext (ScopeStr s) options
    = api_store name storeContext (Options [("scope", VStr s)]) options
  ∧ api_get_atom name delayRoot storeContext (ScopeStr s) atomConfig options
    = api_get_atom name delayRoot storeContext (Options [("scope", VStr s)])
        atomConfig options.
Proof. repeat split. Qed.

(** The options [withDefaultOptions] passes on are the defaults, whatever
    string stands in the place of the options: spreading a string adds
    index keys only. *)
Lemma spread_string_get (defaultOptions : object) s k :
  ¬ digit_headed k →
  rec_get (rec_spread (rec_spread [] defaultOptions) (spread_entries (ScopeStr s))) k
  = rec_get (rec_spread (rec_spread [] defaultOptions) (spread_entries (Options []))) k.
Proof.
  intros Hk. simpl. apply rec_get_spread_other.
  intros Hin. by apply Hk, (string_entries_keys s).
Qed.

Lemma useStore_ext (o o' : object) :
  js_get o' "scope" = js_get o "scope" →
  js_get o' "store" = js_get o "store" →
  js_get o' "warnIfNoStore" = js_get o "warnIfNoStore" →
  useStore name storeContext (Options o') = useStore name storeContext (Options o).
Proof. intros H1 H2 H3. unfold useStore. simpl. by rewrite H1, H2, H3. Qed.

Lemma js_get_spread_agree (r s s' : object) k :
  NoDup (rec_keys s) → NoDup (rec_keys s') → rec_get s' k = rec_get s k →
  js_get (rec_spread r s') k = js_get (rec_spread r s) k.
Proof.
  intros Hs Hs' Heq. unfold js_get. by rewrite !rec_get_spread, Heq.
Qed.

(** So a per-field accessor given a bare scope does what it does without
    any argument. *)
Lemma field_accessor_drops_bare_scope acc defaultOptions key s :
  key ≠ "atom" →
  api_get name delayRoot storeContext acc defaultOptions key (ScopeStr s)
  = api_get name delayRoot storeContext acc defaultOptions key (Options [])
  ∧ api_set name storeContext acc defaultOptions key (ScopeStr s)
    = api_set name storeContext acc defaultOptions key (Options [])
  ∧ api_use name delayRoot storeContext acc defaultOptions key (ScopeStr s)
    = api_use name delayRoot storeContext acc defaultOptions key (Options []).
Proof.
  intros Hfield.
  set (d := convertScopeShorthand defaultOptions).
  set (o' := rec_spread (rec_spread [] d) (spread_entries (ScopeStr s))).
  set (o := rec_spread (rec_spread [] d) (spread_entries (Options []))).
  assert (Hget : ∀ k, ¬ digit_headed k → rec_get o' k = rec_get o k).
  { intros k Hk. by apply spread_string_get. }
  assert (Hjs : ∀ k, ¬ digit_headed k → js_get o' k = js_get o k).
  { intros k Hk. unfold js_get. by rewrite Hget. }
  assert (Hnd : NoDup (rec_keys o) ∧ NoDup (rec_keys o')).
  { split; apply rec_spread_NoDup, rec_spread_NoDup, NoDup_nil_2. }
  destruct Hnd as [Hnd Hnd'].
  assert (Hkeys : ¬ digit_headed "scope" ∧ ¬ digit_headed "store"
                  ∧ ¬ digit_headed "warnIfNoStore" ∧ ¬ digit_headed "delay").
  { repeat split; intros Hd; vm_compute in Hd; lia. }
  destruct Hkeys as (Hk1 & Hk2 & Hk3 & Hk4).
  assert (Hstore : useStore name storeContext (Options o')
                   = useStore name storeContext (Options o)).
  { apply useStore_ext; by apply Hjs. }
  split; [|split].
  - unfold api_get, withDefaultOptions. rewrite !decide_False by done.
    fold d o' o.
    destruct (rec_get (getAtoms acc) key) as [atomConfig|]; [|done].
    simpl. f_equal. unfold useAtomValueWithStore.
    cbn [convertScopeShorthand]. rewrite (Hjs "delay" Hk4).
    rewrite (useStore_ext (rec_spread [("warnIfNoStore", VBool false)] o)
               (rec_spread [("warnIfNoStore", VBool false)] o')); [done| | |];
      apply js_get_spread_agree; auto.
  - unfold api_set, withDefaultOptions. rewrite !decide_False by done.
    fold d o' o.
    destruct (rec_get (setAtoms acc) key) as [atomConfig|]; [|done].
    simpl. f_equal. unfold useSetAtomWithStore. by rewrite Hstore.
  - unfold api_use, withDefaultOptions. rewrite !decide_False by done.
    fold d o' o.
    destruct (rec_get (useAtoms acc) key) as [atomConfig|]; [|done].
    simpl. f_equal. unfold useAtomWithStore. rewrite Hstore.
    cbn [convertScopeShorthand]. by rewrite (Hjs "delay" Hk4).
Qed.

End Surface.

Section ScopeShorthand.
Import Jotai CreateAtomProvider CreateAtomStore.

(** C10 does not hold of the per-field accessors: [withDefaultOptions]
    spreads its argument without [convertScopeShorthand], so a bare scope
    never reaches the resolver.  Under the nested Providers of the scenario,
    [get.say("abc")], [set.say("abc")] and [use.say("abc")] work on store 2,
    the nearest Provider's, where [{ scope: "abc" }] gets store 1; the
    [.atom] members and [store] get store 1 either way. *)
Theorem field_accessors_ignore_bare_scope :
  api_get "A" VUndefined Scenario.nested (accessors Scenario.store.1)
    (Options []) "say" (ScopeStr "abc")
    = Some (UseAtomValue (VObj 11) (VObj 2) VUndefined, [])
  ∧ api_get "A" VUndefined Scenario.nested (accessors Scenario.store.1)
      (Options []) "say" (Options [("scope", VStr "abc")])
    = Some (UseAtomValue (VObj 11) (VObj 1) VUndefined, [])
  ∧ api_set "A" Scenario.nested (accessors Scenario.store.1)
      (Options []) "say" (ScopeStr "abc")
    = Some (UseSetAtom (VObj 11) (VObj 2), [])
  ∧ api_set "A" Scenario.nested (accessors Scenario.store.1)
      (Options []) "say" (Options [("scope", VStr "abc")])
    = Some (UseSetAtom (VObj 11) (VObj 1), [])
  ∧ api_use "A" VUndefined Scenario.nested (accessors Scenario.store.1)
      (Options []) "say" (ScopeStr "abc")
    = Some (UseAtom (VObj 11) (VObj 2) VUndefined, [])
  ∧ api_use "A" VUndefined Scenario.nested (accessors Scenario.store.1)
      (Options []) "say" (Options [("scope", VStr "abc")])
    = Some (UseAtom (VObj 11) (VObj 1) VUndefined, [])
  ∧ api_get_atom "A" VUndefined Scenario.nested (Options []) (VObj 11)
      (ScopeStr "abc")
    = (UseAtomValue (VObj 11) (VObj 1) VUndefined, [])
  ∧ api_store "A" Scenario.nested (Options []) (ScopeStr "abc") = (VObj 1, []).
Proof. repeat split; vm_compute; reflexivity. Qed.

End ScopeShorthand.

(* ===================================================================== *)
(** * Further properties *)
(* ===================================================================== *)

Section RegistryKeys.
Import Jotai CreateAtomProvider Render.
Implicit Types (n s : string) (ms : mapheap) (r : registry).

Lemma getFullyQualifiedScope_cons c n s :
  getFullyQualifiedScope (String c n) s = String c (getFullyQualifiedScope n s).
Proof. reflexivity. Qed.

Lemma getFullyQualifiedScope_nil s :
  getFullyQualifiedScope "" s = String (Ascii.ascii_of_nat 58) s.
Proof. reflexivity. Qed.

(** The scope can be read back from the key once the name is known. *)
Lemma getFullyQualifiedScope_inj_scope n s s' :
  getFullyQualifiedScope n s = getFullyQualifiedScope n s' → s = s'.
Proof.
  induction n as [|c n IH].
  - rewrite !getFullyQualifiedScope_nil. by intros [= ->].
  - rewrite !getFullyQualifiedScope_cons. intros [= Heq]. by apply IH.
Qed.

(** X3: for store names without [:], the registry key determines the pair:
    two keys are equal only when both the store names and the scopes are. *)
Theorem getFullyQualifiedScope_inj n1 n2 s1 s2 :
  has_colon n1 = false → has_colon n2 = false →
  getFullyQualifiedScope n1 s1 = getFullyQualifiedScope n2 s2 →
  n1 = n2 ∧ s1 = s2.
Proof.
  revert n2. induction n1 as [|c1 n1 IH]; intros [|c2 n2] H1 H2.
  - rewrite !getFullyQualifiedScope_nil. by intros [= ->].
  - rewrite getFullyQualifiedScope_nil, getFullyQualifiedScope_cons.
    intros [= <- _]. simpl in H2. discriminate H2.
  - rewrite getFullyQualifiedScope_nil, getFullyQualifiedScope_cons.
    intros [= -> _]. simpl in H1. discriminate H1.
  - rewrite !getFullyQualifiedScope_cons. intros [= -> Heq].
    simpl in H1, H2. apply orb_false_iff in H1 as [_ H1].
    apply orb_false_iff in H2 as [_ H2].
    destruct (IH n2 H1 H2 Heq) as [-> ->]. done.
Qed.

Lemma getFullyQualifiedScope_inj_witness :
  has_colon "todo" = false ∧ has_colon "user" = false
  ∧ (getFullyQualifiedScope "todo" "x" = getFullyQualifiedScope "user" "x" →
     "todo" = "user" ∧ "x" = "x").
Proof.
  split; [reflexivity|]. split; [reflexivity|].
  apply (getFullyQualifiedScope_inj "todo" "user" "x" "x"); reflexivity.
Defined.

Lemma provided_entries_content storeScope scope storeState prev ms :
  map_content (provider_storeContext storeScope scope storeState prev ms).2
              (provider_storeContext storeScope scope storeState prev ms).1
  = provider_entries storeScope scope storeState (map_content ms prev).
Proof.
  rewrite provider_storeContext_spec. simpl. unfold map_content.
  by rewrite lookup_insert_eq.
Qed.

Lemma provider_entries_other_name storeScope scope storeState r n s :
  has_colon storeScope = false → has_colon n = false → n ≠ storeScope →
  provider_entries storeScope scope storeState r !! getFullyQualifiedScope n s
  = r !! getFullyQualifiedScope n s.
Proof.
  intros Hc Hn Hne. unfold provider_entries.
  rewrite lookup_insert_ne.
  2:{ intros Heq. by apply getFullyQualifiedScope_inj in Heq as [-> _]. }
  destruct scope as [sc|]; [|done]. case_decide; [done|].
  rewrite lookup_insert_ne; [done|].
  intros Heq. by apply getFullyQualifiedScope_inj in Heq as [-> _].
Qed.

(** X4: stores of different names do not see each other's Providers: below
    a Provider of store [storeScope], a store of another name resolves, and
    warns, exactly as it does above it (names without [:]). *)
Theorem other_store_resolution_unchanged storeScope scope storeState prev ms
    n requested warn :
  has_colon storeScope = false → has_colon n = false → n ≠ storeScope →
  useAtomStore
    (map_content (provider_storeContext storeScope scope storeState prev ms).2
                 (provider_storeContext storeScope scope storeState prev ms).1)
    n requested warn
  = useAtomStore (map_content ms prev) n requested warn.
Proof.
  intros Hc Hn Hne. rewrite provided_entries_content. unfold useAtomStore.
  by rewrite !provider_entries_other_name.
Qed.

Lemma other_store_resolution_unchanged_witness :
  useAtomStore
    (map_content (provider_storeContext "todo" (Some "x") 7 0
                    {[ 0 := {[ "user:provider" := 3 ]} ]}).2
                 (provider_storeContext "todo" (Some "x") 7 0
                    {[ 0 := {[ "user:provider" := 3 ]} ]}).1)
    "user" (Some "x") None
  = useAtomStore (map_content {[ 0 := {[ "user:provider" := 3 ]} ]} 0)
      "user" (Some "x") None.
Proof.
  apply (other_store_resolution_unchanged "todo" (Some "x") 7 0
           {[ 0 := {[ "user:provider" := 3 ]} ]} "user" (Some "x") None);
    [reflexivity | reflexivity | discriminate].
Defined.

(** X5: below a Provider of a store, resolving that store always succeeds
    and never warns.  The result is the Provider's store when the scope is
    left out, is ["provider"], is the Provider's own non-empty scope, or has
    no entry among the inherited ones; otherwise it is the inherited entry
    of that scope: an ancestor with an explicit scope stays reachable. *)
Theorem resolution_below_provider storeScope scope storeState prev ms
    requested warn :
  let ctx :=
    map_content (provider_storeContext storeScope scope storeState prev ms).2
                (provider_storeContext storeScope scope storeState prev ms).1 in
  (useAtomStore ctx storeScope requested warn).2 = []
  ∧ (useAtomStore ctx storeScope requested warn).1 =
      (if decide (default PROVIDER_SCOPE requested = PROVIDER_SCOPE
                  ∨ (requested = scope ∧ requested ≠ Some ""))
       then Some storeState
       else match map_content ms prev
                    !! getFullyQualifiedScope storeScope
                         (default PROVIDER_SCOPE requested) with
            | Some ancestor => Some ancestor
            | None => Some storeState
            end).
Proof.
  intros ctx. subst ctx. rewrite provided_entries_content.
  set (r := map_content ms prev).
  assert (Hprov : provider_entries storeScope scope storeState r
                    !! getFullyQualifiedScope storeScope PROVIDER_SCOPE
                  = Some storeState).
  { unfold provider_entries. by rewrite lookup_insert_eq. }
  assert (Hfst : (useAtomStore (provider_entries storeScope scope storeState r)
                    storeScope requested warn).1 =
      (if decide (default PROVIDER_SCOPE requested = PROVIDER_SCOPE
                  ∨ (requested = scope ∧ requested ≠ Some ""))
       then Some storeState
       else match r !! getFullyQualifiedScope storeScope
                         (default PROVIDER_SCOPE requested) with
            | Some ancestor => Some ancestor
            | None => Some storeState
            end)).
  { rewrite useAtomStore_store, Hprov.
    set (q := default PROVIDER_SCOPE requested).
    case_decide as Hcase.
    - destruct Hcase as [Hq|[Hreq Hne]].
      + rewrite Hq. by rewrite Hprov.
      + subst scope.
        destruct requested as [sc|]; [|by subst q; simpl; rewrite Hprov].
        simpl in q. subst q. unfold provider_entries.
        rewrite decide_False by congruence.
        destruct (decide (getFullyQualifiedScope storeScope PROVIDER_SCOPE
                          = getFullyQualifiedScope storeScope sc)) as [Heq|Hneq].
        * rewrite <- Heq. by rewrite lookup_insert_eq.
        * rewrite lookup_insert_ne by done. by rewrite lookup_insert_eq.
    - assert (Hq : q ≠ PROVIDER_SCOPE) by tauto.
      unfold provider_entries. rewrite lookup_insert_ne.
      2:{ intros Heq. by apply getFullyQualifiedScope_inj_scope in Heq. }
      destruct scope as [sc|]; [|by destruct (r !! _)].
      case_decide as Hsc; [by destruct (r !! _)|].
      rewrite lookup_insert_ne; [by destruct (r !! _)|].
      intros Heq. apply getFullyQualifiedScope_inj_scope in Heq.
      apply Hcase. right. destruct requested as [rq|]; simpl in q; subst q.
      + split; congruence.
      + done. }
  split; [|exact Hfst].
  destruct (useAtomStore (provider_entries storeScope scope storeState r)
              storeScope requested warn).1 as [found|] eqn:Hfound.
  - by eapply useAtomStore_resolved_silent.
  - rewrite Hfst in Hfound. repeat case_match; done.
Qed.

End RegistryKeys.

Section ProviderRenders.
Import Jotai UseHydrateStore CreateAtomProvider Render.
Implicit Types (atoms : record value) (props : ProviderProps)
  (hooks : option ProviderHooks) (w : World) (ss : stores) (s : loc) (a v : value).

(** A render and its commit, spelled out. *)
Lemma Provider_closed_form storeScope atoms props prev hooks w :
  Provider storeScope atoms props prev hooks w =
  (MkHooks
     (reset_effect hooks (p_resetKey props) (render_store hooks w)
        (stores_after_effects atoms props hooks w)).1
     (p_resetKey props)
     (prev, p_scope props, render_store hooks w)
     (memo_storeContext hooks storeScope (p_scope props) (render_store hooks w)
        prev (w_maps w)).1
     (sync_deps (effective_atoms atoms props) (p_fields props)
        (render_store hooks w) (from_option syncDeps ∅ hooks)),
   MkWorld
     (reset_effect hooks (p_resetKey props) (render_store hooks w)
        (stores_after_effects atoms props hooks w)).2
     (memo_storeContext hooks storeScope (p_scope props) (render_store hooks w)
        prev (w_maps w)).2).
Proof.
  unfold Provider, HydrateAtoms, useSyncStore, stores_after_effects,
    render_store, hydration_values.
  destruct (createStore (w_stores w)) as [initial ss1]. cbn [fst snd]. cbv zeta.
  repeat match goal with
         | |- context [memo_storeContext ?h ?n ?sc ?c ?pv ?ms] =>
             destruct (memo_storeContext h n sc c pv ms) as [ctx ms']
         | |- context [reset_effect ?h ?k ?c ?ss] =>
             destruct (reset_effect h k c ss) as [next ss4]
         end.
  done.
Qed.

Lemma render_store_mount w : render_store None w = (createStore (w_stores w)).1.
Proof. done. Qed.

(** The store of a render is live once [createStore()] has been evaluated,
    and on mount it is new and empty. *)
Lemma render_store_live hooks w :
  (∀ hk, hooks = Some hk → is_Some (w_stores w !! storeState hk)) →
  is_Some ((createStore (w_stores w)).2 !! render_store hooks w).
Proof.
  intros Hlive. destruct hooks as [hk|]; unfold render_store; cbn [from_option].
  - destruct (createStore_keeps (w_stores w) (storeState hk)) as [_ ->]; auto.
  - rewrite createStore_lookup. by rewrite decide_True.
Qed.

Lemma render_store_mount_empty w :
  store_of (createStore (w_stores w)).2 (render_store None w) = empty_store.
Proof.
  unfold store_of. rewrite render_store_mount, createStore_lookup.
  by rewrite decide_True.
Qed.

Lemma sync_effects_store atoms (values : object) s prev c :
  c ∈ sync_effects atoms values s prev → c.1.1 = s.
Proof.
  destruct c as [[s' a] v]. by intros (key & _ & -> & _)%sync_effects_elem.
Qed.

Lemma run_effects_other_store calls ss s :
  (∀ c, c ∈ calls → c.1.1 ≠ s) → run_effects calls ss !! s = ss !! s.
Proof.
  revert ss. unfold run_effects.
  induction calls as [|[[s0 a0] v0] calls IH]; intros ss Hne; cbn [foldl]; [done|].
  rewrite IH.
  - unfold call_setter. apply store_set_other.
    apply (Hne (s0, a0, v0)), list_elem_of_here.
  - intros c Hc. apply Hne. by apply list_elem_of_further.
Qed.

Lemma stores_after_effects_other atoms props hooks w s :
  s ≠ render_store hooks w →
  stores_after_effects atoms props hooks w !! s = (createStore (w_stores w)).2 !! s.
Proof.
  intros Hne. unfold stores_after_effects, useHydrateStore.
  rewrite run_effects_other_store.
  - by apply useHydrateAtoms_other.
  - intros c Hc%sync_effects_store. congruence.
Qed.

Lemma stores_after_effects_live atoms props hooks w s :
  is_Some ((createStore (w_stores w)).2 !! s) →
  is_Some (stores_after_effects atoms props hooks w !! s).
Proof.
  intros Hs. unfold stores_after_effects, useHydrateStore.
  by apply run_effects_is_Some, useHydrateAtoms_is_Some.
Qed.

Lemma reset_effect_keeps hooks resetKey current ss s :
  is_Some (ss !! s) → (reset_effect hooks resetKey current ss).2 !! s = ss !! s.
Proof.
  intros Hs. unfold reset_effect. repeat case_match; try done.
  by destruct (createStore_keeps ss s Hs) as [_ ->].
Qed.

(** X6: a render of a Provider, with its commit, leaves every store that
    existed before and is not the Provider's own exactly as it was: neither
    hydration nor sync nor the reset effect ever writes to another store. *)
Theorem Provider_leaves_other_stores storeScope atoms props prev hooks w s :
  is_Some (w_stores w !! s) →
  (∀ hk, hooks = Some hk → s ≠ storeState hk) →
  w_stores (Provider storeScope atoms props prev hooks w).2 !! s = w_stores w !! s.
Proof.
  intros Hs Hother. rewrite Provider_closed_form. cbn [snd w_stores].
  destruct (createStore_keeps (w_stores w) s Hs) as [Hfresh Hkeep].
  assert (Hne : s ≠ render_store hooks w).
  { destruct hooks as [hk|]; unfold render_store; cbn [from_option]; [by apply Hother|].
    congruence. }
  rewrite reset_effect_keeps.
  - by rewrite stores_after_effects_other.
  - rewrite stores_after_effects_other by done. by rewrite Hkeep.
Qed.

Lemma Provider_leaves_other_stores_witness :
  w_stores Scenario.after_reset.2 !! 0 = w_stores Scenario.after_write !! 0.
Proof.
  apply (Provider_leaves_other_stores "A" Scenario.atoms (Scenario.props (VNum 2))
           0 (Some Scenario.mounted.1) Scenario.after_write 0).
  - apply (bool_decide_unpack _). vm_compute. exact I.
  - intros hk [= <-]. vm_compute. discriminate.
Defined.

(** What the first render on a new, empty store leaves in the cell of a
    field: every sync effect is due, so a prop that is not a sentinel is
    written over what hydration seeded. *)
Lemma first_cell atoms (fields merged : object) s prev ss key a :
  NoDup (rec_keys atoms) → NoDup atoms.*2 → rec_get atoms key = Some a →
  store_of ss s = empty_store →
  effect_due atoms fields s prev key →
  cell (run_effects (sync_effects atoms fields s prev)
          (useHydrateStore atoms merged s ss)) s a
  = seeded fields merged key.
Proof.
  intros Hk Ha Hget Hempty Hdue. unfold seeded.
  pose proof (useSyncStore_cell atoms fields s prev
                (useHydrateStore atoms merged s ss) key a Hk Ha Hget) as Hsync.
  unfold useSyncStore in Hsync. cbn [snd] in Hsync. rewrite Hsync. clear Hsync.
  destruct (decide (js_get fields key ≠ VUndefined ∧ js_get fields key ≠ VNull))
    as [Hv|Hv].
  { rewrite decide_True; [done | by split]. }
  rewrite decide_False by (intros [_ ?]; by apply Hv).
  destruct (decide (js_get merged key = VUndefined)) as [Hu|Hd].
  - assert (Hnot : a ∉ (hydrate_values atoms merged).*1).
    { intros Hlisted. apply list_elem_of_fmap in Hlisted as ([a' v] & Heq & Hpair).
      simpl in Heq. subst a'.
      apply hydrate_values_elem in Hpair as (key' & Hkey' & Hget' & Hv' & Hd).
      destruct (rec_get_is_Some atoms key' Hkey') as [a'' Hget''].
      rewrite (js_get_Some _ _ _ Hget'') in Hget'. subst a''.
      assert (key = key') by (by eapply rec_get_inj). subst key'. congruence. }
    unfold useHydrateStore.
    destruct (useHydrateAtoms_not_listed _ ss s a Hnot) as [Hc _].
    rewrite Hc. unfold cell. by rewrite Hempty.
  - unfold useHydrateStore. apply useHydrateAtoms_seeds.
    + by apply hydrate_values_NoDup.
    + apply hydrate_values_elem. exists key.
      split; [by eapply rec_get_Some_keys|]. split; [by apply js_get_Some | done].
    + rewrite Hempty. apply not_elem_of_empty.
Qed.

Lemma first_render_cell atoms props s prev ss key a :
  NoDup (rec_keys atoms) → NoDup atoms.*2 → rec_get atoms key = Some a →
  store_of ss s = empty_store →
  effect_due atoms (p_fields props) s prev key →
  cell (run_effects (sync_effects atoms (p_fields props) s prev)
          (useHydrateStore atoms (hydration_values props) s ss)) s a
  = seeded_value props key.
Proof. apply first_cell. Qed.

Lemma provided_registry_recomputed storeScope atoms props prev hooks w :
  (∀ hk, hooks = Some hk →
         memoDeps hk ≠ (prev, p_scope props, render_store hooks w)) →
  provided_registry (Provider storeScope atoms props prev hooks w)
  = provider_entries storeScope (p_scope props) (render_store hooks w)
      (map_content (w_maps w) prev).
Proof.
  intros Hdeps. unfold provided_registry. rewrite Provider_closed_form.
  cbn [fst snd w_maps storeContext].
  assert (Hmemo : memo_storeContext hooks storeScope (p_scope props)
                    (render_store hooks w) prev (w_maps w)
                  = provider_storeContext storeScope (p_scope props)
                      (render_store hooks w) prev (w_maps w)).
  { destruct hooks as [hk|]; [|done]. unfold memo_storeContext.
    rewrite decide_False; [done | by apply Hdeps]. }
  rewrite Hmemo. apply provided_entries_content.
Qed.

Lemma provider_entries_default storeScope scope storeState r warn :
  useAtomStore (provider_entries storeScope scope storeState r) storeScope None warn
  = (Some storeState, []).
Proof.
  unfold useAtomStore, provider_entries. simpl. by rewrite lookup_insert_eq.
Qed.

(** X7: mounting a Provider whose [resetKey] is falsy (not given, say).  The
    store it keeps is one that did not exist before, and the context handed
    to the subtree resolves the store's name to that store, silently.  The
    fields are those of the record [HydrateAtoms] receives (the Provider's
    atoms, or the value of a prop named [atoms]); when no two of them share
    an atom, the cell of each field holds the field's prop, read as
    JavaScript reads it, when that is neither [undefined] nor [null], else
    the entry of [{ ...initialValues, ...props }] when that is defined, and
    is otherwise unwritten. *)
Theorem Provider_mount storeScope atoms props prev w warn :
  truthy (p_resetKey props) = false →
  let r := Provider storeScope atoms props prev None w in
  w_stores w !! storeState r.1 = None
  ∧ is_Some (w_stores r.2 !! storeState r.1)
  ∧ (NoDup (rec_keys (effective_atoms atoms props)) →
     NoDup (effective_atoms atoms props).*2 →
     ∀ key a, rec_get (effective_atoms atoms props) key = Some a →
       cell (w_stores r.2) (storeState r.1) a = seeded_value props key)
  ∧ useAtomStore (provided_registry r) storeScope None warn
    = (Some (storeState r.1), []).
Proof.
  intros Hfalsy r.
  assert (Hreg : provided_registry r
                 = provider_entries storeScope (p_scope props) (render_store None w)
                     (map_content (w_maps w) prev)).
  { apply provided_registry_recomputed. by intros hk [=]. }
  subst r. rewrite Hreg. rewrite Provider_closed_form. cbn [fst snd storeState w_stores].
  rewrite reset_effect_falsy by done. cbn [fst snd].
  split; [apply createStore_fresh|]. split.
  { apply stores_after_effects_live, render_store_live. by intros hk [=]. }
  split; [|apply provider_entries_default].
  intros Hk Ha key a Hget. unfold stores_after_effects.
  apply first_render_cell; [done | done | done | apply render_store_mount_empty |].
  unfold effect_due. cbn [from_option]. by rewrite lookup_empty.
Qed.

Lemma Provider_mount_witness :
  cell (w_stores (Provider "A" Scenario.atoms (Scenario.props VUndefined) 0 None
                    Scenario.root).2)
       (storeState (Provider "A" Scenario.atoms (Scenario.props VUndefined) 0 None
                      Scenario.root).1)
       (VObj 10) = Some (VNum 1)
  ∧ useAtomStore
      (provided_registry (Provider "A" Scenario.atoms (Scenario.props VUndefined)
                            0 None Scenario.root)) "A" None None
    = (Some (storeState (Provider "A" Scenario.atoms (Scenario.props VUndefined)
                           0 None Scenario.root).1), []).
Proof.
  assert (Hk : NoDup (rec_keys Scenario.atoms))
    by (apply (bool_decide_unpack _); vm_compute; exact I).
  assert (Ha : NoDup Scenario.atoms.*2)
    by (apply (bool_decide_unpack _); vm_compute; exact I).
  destruct (Provider_mount "A" Scenario.atoms (Scenario.props VUndefined) 0
              Scenario.root None eq_refl) as (_ & _ & Hcell & Hres).
  split; [exact (Hcell Hk Ha "count" (VObj 10) eq_refl) | exact Hres].
Defined.

End ProviderRenders.

Section ProviderLifecycle.
Import Jotai UseHydrateStore CreateAtomProvider Render.
Implicit Types (atoms : record value) (props : ProviderProps)
  (hooks : option ProviderHooks) (w : World) (ss : stores) (s : loc) (a v : value).

Lemma reset_effect_mount_truthy resetKey current ss :
  truthy resetKey = true → reset_effect None resetKey current ss = createStore ss.
Proof. intros Ht. unfold reset_effect. simpl. by rewrite Ht. Qed.

Lemma reset_effect_not_fired hooks resetKey current ss :
  truthy resetKey = false ∨ (∃ hk, hooks = Some hk ∧ resetDeps hk = resetKey) →
  reset_effect hooks resetKey current ss = (current, ss).
Proof.
  intros [Hf|(hk & -> & <-)]; [by apply reset_effect_falsy | apply reset_effect_same].
Qed.

Lemma store_of_live_createStore ss s :
  is_Some (ss !! s) → store_of (createStore ss).2 s = store_of ss s.
Proof.
  intros Hs. unfold store_of. by destruct (createStore_keeps ss s Hs) as [_ ->].
Qed.

(** X8: mounting a Provider with a truthy [resetKey].  The effect runs after
    the first render too, so the store that render hydrated, and handed to
    the subtree, is replaced at once by a new, empty one; the render this
    triggers hands the new store to the subtree and seeds it: when no two
    fields of the record [HydrateAtoms] receives share an atom, each cell
    holds what a mount without [resetKey] leaves in it. *)
Theorem Provider_mount_truthy_key storeScope atoms props prev w warn :
  truthy (p_resetKey props) = true →
  let r1 := Provider storeScope atoms props prev None w in
  let r2 := Provider storeScope atoms props prev (Some r1.1) r1.2 in
  storeState r1.1 ≠ render_store None w
  ∧ useAtomStore (provided_registry r1) storeScope None warn
    = (Some (render_store None w), [])
  ∧ w_stores r1.2 !! storeState r1.1 = Some empty_store
  ∧ storeState r2.1 = storeState r1.1
  ∧ useAtomStore (provided_registry r2) storeScope None warn
    = (Some (storeState r1.1), [])
  ∧ (NoDup (rec_keys (effective_atoms atoms props)) →
     NoDup (effective_atoms atoms props).*2 →
     ∀ key a, rec_get (effective_atoms atoms props) key = Some a →
       cell (w_stores r2.2) (storeState r2.1) a = seeded_value props key).
Proof.
  intros Htruthy r1 r2.
  assert (Hreg1 : provided_registry r1
                  = provider_entries storeScope (p_scope props) (render_store None w)
                      (map_content (w_maps w) prev)).
  { apply provided_registry_recomputed. by intros hk [=]. }
  set (ss3 := stores_after_effects atoms props None w).
  assert (Hr1 : r1 = (MkHooks (createStore ss3).1 (p_resetKey props)
                        (prev, p_scope props, render_store None w)
                        (storeContext r1.1)
                        (sync_deps (effective_atoms atoms props) (p_fields props)
                           (render_store None w) ∅),
                      MkWorld (createStore ss3).2 (w_maps r1.2))).
  { subst r1. rewrite Provider_closed_form.
    rewrite reset_effect_mount_truthy by done. done. }
  assert (Hlive : is_Some (ss3 !! render_store None w)).
  { apply stores_after_effects_live, render_store_live. by intros hk [=]. }
  assert (Hne : (createStore ss3).1 ≠ render_store None w)
    by (by destruct (createStore_keeps ss3 _ Hlive)).
  assert (Hst1 : storeState r1.1 = (createStore ss3).1) by (by rewrite Hr1).
  assert (Hw1 : w_stores r1.2 = (createStore ss3).2) by (by rewrite Hr1).
  assert (Hempty : w_stores r1.2 !! storeState r1.1 = Some empty_store).
  { rewrite Hw1, Hst1, createStore_lookup. by rewrite decide_True. }
  assert (Hcur2 : render_store (Some r1.1) r1.2 = storeState r1.1) by done.
  assert (Hreg2 : provided_registry r2
                  = provider_entries storeScope (p_scope props) (storeState r1.1)
                      (map_content (w_maps r1.2) prev)).
  { subst r2. rewrite provided_registry_recomputed; [done|].
    intros hk [= <-]. rewrite Hcur2. rewrite Hr1 at 1. cbn [fst memoDeps].
    rewrite Hst1. intros [= Heq]. by symmetry in Heq. }
  assert (Hr2 : storeState r2.1 = storeState r1.1
                ∧ w_stores r2.2 = stores_after_effects atoms props (Some r1.1) r1.2).
  { subst r2. rewrite Provider_closed_form. cbn [fst snd storeState w_stores].
    rewrite reset_effect_not_fired; [done|].
    right. exists r1.1. split; [done|]. by rewrite Hr1. }
  destruct Hr2 as [Hst2 Hw2].
  split; [by rewrite Hst1|]. split; [rewrite Hreg1; apply provider_entries_default|].
  split; [done|]. split; [done|].
  split; [rewrite Hreg2; apply provider_entries_default|].
  intros Hk Ha key a Hget. rewrite Hw2, Hst2. unfold stores_after_effects.
  rewrite Hcur2. cbn [from_option].
  apply first_render_cell; [done | done | done | |].
  - rewrite store_of_live_createStore by (by rewrite Hempty).
    unfold store_of. by rewrite Hempty.
  - unfold effect_due. rewrite Hr1 at 1. cbn [fst syncDeps].
    rewrite sync_deps_lookup, decide_True by (by eapply rec_get_Some_keys).
    unfold useSetAtom. rewrite Hst1. intros [= Heq]. by symmetry in Heq.
Qed.

Lemma Provider_mount_truthy_key_witness :
  storeState (Provider "A" Scenario.atoms (Scenario.props (VBool true)) 0 None
                Scenario.root).1
    ≠ render_store None Scenario.root
  ∧ cell (w_stores Scenario.mounted.2) (storeState Scenario.mounted.1) (VObj 10)
    = Some (VNum 1).
Proof.
  assert (Hk : NoDup (rec_keys Scenario.atoms))
    by (apply (bool_decide_unpack _); vm_compute; exact I).
  assert (Ha : NoDup Scenario.atoms.*2)
    by (apply (bool_decide_unpack _); vm_compute; exact I).
  destruct (Provider_mount_truthy_key "A" Scenario.atoms (Scenario.props (VBool true))
              0 Scenario.root None eq_refl) as (Hne & _ & _ & _ & _ & Hcell).
  split; [exact Hne | exact (Hcell Hk Ha "count" (VObj 10) eq_refl)].
Defined.

(** Hydration marks every atom it is given, seeded now or before. *)
Lemma useHydrateAtoms_marks (values : list (value * value)) ss s a :
  a ∈ values.*1 → a ∈ hydrated (store_of (useHydrateAtoms values s ss) s).
Proof.
  revert ss. induction values as [|[a0 v0] values IH]; intros ss Hin.
  { by apply elem_of_nil in Hin. }
  change (useHydrateAtoms ((a0, v0) :: values) s ss)
    with (useHydrateAtoms values s (hydrate_atom s ss (a0, v0))).
  simpl in Hin. apply elem_of_cons in Hin as [->|Hin]; [|by apply IH].
  apply useHydrateAtoms_already. rewrite hydrate_atom_hydrated. set_solver.
Qed.

(** Hydrating atoms that are all marked already changes nothing. *)
Lemma useHydrateAtoms_noop (values : list (value * value)) ss s :
  (∀ a, a ∈ values.*1 → a ∈ hydrated (store_of ss s)) →
  useHydrateAtoms values s ss = ss.
Proof.
  unfold useHydrateAtoms. induction values as [|[a0 v0] values IH]; intros Hall;
    cbn [foldl]; [done|].
  assert (Hstep : hydrate_atom s ss (a0, v0) = ss).
  { unfold hydrate_atom. rewrite decide_True; [done|].
    apply Hall. simpl. apply list_elem_of_here. }
  rewrite Hstep. apply IH. intros a Hin. apply Hall. simpl.
  by apply list_elem_of_further.
Qed.

(** No sync effect is due against the dependencies the same render left. *)
Lemma sync_effects_settled atoms (values : object) s prev :
  sync_effects atoms values s (sync_deps atoms values s prev) = [].
Proof.
  unfold sync_effects.
  assert (Hall : ∀ key, key ∈ rec_keys atoms →
            sync_field atoms values s (sync_deps atoms values s prev) key = []).
  { intros key Hkey. unfold sync_field.
    rewrite sync_deps_lookup.
    rewrite (decide_True (P := key ∈ rec_keys atoms)) by done.
    by rewrite decide_True. }
  revert Hall. generalize (sync_deps atoms values s prev) as deps.
  generalize (rec_keys atoms) as keys.
  induction keys as [|k keys IH]; intros deps Hall; simpl; [done|].
  rewrite Hall by apply list_elem_of_here. simpl. apply IH.
  intros key Hkey. apply Hall. by apply list_elem_of_further.
Qed.

(** X9: rendering a Provider again with the same props, below the same
    inherited context, when its effect has not replaced the store, changes
    nothing that exists: the store state and the context [Map] handed to the
    subtree are the same objects, no [Map] is created or changed, and every
    store, the Provider's own included, keeps its cells, whatever its
    descendants have written in between. *)
Theorem Provider_rerender_keeps_cells storeScope atoms props prev hooks w calls :
  (∀ hk, hooks = Some hk → is_Some (w_stores w !! storeState hk)) →
  truthy (p_resetKey props) = false
    ∨ (∃ hk, hooks = Some hk ∧ resetDeps hk = p_resetKey props) →
  let r1 := Provider storeScope atoms props prev hooks w in
  let w1 := descendant_writes calls r1.2 in
  let r2 := Provider storeScope atoms props prev (Some r1.1) w1 in
  storeState r2.1 = storeState r1.1
  ∧ storeContext r2.1 = storeContext r1.1
  ∧ w_maps r2.2 = w_maps r1.2
  ∧ (∀ s, is_Some (w_stores w1 !! s) → w_stores r2.2 !! s = w_stores w1 !! s).
Proof.
  intros Hlive Hquiet r1 w1 r2.
  set (cur := render_store hooks w).
  set (ss3 := stores_after_effects atoms props hooks w).
  assert (Hr1 : r1 = (MkHooks cur (p_resetKey props) (prev, p_scope props, cur)
                        (storeContext r1.1)
                        (sync_deps (effective_atoms atoms props) (p_fields props)
                           cur (from_option syncDeps ∅ hooks)),
                      MkWorld ss3 (w_maps r1.2))).
  { subst r1. rewrite Provider_closed_form.
    rewrite reset_effect_not_fired by done. done. }
  assert (Hcur2 : render_store (Some r1.1) w1 = cur) by (by rewrite Hr1).
  assert (Hw1 : w_stores w1 = run_effects calls ss3).
  { subst w1. unfold descendant_writes. by rewrite Hr1. }
  assert (Hlive3 : is_Some (ss3 !! cur))
    by (by apply stores_after_effects_live, render_store_live).
  assert (Hlive1 : is_Some (w_stores w1 !! cur))
    by (rewrite Hw1; by apply run_effects_is_Some).
  assert (Hafter : stores_after_effects atoms props (Some r1.1) w1
                   = (createStore (w_stores w1)).2).
  { unfold stores_after_effects. rewrite Hcur2. cbn [from_option].
    replace (syncDeps r1.1)
      with (sync_deps (effective_atoms atoms props) (p_fields props) cur
              (from_option syncDeps ∅ hooks))
      by (by rewrite Hr1).
    rewrite sync_effects_settled. unfold run_effects at 1. cbn [foldl].
    unfold useHydrateStore. apply useHydrateAtoms_noop. intros a Hin.
    rewrite store_of_live_createStore by done.
    rewrite Hw1, run_effects_hydrated. unfold ss3, stores_after_effects.
    rewrite run_effects_hydrated. fold cur. unfold useHydrateStore.
    by apply useHydrateAtoms_marks. }
  assert (Hr2 : r2 = (MkHooks cur (p_resetKey props) (prev, p_scope props, cur)
                        (storeContext r1.1)
                        (syncDeps r2.1),
                      MkWorld (createStore (w_stores w1)).2 (w_maps r1.2))).
  { subst r2. rewrite Provider_closed_form. rewrite Hcur2, Hafter.
    rewrite reset_effect_not_fired
      by (right; exists r1.1; split; [done | by rewrite Hr1]).
    unfold memo_storeContext. rewrite decide_True by (by rewrite Hr1).
    done. }
  rewrite Hr2. cbn [fst snd storeState storeContext w_maps w_stores].
  split; [by rewrite Hr1|]. split; [done|]. split; [done|].
  intros s Hs. by destruct (createStore_keeps (w_stores w1) s Hs) as [_ ->].
Qed.

Lemma Provider_rerender_keeps_cells_witness :
  cell (w_stores (Provider "A" Scenario.atoms (Scenario.props (VBool true)) 0
                    (Some Scenario.mounted.1) Scenario.after_write).2)
       (storeState Scenario.mounted.1) (VObj 10)
  = Some (VNum 5).
Proof.
  assert (Hlive : ∀ hk, Some (Provider "A" Scenario.atoms (Scenario.props (VBool true))
                                0 None Scenario.root).1 = Some hk →
                        is_Some (w_stores (Provider "A" Scenario.atoms
                                   (Scenario.props (VBool true)) 0 None
                                   Scenario.root).2 !! storeState hk)).
  { intros hk [= <-]. apply (bool_decide_unpack _). vm_compute. exact I. }
  destruct (Provider_rerender_keeps_cells "A" Scenario.atoms
              (Scenario.props (VBool true)) 0
              (Some (Provider "A" Scenario.atoms (Scenario.props (VBool true)) 0
                       None Scenario.root).1)
              (Provider "A" Scenario.atoms (Scenario.props (VBool true)) 0
                 None Scenario.root).2
              [((storeState Scenario.mounted.1, VObj 10), VNum 5)]
              Hlive
              (or_intror (ex_intro _ _ (conj eq_refl eq_refl))))
    as (_ & _ & _ & Hkeep).
  refine (eq_trans
            (f_equal (λ o, written (default empty_store o) !! VObj 10)
               (Hkeep (storeState Scenario.mounted.1) _)) _).
  - apply (bool_decide_unpack _). vm_compute. exact I.
  - vm_compute. reflexivity.
Defined.

End ProviderLifecycle.

Section HydrationOrder.
Import Jotai UseHydrateStore CreateAtomProvider Render.
Implicit Types (atoms : record value) (ss : stores) (s : loc) (a v : value)
  (key : string).

Lemma hydrate_values_listed atoms (iv : object) key a :
  NoDup (rec_keys atoms) → NoDup atoms.*2 → rec_get atoms key = Some a →
  (a ∈ (hydrate_values atoms iv).*1 ↔ js_get iv key ≠ VUndefined).
Proof.
  intros Hk Ha Hget. split.
  - intros Hin. apply list_elem_of_fmap in Hin as ([a' v] & Heq & Hpair).
    simpl in Heq. subst a'.
    apply hydrate_values_elem in Hpair as (key' & Hkey' & Hget' & Hv & Hd).
    destruct (rec_get_is_Some atoms key' Hkey') as [a'' Hget''].
    rewrite (js_get_Some _ _ _ Hget'') in Hget'. subst a''.
    assert (key = key') by (by eapply rec_get_inj). subst key'. congruence.
  - intros Hd. apply list_elem_of_fmap. exists (a, js_get iv key). split; [done|].
    apply hydrate_values_elem. exists key.
    split; [by eapply rec_get_Some_keys|]. split; [by apply js_get_Some | done].
Qed.

(** What one hydration leaves in the cell of a field, whatever the store. *)
Lemma useHydrateStore_cell atoms (iv : object) s ss key a :
  NoDup (rec_keys atoms) → NoDup atoms.*2 → rec_get atoms key = Some a →
  cell (useHydrateStore atoms iv s ss) s a
  = (if decide (js_get iv key ≠ VUndefined ∧ a ∉ hydrated (store_of ss s))
     then Some (js_get iv key) else cell ss s a)
  ∧ (a ∈ hydrated (store_of (useHydrateStore atoms iv s ss) s)
     ↔ js_get iv key ≠ VUndefined ∨ a ∈ hydrated (store_of ss s)).
Proof.
  intros Hk Ha Hget. unfold useHydrateStore.
  pose proof (hydrate_values_listed atoms iv key a Hk Ha Hget) as Hlisted.
  destruct (decide (a ∈ hydrated (store_of ss s))) as [Hold|Hnew].
  - destruct (useHydrateAtoms_already (hydrate_values atoms iv) ss s a Hold)
      as [Hc Hh].
    rewrite Hc. split; [|tauto]. rewrite decide_False; [done | tauto].
  - destruct (decide (js_get iv key ≠ VUndefined)) as [Hd|Hu].
    + destruct (useHydrateAtoms_seeds (hydrate_values atoms iv) ss s a
                  (js_get iv key)) as [Hc Hh]; [by apply hydrate_values_NoDup | | done |].
      { apply hydrate_values_elem. exists key.
        split; [by eapply rec_get_Some_keys|]. split; [by apply js_get_Some | done]. }
      rewrite Hc. split; [|tauto]. by rewrite decide_True.
    + destruct (useHydrateAtoms_not_listed (hydrate_values atoms iv) ss s a)
        as [Hc Hh]; [tauto|].
      rewrite Hc, Hh. split; [|tauto]. rewrite decide_False; [done | tauto].
Qed.

(** X10: hydration is once per field and store, not once per store.  Of two
    hydrations of the same store with fields that have pairwise distinct
    atoms, the first defined entry of a field wins: a field not hydrated
    before whose entry reads [undefined] the first time is seeded by the
    second; a field hydrated before or seeded the first time keeps what it
    holds, also when it has been set to something else in between. *)
Theorem useHydrateStore_first_defined_wins atoms (iv1 iv2 : object) s ss key a v :
  NoDup (rec_keys atoms) → NoDup atoms.*2 → rec_get atoms key = Some a →
  cell (useHydrateStore atoms iv2 s (useHydrateStore atoms iv1 s ss)) s a
  = (if decide (a ∈ hydrated (store_of ss s)) then cell ss s a
     else if decide (js_get iv1 key ≠ VUndefined) then Some (js_get iv1 key)
     else if decide (js_get iv2 key ≠ VUndefined) then Some (js_get iv2 key)
     else cell ss s a)
  ∧ (js_get iv1 key ≠ VUndefined ∨ a ∈ hydrated (store_of ss s) →
     cell (useHydrateStore atoms iv2 s
             (store_set s a v (useHydrateStore atoms iv1 s ss))) s a
     = Some v).
Proof.
  intros Hk Ha Hget.
  destruct (useHydrateStore_cell atoms iv1 s ss key a Hk Ha Hget) as [Hc1 Hh1].
  split.
  - destruct (useHydrateStore_cell atoms iv2 s (useHydrateStore atoms iv1 s ss)
                key a Hk Ha Hget) as [Hc2 _].
    rewrite Hc2, Hc1. clear Hc2 Hc1.
    destruct (decide (a ∈ hydrated (store_of ss s))) as [Hold|Hnew].
    { rewrite decide_False by (rewrite Hh1; tauto).
      rewrite decide_False; [done | tauto]. }
    destruct (decide (js_get iv1 key ≠ VUndefined)) as [Hd1|Hu1].
    + rewrite decide_False by (rewrite Hh1; tauto). by rewrite decide_True.
    + rewrite (decide_False (P := js_get iv1 key ≠ VUndefined ∧ _)) by tauto.
      destruct (decide (js_get iv2 key ≠ VUndefined)) as [Hd2|Hu2].
      * rewrite decide_True; [done|]. split; [done|]. rewrite Hh1. tauto.
      * rewrite decide_False; [done | tauto].
  - intros Hd1.
    destruct (useHydrateStore_cell atoms iv2 s
                (store_set s a v (useHydrateStore atoms iv1 s ss)) key a Hk Ha Hget)
      as [Hc2 _].
    rewrite Hc2. rewrite decide_False.
    + rewrite cell_store_set. by rewrite decide_True.
    + rewrite hydrated_store_set, Hh1. tauto.
Qed.

Lemma useHydrateStore_first_defined_wins_witness :
  cell (useHydrateStore [("count", VObj 10); ("say", VObj 11)]
          [("count", VNum 2); ("say", VStr "late")] 0
          (useHydrateStore [("count", VObj 10); ("say", VObj 11)]
             [("count", VNum 1)] 0 ∅)) 0 (VObj 11)
  = Some (VStr "late")
  ∧ cell (useHydrateStore [("count", VObj 10); ("say", VObj 11)]
            [("count", VNum 2); ("say", VStr "late")] 0
            (useHydrateStore [("count", VObj 10); ("say", VObj 11)]
               [("count", VNum 1)] 0 ∅)) 0 (VObj 10)
    = Some (VNum 1).
Proof.
  assert (Hk : NoDup (rec_keys [("count", VObj 10); ("say", VObj 11)]))
    by (apply (bool_decide_unpack _); vm_compute; exact I).
  assert (Ha : NoDup [("count", VObj 10); ("say", VObj 11)].*2)
    by (apply (bool_decide_unpack _); vm_compute; exact I).
  split.
  - exact (proj1 (useHydrateStore_first_defined_wins
                    [("count", VObj 10); ("say", VObj 11)] [("count", VNum 1)]
                    [("count", VNum 2); ("say", VStr "late")] 0 ∅ "say" (VObj 11)
                    VNull Hk Ha eq_refl)).
  - exact (proj1 (useHydrateStore_first_defined_wins
                    [("count", VObj 10); ("say", VObj 11)] [("count", VNum 1)]
                    [("count", VNum 2); ("say", VStr "late")] 0 ∅ "count" (VObj 10)
                    VNull Hk Ha eq_refl)).
Defined.

(** Every member of [Object.prototype] reads a function or an object. *)
Lemma inherited_member key :
  key ∈ rec_keys Object_prototype →
  inherited key ≠ VUndefined ∧ inherited key ≠ VNull.
Proof.
  intros Hin. unfold Object_prototype in Hin. cbn [rec_keys fmap list_fmap fst] in Hin.
  repeat (apply elem_of_cons in Hin as [->|Hin]; [by vm_compute|]).
  by apply elem_of_nil in Hin.
Qed.

(** X11: what [HydrateAtoms] leaves in the cell of a field on a new store,
    for fields with pairwise distinct atoms.  A per-field prop masks the
    [initialValues] entry of the same key, also when the prop is a
    sentinel: a prop given as [null] seeds the cell with [null]; a prop
    given as [undefined] leaves the field unseeded, whatever
    [initialValues] says.  A field without a prop is seeded from
    [initialValues], unless it is named like a member of
    [Object.prototype]: then [props[key]] reads the inherited member, and
    sync writes that into the cell, whatever [initialValues] says. *)
Theorem HydrateAtoms_prop_masks_initial_value (iv : option object) (fields : object)
    s atoms ss key a :
  NoDup (rec_keys atoms) → NoDup atoms.*2 → NoDup (rec_keys fields) →
  rec_get atoms key = Some a → store_of ss s = empty_store →
  (rec_get fields key = Some VNull →
     cell (HydrateAtoms iv fields s atoms ∅ ss).2 s a = Some VNull)
  ∧ (rec_get fields key = Some VUndefined →
     cell (HydrateAtoms iv fields s atoms ∅ ss).2 s a = None)
  ∧ (rec_get fields key = None → key ∉ rec_keys Object_prototype →
     cell (HydrateAtoms iv fields s atoms ∅ ss).2 s a
     = (if decide (js_get (default [] iv) key = VUndefined) then None
        else Some (js_get (default [] iv) key)))
  ∧ (rec_get fields key = None → key ∈ rec_keys Object_prototype →
     cell (HydrateAtoms iv fields s atoms ∅ ss).2 s a = Some (inherited key)).
Proof.
  intros Hk Ha Hf Hget Hempty.
  assert (Hcell : cell (HydrateAtoms iv fields s atoms ∅ ss).2 s a
                  = seeded fields (rec_spread (default [] iv) fields) key).
  { unfold HydrateAtoms, useSyncStore. cbn [snd].
    apply (first_cell atoms fields _ s ∅ ss key a Hk Ha Hget Hempty).
    unfold effect_due. by rewrite lookup_empty. }
  rewrite Hcell. unfold seeded.
  assert (Hmerged : js_get (rec_spread (default [] iv) fields) key
                    = match rec_get fields key with
                      | Some x => x
                      | None => js_get (default [] iv) key
                      end).
  { unfold js_get. rewrite rec_get_spread by done. by destruct (rec_get fields key). }
  rewrite Hmerged.
  assert (Hown : js_get fields key = default (inherited key) (rec_get fields key))
    by done.
  split; [|split; [|split]]; intros Hprop; rewrite Hprop in Hown; cbn [default] in Hown;
    rewrite Hown, Hprop.
  - rewrite decide_False by (intros [_ ?]; done). by rewrite decide_False.
  - rewrite decide_False by (intros [? _]; done). by rewrite decide_True.
  - intros Hproto.
    assert (Hinh : inherited key = VUndefined).
    { unfold inherited. apply rec_get_None_keys in Hproto. by rewrite Hproto. }
    rewrite Hinh. rewrite decide_False by (intros [? _]; done). done.
  - intros Hproto. destruct (inherited_member key Hproto) as [Hu Hn].
    by rewrite decide_True.
Qed.

Lemma HydrateAtoms_prop_masks_initial_value_witness :
  cell (HydrateAtoms (Some [("count", VNum 1)]) [("count", VNull)] 0
          [("count", VObj 10)] ∅ ∅).2 0 (VObj 10) = Some VNull
  ∧ cell (HydrateAtoms (Some [("count", VNum 1)]) [("count", VUndefined)] 0
            [("count", VObj 10)] ∅ ∅).2 0 (VObj 10) = None
  ∧ cell (HydrateAtoms (Some [("count", VNum 1)]) [] 0
            [("count", VObj 10)] ∅ ∅).2 0 (VObj 10) = Some (VNum 1)
  ∧ cell (HydrateAtoms (Some [("valueOf", VNum 1)]) [] 0
            [("valueOf", VObj 10)] ∅ ∅).2 0 (VObj 10) = Some (VFun 909).
Proof.
  assert (Hk : NoDup (rec_keys [("count", VObj 10)]))
    by (apply (bool_decide_unpack _); vm_compute; exact I).
  assert (Ha : NoDup [("count", VObj 10)].*2)
    by (apply (bool_decide_unpack _); vm_compute; exact I).
  assert (Hk' : NoDup (rec_keys [("valueOf", VObj 10)]))
    by (apply (bool_decide_unpack _); vm_compute; exact I).
  assert (Ha' : NoDup [("valueOf", VObj 10)].*2)
    by (apply (bool_decide_unpack _); vm_compute; exact I).
  assert (Hf1 : NoDup (rec_keys [("count", VNull)]))
    by (apply (bool_decide_unpack _); vm_compute; exact I).
  assert (Hf2 : NoDup (rec_keys [("count", VUndefined)]))
    by (apply (bool_decide_unpack _); vm_compute; exact I).
  assert (Hf3 : NoDup (rec_keys ([] : object))) by apply NoDup_nil_2.
  assert (He : store_of (∅ : stores) 0 = empty_store) by reflexivity.
  split; [|split; [|split]].
  - apply (proj1 (HydrateAtoms_prop_masks_initial_value (Some [("count", VNum 1)])
                    [("count", VNull)] 0 [("count", VObj 10)] ∅ "count" (VObj 10)
                    Hk Ha Hf1 eq_refl He)). reflexivity.
  - apply (proj1 (proj2 (HydrateAtoms_prop_masks_initial_value
                    (Some [("count", VNum 1)]) [("count", VUndefined)] 0
                    [("count", VObj 10)] ∅ "count" (VObj 10)
                    Hk Ha Hf2 eq_refl He))). reflexivity.
  - refine (proj1 (proj2 (proj2 (HydrateAtoms_prop_masks_initial_value
                    (Some [("count", VNum 1)]) [] 0
                    [("count", VObj 10)] ∅ "count" (VObj 10)
                    Hk Ha Hf3 eq_refl He))) eq_refl _).
    apply (bool_decide_unpack _). vm_compute. exact I.
  - refine (proj2 (proj2 (proj2 (HydrateAtoms_prop_masks_initial_value
                    (Some [("valueOf", VNum 1)]) [] 0
                    [("valueOf", VObj 10)] ∅ "valueOf" (VObj 10)
                    Hk' Ha' Hf3 eq_refl He))) eq_refl _).
    apply (bool_decide_unpack _). vm_compute. exact I.
Defined.

End HydrationOrder.

Section HeapGrowth.
Import Jotai AtomWithFn CreateAtomStore Factory.
Implicit Types (h : heap) (v a : value) (l : loc).

Lemma extends_refl h : extends h h.
Proof. by intros l _. Qed.

Lemma extends_trans h1 h2 h3 : extends h1 h2 → extends h2 h3 → extends h1 h3.
Proof.
  intros H12 H23 l Hl. rewrite H23; [by apply H12|]. by rewrite H12.
Qed.

Lemma extends_live h h' l : extends h h' → is_Some (h !! l) → is_Some (h' !! l).
Proof. intros He Hl. by rewrite He. Qed.

Lemma alloc_obj_extends (props : object) h : extends h (alloc_obj props h).2.
Proof.
  intros l Hl. unfold alloc_obj; simpl. rewrite lookup_insert_ne; [done|].
  intros <-. pose proof (is_fresh (dom h)) as Hf.
  apply Hf, elem_of_dom, Hl.
Qed.

Lemma alloc_obj_live (props : object) h :
  (alloc_obj props h).2 !! (alloc_obj props h).1 = Some props.
Proof. unfold alloc_obj; simpl. apply lookup_insert_eq. Qed.

Lemma alloc_fun_extends h : extends h (alloc_fun h).2.
Proof.
  unfold alloc_fun. pose proof (alloc_obj_extends [] h) as He.
  by destruct (alloc_obj [] h).
Qed.

Lemma wrapFn_extends v h : extends h (wrapFn v h).2.
Proof.
  unfold wrapFn. case_decide; [|apply extends_refl].
  pose proof (alloc_obj_extends [("__fn", v)] h) as He.
  by destruct (alloc_obj [("__fn", v)] h).
Qed.

Lemma atom_primitive_extends v h : extends h (atom_primitive v h).2.
Proof.
  unfold atom_primitive.
  pose proof (alloc_fun_extends h) as H1. destruct (alloc_fun h) as [r h1].
  pose proof (alloc_fun_extends h1) as H2. destruct (alloc_fun h1) as [wr h2].
  match goal with
  | |- context [alloc_obj ?p h2] =>
      pose proof (alloc_obj_extends p h2) as H3; destruct (alloc_obj p h2) as [l h3]
  end.
  cbn [snd] in *. eauto using extends_trans.
Qed.

(** X1: [wrapFn] never returns a function, so the base atom is
    never created with a function as initial value; wrapping what is wrapped
    already changes nothing; and no object that existed is touched. *)
Theorem wrapFn_never_function v h :
  typeof (wrapFn v h).1 ≠ TFunction
  ∧ wrapFn (wrapFn v h).1 (wrapFn v h).2 = wrapFn v h
  ∧ (∀ l, is_Some (h !! l) → (wrapFn v h).2 !! l = h !! l).
Proof.
  assert (Hty : typeof (wrapFn v h).1 ≠ TFunction).
  { unfold wrapFn. case_decide; [|done].
    by destruct (alloc_obj [("__fn", v)] h). }
  split; [done|]. split; [|apply wrapFn_extends].
  destruct (wrapFn v h) as [w h']. by apply wrapFn_non_function.
Qed.

Lemma wrapFn_never_function_witness :
  typeof (wrapFn (VFun 7) ∅).1 ≠ TFunction
  ∧ wrapFn (wrapFn (VFun 7) ∅).1 (wrapFn (VFun 7) ∅).2 = wrapFn (VFun 7) ∅
  ∧ (wrapFn (VFun 7) {[ 3 := [] ]}).2 !! 3 = ({[ 3 := [] ]} : heap) !! 3.
Proof.
  split; [exact (proj1 (wrapFn_never_function (VFun 7) ∅))|].
  split; [exact (proj1 (proj2 (wrapFn_never_function (VFun 7) ∅)))|].
  apply (proj2 (proj2 (wrapFn_never_function (VFun 7) {[ 3 := [] ]})) 3).
  apply (bool_decide_unpack _). vm_compute. exact I.
Defined.

(** What [atomWithFn] returns: an object that did not exist, with both the
    [read] and the [write] function, in a heap that keeps all there was. *)
Lemma atomWithFn_spec v h :
  ∃ l r wr,
    (atomWithFn v h).1 = VObj l
    ∧ h !! l = None
    ∧ (atomWithFn v h).2 !! l = Some [("read", VFun r); ("write", VFun wr)]
    ∧ extends h (atomWithFn v h).2.
Proof.
  unfold atomWithFn.
  pose proof (wrapFn_extends v h) as H0. destruct (wrapFn v h) as [wrapped h0].
  pose proof (atom_primitive_extends wrapped h0) as H1.
  destruct (atom_primitive wrapped h0) as [baseAtom h1].
  unfold alloc_fun.
  pose proof (alloc_obj_extends [] h1) as H2. destruct (alloc_obj [] h1) as [r h2].
  pose proof (alloc_obj_extends [] h2) as H3. destruct (alloc_obj [] h2) as [wr h3].
  unfold atom_derived.
  pose proof (alloc_obj_extends [("read", VFun r); ("write", VFun wr)] h3) as H4.
  pose proof (alloc_obj_live [("read", VFun r); ("write", VFun wr)] h3) as H5.
  pose proof (alloc_obj_fresh h3 [("read", VFun r); ("write", VFun wr)]) as H6.
  destruct (alloc_obj [("read", VFun r); ("write", VFun wr)] h3) as [l h4].
  cbn [fst snd] in *.
  assert (He : extends h h3) by eauto using extends_trans.
  exists l, r, wr. split; [done|]. split.
  - destruct (h !! l) eqn:Hl; [|done].
    assert (Hs : is_Some (h3 !! l)) by (eapply extends_live; [exact He | by rewrite Hl]).
    rewrite H6 in Hs. by destruct Hs.
  - split; [done | eauto using extends_trans].
Qed.



(** X2: the atoms this package makes pass its own probe: what [atomWithFn]
    returns is a new object that [isAtom] accepts and that has a [write]
    property, so a store given such an atom as a field uses it as it is. *)
Theorem atomWithFn_is_atom v h :
  isAtom (atomWithFn v h).2 (atomWithFn v h).1 = true
  ∧ js_in (atomWithFn v h).2 "write" (atomWithFn v h).1 = Some true
  ∧ (∃ l, (atomWithFn v h).1 = VObj l ∧ h !! l = None)
  ∧ (∀ l, is_Some (h !! l) → (atomWithFn v h).2 !! l = h !! l).
Proof.
  destruct (atomWithFn_spec v h) as (l & r & wr & Hl & Hnew & Hobj & He).
  rewrite Hl. split; [|split; [|split]].
  - unfold isAtom, has_prop, get_prop, own_props. by rewrite Hobj.
  - unfold js_in, own_props. by rewrite Hobj.
  - by exists l.
  - exact He.
Qed.

Lemma atomWithFn_is_atom_witness :
  isAtom (atomWithFn (VNum 1) ∅).2 (atomWithFn (VNum 1) ∅).1 = true
  ∧ (atomWithFn (VNum 1) {[ 3 := [] ]}).2 !! 3 = ({[ 3 := [] ]} : heap) !! 3.
Proof.
  split; [exact (proj1 (atomWithFn_is_atom (VNum 1) ∅))|].
  apply (proj2 (proj2 (proj2 (atomWithFn_is_atom (VNum 1) {[ 3 := [] ]}))) 3).
  apply (bool_decide_unpack _). vm_compute. exact I.
Defined.

End HeapGrowth.

Section FactoryFields.
Import Jotai AtomWithFn CreateAtomStore Factory.
Implicit Types (h : heap) (b : BaseAtoms) (v a : value) (k key : string)
  (P entries : object).

Lemma rec_set_new {A : Type} (r : record A) k (x : A) :
  k ∉ rec_keys r → rec_set k x r = r ++ [(k, x)].
Proof.
  unfold rec_keys. induction r as [|[k0 x0] r IH]; simpl; intros Hnew; [done|].
  apply not_elem_of_cons in Hnew as [Hne Hnew].
  rewrite decide_False by done. by rewrite IH.
Qed.

Lemma rec_keys_app {A : Type} (r r' : record A) :
  rec_keys (r ++ r') = rec_keys r ++ rec_keys r'.
Proof. unfold rec_keys. apply fmap_app. Qed.








End FactoryFields.

Section PlainState.
Import Jotai AtomWithFn CreateAtomStore Factory.
Implicit Types (h : heap) (b : BaseAtoms) (v a : value) (k key : string).


Lemma rec_spread_app {A : Type} (s : record A) : ∀ r : record A,
  NoDup (rec_keys r ++ rec_keys s) → rec_spread r s = r ++ s.
Proof.
  unfold rec_spread.
  induction s as [|[k x] s IH]; intros r Hnd; cbn [foldl fst snd].
  - by rewrite app_nil_r.
  - assert (Hk : k ∉ rec_keys r).
    { apply NoDup_app in Hnd as (_ & Hdisj & _). intros Hin.
      apply (Hdisj _ Hin). apply list_elem_of_here. }
    rewrite rec_set_new by done. rewrite IH.
    + by rewrite <- app_assoc.
    + rewrite rec_keys_app. rewrite <- app_assoc. exact Hnd.
Qed.

Lemma rec_spread_nil_id {A : Type} (s : record A) :
  NoDup (rec_keys s) → rec_spread [] s = s.
Proof. intros Hnd. by rewrite rec_spread_app. Qed.






End PlainState.

Section Extension.
Import Jotai AtomWithFn CreateAtomStore.
Implicit Types (h : heap) (b : BaseAtoms) (v a : value) (k key : string).







End Extension.

Section SurfaceCalls.
Import Jotai CreateAtomProvider CreateAtomStore.
Context (name : string) (delayRoot : value) (storeContext : registry).
Implicit Types (o d options : object) (atomConfig store : value).

Lemma useAtomStore_silent scope :
  (useAtomStore storeContext name scope (Some false)).2 = [].
Proof.
  unfold useAtomStore. cbn [default]. by rewrite andb_false_r.
Qed.

Lemma useAtomStore_absent scope warn :
  storeContext !! getFullyQualifiedScope name (default PROVIDER_SCOPE scope) = None →
  storeContext !! getFullyQualifiedScope name PROVIDER_SCOPE = None →
  useAtomStore storeContext name scope (Some warn)
  = (None, if warn then [unresolved_warning name] else []).
Proof.
  intros H1 H2. unfold useAtomStore. rewrite H1, H2. by destruct warn.
Qed.

(** The options [useAtomValueWithStore] resolves the store with:
    [{ warnIfNoStore: false, ...options }]. *)
Lemma quiet_options_get options k :
  NoDup (rec_keys options) →
  js_get (rec_spread [("warnIfNoStore", VBool false)] options) k
  = match rec_get options k with
    | Some v => v
    | None => if decide (k = "warnIfNoStore") then VBool false else inherited k
    end.
Proof.
  intros Hnd. unfold js_get. rewrite rec_get_spread by done.
  destruct (rec_get options k); [done|]. cbn [rec_get].
  case_decide; case_decide; simplify_eq; done.
Qed.

Lemma useStore_explicit options store :
  js_get options "store" = store → truthy store = true →
  useStore name storeContext (Options options) = (store, []).
Proof.
  intros Hs Ht. unfold useStore. cbn [convertScopeShorthand]. rewrite Hs, Ht.
  cbn [negb andb].
  pose proof (useAtomStore_silent (as_scope (js_get options "scope"))) as Hlog.
  destruct (useAtomStore _ _ _ _) as [contextStore log]. cbn [snd] in Hlog.
  subst log. unfold coalesce. by destruct store.
Qed.

(** X15: a store passed in the options wins.  With a [store] option that is
    truthy, as every jotai store is, [useStore] returns it and the three
    accessors hand it to jotai, with no warning, whatever the registry
    holds and whatever [scope] and [warnIfNoStore] say. *)
Theorem accessors_explicit_store options atomConfig store :
  NoDup (rec_keys options) →
  js_get options "store" = store → truthy store = true →
  useStore name storeContext (Options options) = (store, [])
  ∧ useAtomValueWithStore name delayRoot storeContext atomConfig (Options options)
    = (UseAtomValue atomConfig store (coalesce (js_get options "delay") delayRoot), [])
  ∧ useSetAtomWithStore name storeContext atomConfig (Options options)
    = (UseSetAtom atomConfig store, [])
  ∧ useAtomWithStore name delayRoot storeContext atomConfig (Options options)
    = (UseAtom atomConfig store (or_default (js_get options "delay") delayRoot), []).
Proof.
  intros Hnd Hs Ht.
  pose proof (useStore_explicit options store Hs Ht) as Hstore.
  split; [done|]. split; [|split].
  - unfold useAtomValueWithStore. cbn [convertScopeShorthand].
    rewrite (useStore_explicit _ store); [done| |done].
    rewrite quiet_options_get by done. unfold js_get in Hs.
    destruct (rec_get options "store") as [v|]; [done|].
    simpl in Hs. subst store. done.
  - unfold useSetAtomWithStore. by rewrite Hstore.
  - unfold useAtomWithStore. by rewrite Hstore.
Qed.

Lemma useStore_unresolved options :
  nullish (js_get options "store") = true →
  storeContext !! getFullyQualifiedScope name
    (default PROVIDER_SCOPE (as_scope (js_get options "scope"))) = None →
  storeContext !! getFullyQualifiedScope name PROVIDER_SCOPE = None →
  useStore name storeContext (Options options)
  = (VUndefined,
     if truthy (or_default (js_get options "warnIfNoStore") (VBool true))
     then [unresolved_warning name] else []).
Proof.
  intros Hs H1 H2. unfold useStore. cbn [convertScopeShorthand].
  rewrite (useAtomStore_absent _ _ H1 H2).
  assert (Hf : truthy (js_get options "store") = false)
    by (by destruct (js_get options "store")).
  rewrite Hf. cbn [negb andb]. unfold coalesce. rewrite Hs. done.
Qed.

(** X16: the accessors outside every Provider.  Where the registry has
    neither the requested entry nor the default one and no [store] option is
    given, all three accessors pass [undefined] as the store to jotai, which
    then uses its default store.  The [set] and [use] accessors warn unless
    [warnIfNoStore] is given and falsy; the [get] accessor warns only when
    the options have a [warnIfNoStore] key whose value is [undefined] or
    truthy, and is silent when the key is left out. *)
Theorem accessors_without_provider options atomConfig :
  NoDup (rec_keys options) →
  nullish (js_get options "store") = true →
  storeContext !! getFullyQualifiedScope name
    (default PROVIDER_SCOPE (as_scope (js_get options "scope"))) = None →
  storeContext !! getFullyQualifiedScope name PROVIDER_SCOPE = None →
  let warn := truthy (or_default (js_get options "warnIfNoStore") (VBool true)) in
  useSetAtomWithStore name storeContext atomConfig (Options options)
  = (UseSetAtom atomConfig VUndefined,
     if warn then [unresolved_warning name] else [])
  ∧ useAtomWithStore name delayRoot storeContext atomConfig (Options options)
    = (UseAtom atomConfig VUndefined (or_default (js_get options "delay") delayRoot),
       if warn then [unresolved_warning name] else [])
  ∧ useAtomValueWithStore name delayRoot storeContext atomConfig (Options options)
    = (UseAtomValue atomConfig VUndefined (coalesce (js_get options "delay") delayRoot),
       if bool_decide ("warnIfNoStore" ∈ rec_keys options) && warn
       then [unresolved_warning name] else []).
Proof.
  intros Hnd Hs H1 H2 warn.
  pose proof (useStore_unresolved options Hs H1 H2) as Hstore. fold warn in Hstore.
  split; [|split].
  - unfold useSetAtomWithStore. by rewrite Hstore.
  - unfold useAtomWithStore. by rewrite Hstore.
  - unfold useAtomValueWithStore. cbn [convertScopeShorthand].
    set (q := rec_spread [("warnIfNoStore", VBool false)] options).
    assert (Hq : ∀ k, k ≠ "warnIfNoStore" → js_get q k = js_get options k).
    { intros k Hk. unfold q. rewrite quiet_options_get by done. unfold js_get.
      destruct (rec_get options k); [done|]. by rewrite decide_False. }
    rewrite (useStore_unresolved q); rewrite ?Hq by done; try done.
    f_equal. unfold q. rewrite quiet_options_get by done. unfold warn, js_get.
    destruct (rec_get options "warnIfNoStore") as [v|] eqn:Hv.
    + rewrite bool_decide_eq_true_2; [done|]. by eapply rec_get_Some_keys.
    + rewrite bool_decide_eq_false_2; [done|]. by apply rec_get_None_keys.
Qed.

End SurfaceCalls.

Section SurfaceExamples.
Import Jotai CreateAtomProvider CreateAtomStore.

Lemma accessors_explicit_store_witness :
  useSetAtomWithStore "A" ∅ (VObj 10) (Options [("store", VObj 7)])
  = (UseSetAtom (VObj 10) (VObj 7), []).
Proof.
  refine (proj1 (proj2 (proj2 (accessors_explicit_store "A" VUndefined ∅
            [("store", VObj 7)] (VObj 10) (VObj 7) _ eq_refl eq_refl)))).
  apply (bool_decide_unpack _); vm_compute; exact I.
Defined.

Lemma accessors_without_provider_witness :
  useAtomValueWithStore "A" VUndefined ∅ (VObj 10) (Options [])
  = (UseAtomValue (VObj 10) VUndefined VUndefined, []).
Proof.
  exact (proj2 (proj2 (accessors_without_provider "A" VUndefined ∅ [] (VObj 10)
                         (NoDup_nil_2) eq_refl eq_refl eq_refl))).
Defined.

End SurfaceExamples.

Section BoundDefaults.
Import Jotai CreateAtomProvider CreateAtomStore.
Context (name : string) (delayRoot : value) (storeContext : registry).

(** X17: the options bound by [useStoreApi(defaultOptions)].  The options a
    member works with are the bound ones overridden, key by key, by those of
    the call: a key the call has wins even when its value is [undefined],
    every other key comes from the defaults.  So a call without options
    does what the plain accessor does with the defaults, a call on an api
    without defaults does what the plain accessor does with the call's
    options, and the accessor of a field that is not named [atom], given an
    options object, is the [.atom] member at that field's atom.  Under the
    key [atom] it is the [.atom] member itself that is called, whatever
    the tables hold: the accessor of a field of that name is out of reach,
    and a call made as for a field hands the options to jotai in the place of
    the atom. *)
Theorem useStoreApi_defaults (defaultOptions options : UseAtomOptionsOrScope)
    (acc : Accessors) (key : string) (atomConfig : value) :
  NoDup (rec_keys (convertScopeShorthand defaultOptions)) →
  NoDup (rec_keys (convertScopeShorthand options)) →
  (∀ k, rec_get (convertScopeShorthand (merged_options defaultOptions options)) k
        = match rec_get (convertScopeShorthand options) k with
          | Some v => Some v
          | None => rec_get (convertScopeShorthand defaultOptions) k
          end)
  ∧ (api_store name storeContext defaultOptions (Options [])
     = useStore name storeContext defaultOptions
     ∧ api_store name storeContext (Options []) options
       = useStore name storeContext options)
  ∧ (api_get_atom name delayRoot storeContext defaultOptions atomConfig (Options [])
     = useAtomValueWithStore name delayRoot storeContext atomConfig defaultOptions
     ∧ api_get_atom name delayRoot storeContext (Options []) atomConfig options
       = useAtomValueWithStore name delayRoot storeContext atomConfig options)
  ∧ (api_set_atom name storeContext defaultOptions atomConfig (Options [])
     = useSetAtomWithStore name storeContext atomConfig defaultOptions
     ∧ api_set_atom name storeContext (Options []) atomConfig options
       = useSetAtomWithStore name storeContext atomConfig options)
  ∧ (api_use_atom name delayRoot storeContext defaultOptions atomConfig (Options [])
     = useAtomWithStore name delayRoot storeContext atomConfig defaultOptions
     ∧ api_use_atom name delayRoot storeContext (Options []) atomConfig options
       = useAtomWithStore name delayRoot storeContext atomConfig options)
  ∧ (∀ o : object, key ≠ "atom" →
       api_get name delayRoot storeContext acc defaultOptions key (Options o)
       = (a ← rec_get (getAtoms acc) key;
          Some (api_get_atom name delayRoot storeContext defaultOptions
                  (Atom a) (Options o)))
       ∧ api_set name storeContext acc defaultOptions key (Options o)
         = (a ← rec_get (setAtoms acc) key;
            Some (api_set_atom name storeContext defaultOptions
                    (Atom a) (Options o)))
       ∧ api_use name delayRoot storeContext acc defaultOptions key (Options o)
         = (a ← rec_get (useAtoms acc) key;
            Some (api_use_atom name delayRoot storeContext defaultOptions
                    (Atom a) (Options o))))
  ∧ (∀ given : UseAtomOptionsOrScope,
       api_get name delayRoot storeContext acc defaultOptions "atom" given
       = Some (useAtomValueWithStore name delayRoot storeContext (Given given)
                 defaultOptions)
       ∧ api_set name storeContext acc defaultOptions "atom" given
         = Some (useSetAtomWithStore name storeContext (Given given) defaultOptions)
       ∧ api_use name delayRoot storeContext acc defaultOptions "atom" given
         = Some (useAtomWithStore name delayRoot storeContext (Given given)
                   defaultOptions)).
Proof.
  intros Hd Ho.
  assert (Hleft : merged_options defaultOptions (Options [])
                  = Options (convertScopeShorthand defaultOptions)).
  { unfold merged_options. cbn [convertScopeShorthand rec_spread foldl].
    f_equal. by apply rec_spread_nil_id. }
  assert (Hright : merged_options (Options []) options
                   = Options (convertScopeShorthand options)).
  { unfold merged_options. cbn [convertScopeShorthand].
    change (rec_spread [] []) with ([] : object). f_equal.
    by apply rec_spread_nil_id. }
  split.
  { intros k. unfold merged_options. cbn [convertScopeShorthand].
    rewrite rec_get_spread by done. by rewrite rec_get_spread_nil. }
  unfold api_store, api_get_atom, api_set_atom, api_use_atom.
  rewrite Hleft, Hright.
  split; [by destruct defaultOptions, options|].
  split; [by destruct defaultOptions, options|].
  split; [by destruct defaultOptions, options|].
  split; [by destruct defaultOptions, options|].
  split.
  - intros o Hfield. unfold api_get, api_set, api_use.
    rewrite !decide_False by done. repeat split.
  - intros given. unfold api_get, api_set, api_use, api_get_atom, api_set_atom,
      api_use_atom. cbn [decide]. rewrite Hleft.
    by destruct defaultOptions.
Qed.

End BoundDefaults.

Section BoundDefaultsExamples.
Import Jotai CreateAtomProvider CreateAtomStore.

Lemma useStoreApi_defaults_witness :
  api_store "A" Scenario.nested (ScopeStr "abc") (Options [])
  = useStore "A" Scenario.nested (ScopeStr "abc").
Proof.
  refine (proj1 (proj1 (proj2 (useStoreApi_defaults "A" VUndefined Scenario.nested
            (ScopeStr "abc") (Options []) (MkAccessors [] [] []) "say" (VObj 10)
            _ _)))).
  - apply (bool_decide_unpack _); vm_compute; exact I.
  - apply NoDup_nil_2.
Defined.

End BoundDefaultsExamples.

Section IndexNames.
Import Names.
Implicit Types (s t name : string).

Lemma length_app s t : String.length (s +:+ t) = (String.length s + String.length t)%nat.
Proof. induction s as [|c s IH]; simpl; [done|]. by rewrite IH. Qed.

Lemma length_capitalizeFirstLetter s :
  String.length (capitalizeFirstLetter s) = String.length s.
Proof. by destruct s. Qed.

(** Two strings that end in suffixes of the same length end in the same
    suffix. *)
Lemma app_inj_suffix s1 : ∀ t1 s2 t2,
  String.length s2 = String.length t2 → s1 +:+ s2 = t1 +:+ t2 → s2 = t2.
Proof.
  induction s1 as [|c s1 IH]; intros [|c' t1] s2 t2 Hlen.
  - done.
  - change ("" +:+ s2) with s2. intros ->.
    change (String.length (String c' t1 +:+ t2))
      with (S (String.length (t1 +:+ t2))) in Hlen.
    rewrite length_app in Hlen. lia.
  - change ("" +:+ t2) with t2. intros <-.
    change (String.length (String c s1 +:+ s2))
      with (S (String.length (s1 +:+ s2))) in Hlen.
    rewrite length_app in Hlen. lia.
  - change (String c s1 +:+ s2) with (String c (s1 +:+ s2)).
    change (String c' t1 +:+ t2) with (String c' (t1 +:+ t2)).
    intros [= _ Heq]. by apply (IH t1).
Qed.

Lemma upper_ascii_idemp c : is_ascii c → upper_ascii (upper_ascii c) = upper_ascii c.
Proof.
  unfold is_ascii, upper_ascii. intros Hc.
  destruct ((97 <=? Ascii.nat_of_ascii c)%nat && (Ascii.nat_of_ascii c <=? 122)%nat)
    eqn:Hlow; [|by rewrite Hlow].
  apply andb_true_iff in Hlow as [H1 H2].
  apply Nat.leb_le in H1. apply Nat.leb_le in H2.
  rewrite Ascii.nat_ascii_embedding by lia.
  replace (97 <=? Ascii.nat_of_ascii c - 32)%nat with false; [done|].
  symmetry. apply Nat.leb_gt. lia.
Qed.

Lemma index_names_distinct name :
  getProviderIndex name ≠ getUseStoreIndex name
  ∧ getProviderIndex name ≠ getStoreIndex name
  ∧ getProviderIndex name ≠ "name"
  ∧ getUseStoreIndex name ≠ getStoreIndex name
  ∧ getUseStoreIndex name ≠ "name"
  ∧ getStoreIndex name ≠ "name".
Proof.
  assert (Hlen : ∀ s t, s = t → String.length s = String.length t)
    by (by intros s t ->).
  assert (Hp : String.length (getProviderIndex name) = (String.length name + 8)%nat).
  { unfold getProviderIndex. by rewrite length_app, length_capitalizeFirstLetter. }
  assert (Hu : String.length (getUseStoreIndex name) = (String.length name + 8)%nat).
  { unfold getUseStoreIndex.
    rewrite !length_app, length_capitalizeFirstLetter. simpl. lia. }
  assert (Hs : (5 ≤ String.length (getStoreIndex name) ≤ String.length name + 5)%nat).
  { unfold getStoreIndex. destruct name; [simpl; lia|].
    rewrite length_app. simpl. lia. }
  repeat split; intros Heq; apply Hlen in Heq as Hl;
    rewrite ?Hp, ?Hu in Hl; simpl in Hl; try lia.
  unfold getProviderIndex, getUseStoreIndex in Heq.
  change "Provider" with ("Pro" +:+ "vider") in Heq.
  assert (Hassoc : ∀ a b c : string, a +:+ (b +:+ c) = (a +:+ b) +:+ c).
  { intros a b c. induction a as [|x a IH]; [done|].
    change (String x a +:+ b +:+ c) with (String x (a +:+ b +:+ c)).
    change ((String x a +:+ b) +:+ c) with (String x ((a +:+ b) +:+ c)).
    by rewrite IH. }
  rewrite (Hassoc _ "Pro" "vider"), ?(Hassoc "use") in Heq.
  by apply app_inj_suffix in Heq.
Qed.

(** X18: the members of the object [createAtomStore] returns.  For every
    store name whose first character is within ASCII, the empty name
    included, the three computed keys differ from each other and from
    [name], so no member takes another's place: the object has the
    Provider, the [useStoreApi] hook, the [storeApi] object and the name,
    in this order.  The keys have the shape [XProvider], [useXStore] and
    [xStore], with [store] in place of the last for the empty name; and
    capitalising twice is capitalising once. *)
Theorem api_object_members name :
  ascii_headed name →
  rec_keys (api_object name)
  = [getProviderIndex name; getUseStoreIndex name; getStoreIndex name; "name"]
  ∧ rec_get (api_object name) (getProviderIndex name) = Some TheProvider
  ∧ rec_get (api_object name) (getUseStoreIndex name) = Some TheUseStoreApi
  ∧ rec_get (api_object name) (getStoreIndex name) = Some TheStoreApi
  ∧ rec_get (api_object name) "name" = Some TheName
  ∧ NoDup (rec_keys (api_object name))
  ∧ capitalizeFirstLetter (capitalizeFirstLetter name) = capitalizeFirstLetter name
  ∧ String.length (capitalizeFirstLetter name) = String.length name.
Proof.
  intros Hname.
  destruct (index_names_distinct name) as (H1 & H2 & H3 & H4 & H5 & H6).
  assert (Hobj : api_object name
                 = [(getProviderIndex name, TheProvider);
                    (getUseStoreIndex name, TheUseStoreApi);
                    (getStoreIndex name, TheStoreApi); ("name", TheName)]).
  { unfold api_object. repeat (cbn [rec_set]; rewrite decide_False by done).
    done. }
  rewrite Hobj.
  assert (Hnd : NoDup (rec_keys [(getProviderIndex name, TheProvider);
                                 (getUseStoreIndex name, TheUseStoreApi);
                                 (getStoreIndex name, TheStoreApi);
                                 ("name", TheName)])).
  { cbn [rec_keys fmap list_fmap fst].
    repeat (apply NoDup_cons; split; [set_solver|]). apply NoDup_nil_2. }
  split; [done|].
  split; [apply rec_get_NoDup; [done|set_solver]|].
  split; [apply rec_get_NoDup; [done|set_solver]|].
  split; [apply rec_get_NoDup; [done|set_solver]|].
  split; [apply rec_get_NoDup; [done|set_solver]|].
  split; [done|].
  split; [|apply length_capitalizeFirstLetter].
  destruct name as [|c rest]; [done|]. simpl. f_equal.
  by apply upper_ascii_idemp.
Qed.

Lemma api_object_members_witness :
  rec_keys (api_object "app") = ["AppProvider"; "useAppStore"; "appStore"; "name"].
Proof.
  refine (eq_trans (proj1 (api_object_members "app" _)) _).
  - unfold ascii_headed, is_ascii. vm_compute. lia.
  - vm_compute. reflexivity.
Defined.

End IndexNames.

Section EndToEnd.
Import Jotai AtomWithFn UseHydrateStore CreateAtomProvider CreateAtomStore Render Factory.





End EndToEnd.

Section PropChange.
Import Jotai UseHydrateStore CreateAtomProvider Render.

Lemma cell_createStore ss s a :
  is_Some (ss !! s) → cell (createStore ss).2 s a = cell ss s a.
Proof. intros Hs. unfold cell. by rewrite store_of_live_createStore. Qed.

(** X20: rendering a mounted Provider again with other props, with the same
    [resetKey] and the same [atoms] prop, if any, and no reset under way.
    The store stays.  When no two fields of the record [HydrateAtoms]
    receives share an atom: a field whose prop, read as JavaScript reads
    it, differs from the prop of the previous render and is neither
    [undefined] nor [null] holds the new prop, whatever descendants wrote in
    between; any other field keeps what its cell held, so a prop that goes
    back to [undefined] or [null] clears nothing and a change of
    [initialValues] alone changes nothing, except for a field never hydrated
    in this store, which is seeded now if [{ ...initialValues, ...props }]
    has a defined entry for it. *)
Theorem Provider_rerender_new_props storeScope atoms props props' prev hooks w calls :
  (∀ hk, hooks = Some hk → is_Some (w_stores w !! storeState hk)) →
  truthy (p_resetKey props) = false
    ∨ (∃ hk, hooks = Some hk ∧ resetDeps hk = p_resetKey props) →
  p_resetKey props' = p_resetKey props →
  p_atoms props' = p_atoms props →
  let r1 := Provider storeScope atoms props prev hooks w in
  let w1 := descendant_writes calls r1.2 in
  let r2 := Provider storeScope atoms props' prev (Some r1.1) w1 in
  storeState r2.1 = storeState r1.1
  ∧ (NoDup (rec_keys (effective_atoms atoms props)) →
     NoDup (effective_atoms atoms props).*2 →
     ∀ key a, rec_get (effective_atoms atoms props) key = Some a →
      cell (w_stores r2.2) (storeState r1.1) a
      = if decide (js_get (p_fields props') key ≠ js_get (p_fields props) key
                   ∧ not_sentinel (js_get (p_fields props') key))
        then Some (js_get (p_fields props') key)
        else if decide (js_get (hydration_values props') key ≠ VUndefined
                        ∧ a ∉ hydrated (store_of (w_stores w1) (storeState r1.1)))
             then Some (js_get (hydration_values props') key)
             else cell (w_stores w1) (storeState r1.1) a).
Proof.
  intros Hlive Hquiet Hkey Hatoms r1 w1 r2.
  assert (Heff : effective_atoms atoms props' = effective_atoms atoms props)
    by (unfold effective_atoms; by rewrite Hatoms).
  set (eff := effective_atoms atoms props) in *.
  set (cur := render_store hooks w).
  set (ss3 := stores_after_effects atoms props hooks w).
  assert (Hr1 : r1 = (MkHooks cur (p_resetKey props) (prev, p_scope props, cur)
                        (storeContext r1.1)
                        (sync_deps eff (p_fields props)
                           cur (from_option syncDeps ∅ hooks)),
                      MkWorld ss3 (w_maps r1.2))).
  { subst r1. rewrite Provider_closed_form.
    rewrite reset_effect_not_fired by done. done. }
  assert (Hcur2 : render_store (Some r1.1) w1 = cur) by (by rewrite Hr1).
  assert (Hw1 : w_stores w1 = run_effects calls ss3).
  { subst w1. unfold descendant_writes. by rewrite Hr1. }
  assert (Hlive3 : is_Some (ss3 !! cur))
    by (by apply stores_after_effects_live, render_store_live).
  assert (Hlive1 : is_Some (w_stores w1 !! cur))
    by (rewrite Hw1; by apply run_effects_is_Some).
  assert (Hstate1 : storeState r1.1 = cur) by (by rewrite Hr1).
  assert (Hr2 : r2.1 = r2.1 ∧ storeState r2.1 = cur
                ∧ w_stores r2.2 = stores_after_effects atoms props' (Some r1.1) w1).
  { subst r2. rewrite Provider_closed_form. rewrite Hcur2.
    rewrite reset_effect_not_fired
      by (right; exists r1.1; split; [done | by rewrite Hr1, Hkey]).
    done. }
  destruct Hr2 as (_ & Hstate2 & Hss2).
  rewrite Hstate1. split; [done|].
  intros Hk Ha key a Hget. rewrite Hss2. unfold stores_after_effects.
  rewrite Hcur2, Heff. cbn [from_option].
  replace (syncDeps r1.1)
    with (sync_deps eff (p_fields props) cur (from_option syncDeps ∅ hooks))
    by (by rewrite Hr1).
  set (deps := sync_deps eff (p_fields props) cur (from_option syncDeps ∅ hooks)).
  set (hyd := useHydrateStore eff (hydration_values props') cur
                (createStore (w_stores w1)).2).
  pose proof (useSyncStore_cell eff (p_fields props') cur deps hyd key a
                Hk Ha Hget) as Hsync.
  unfold useSyncStore in Hsync. cbn [snd] in Hsync. rewrite Hsync.
  assert (Hdue : effect_due eff (p_fields props') cur deps key
                 ↔ js_get (p_fields props') key ≠ js_get (p_fields props) key).
  { unfold effect_due, deps. rewrite sync_deps_lookup.
    rewrite decide_True by (by eapply rec_get_Some_keys).
    split; [intros Hne Heq; apply Hne; by rewrite Heq|].
    intros Hne [= Heq]. by apply Hne. }
  destruct (useHydrateStore_cell eff (hydration_values props') cur
              (createStore (w_stores w1)).2 key a Hk Ha Hget) as [Hcell _].
  fold hyd in Hcell. rewrite Hcell.
  rewrite store_of_live_createStore by done.
  rewrite cell_createStore by done.
  repeat case_decide; try done; exfalso; tauto.
Qed.

Lemma Provider_rerender_new_props_witness :
  cell (w_stores (Provider "A" Scenario.atoms
                    (with_field "count" (VNum 9) (Scenario.props VUndefined))
                    0
                    (Some (Provider "A" Scenario.atoms (Scenario.props VUndefined)
                             0 None Scenario.root).1)
                    (descendant_writes []
                       (Provider "A" Scenario.atoms (Scenario.props VUndefined)
                          0 None Scenario.root).2)).2)
       (storeState (Provider "A" Scenario.atoms (Scenario.props VUndefined)
                      0 None Scenario.root).1)
       (VObj 10)
  = Some (VNum 9).
Proof.
  assert (Hk : NoDup (rec_keys Scenario.atoms))
    by (apply (bool_decide_unpack _); vm_compute; exact I).
  assert (Ha : NoDup Scenario.atoms.*2)
    by (apply (bool_decide_unpack _); vm_compute; exact I).
  refine (eq_trans (proj2 (Provider_rerender_new_props "A" Scenario.atoms
            (Scenario.props VUndefined) _ 0 None Scenario.root [] _ _ _ _)
            Hk Ha "count" (VObj 10) eq_refl) _).
  - by intros hk [=].
  - by left.
  - reflexivity.
  - reflexivity.
  - vm_compute. reflexivity.
Defined.

End PropChange.

Section AtomsProp.
Import Jotai UseHydrateStore CreateAtomProvider Render.

(** X21: a prop named [atoms].  The props of the Provider are spread onto
    [HydrateAtoms] after [atoms={atoms}], so when a prop named [atoms] is
    passed, the record the Provider was built with plays no part in the
    render: hydration and sync go over the value of the prop.  When that
    value has no own enumerable property, as a number or a boolean has
    none, nothing is hydrated and nothing is synced: a Provider mounted
    with a falsy [resetKey] then holds a store in which nothing is written,
    whatever [initialValues] and the per-field props say. *)
Theorem Provider_atoms_prop storeScope atoms props prev hooks w given :
  p_atoms props = Some given →
  (∀ atoms', Provider storeScope atoms' props prev hooks w
             = Provider storeScope atoms props prev hooks w)
  ∧ (given = [] → hooks = None → truthy (p_resetKey props) = false →
     w_stores (Provider storeScope atoms props prev hooks w).2
       !! storeState (Provider storeScope atoms props prev hooks w).1
     = Some empty_store).
Proof.
  intros Hgiven. split.
  - intros atoms'. unfold Provider, effective_atoms. by rewrite Hgiven.
  - intros -> -> Hfalsy. rewrite Provider_closed_form.
    rewrite reset_effect_falsy by done. cbn [fst snd storeState w_stores].
    unfold stores_after_effects, effective_atoms. rewrite Hgiven. cbn [default id].
    unfold sync_effects, useHydrateStore, hydrate_values, run_effects,
      useHydrateAtoms. cbn [rec_keys fmap list_fmap flat_map foldl].
    rewrite render_store_mount, createStore_lookup. by rewrite decide_True.
Qed.

Lemma Provider_atoms_prop_witness :
  w_stores (Provider "A" Scenario.atoms
              (MkProps VUndefined None VUndefined (Some [("count", VNum 1)])
                 (Some []) [("count", VNum 5)]) 0 None Scenario.root).2
    !! storeState (Provider "A" Scenario.atoms
                     (MkProps VUndefined None VUndefined (Some [("count", VNum 1)])
                        (Some []) [("count", VNum 5)]) 0 None Scenario.root).1
  = Some empty_store.
Proof.
  exact (proj2 (Provider_atoms_prop "A" Scenario.atoms
                  (MkProps VUndefined None VUndefined (Some [("count", VNum 1)])
                     (Some []) [("count", VNum 5)]) 0 None Scenario.root []
                  eq_refl) eq_refl eq_refl eq_refl).
Defined.

End AtomsProp.

(* ===================================================================== *)
(** * The reset trigger *)
(* ===================================================================== *)

Section ProviderResetKey.
Import Jotai UseHydrateStore CreateAtomProvider Render.
Implicit Types (atoms : record value) (props : ProviderProps)
  (hk : ProviderHooks) (w : World) (ss : stores).

(** C4: the specification, and the comment the source has at the effect,
    say that a change of [resetKey] re-creates the store.  The effect does
    so only when the new [resetKey] is truthy.  In the scenario the key goes
    from [true] to [false]; the store stays and so does the value 5 written
    before. *)
Lemma reset_to_falsy_key_counterexample :
  resetDeps Scenario.mounted.1 = VBool true
  ∧ p_resetKey (Scenario.props (VBool false)) = VBool false
  ∧ storeState Scenario.after_toggle.1 = storeState Scenario.mounted.1
  ∧ cell (w_stores Scenario.after_toggle.2) (storeState Scenario.after_toggle.1)
         (VObj 10) = Some (VNum 5).
Proof. split; [|split; [|split]]; vm_compute; reflexivity. Qed.

(** C4: what a change of [resetKey] between two renders of a mounted
    Provider does.  When the new value is truthy, the Provider's effect
    replaces the store by one constructed then, which holds nothing of what
    was written before; the render this triggers keeps that store, hands it
    to the subtree in a context that resolves the store's name to it, and
    hydrates and syncs it against the props of that render: when no two
    fields share an atom, the cell of every field holds the field's prop
    when that is neither [undefined] nor [null], else the entry of
    [{ ...initialValues, ...props }] when that is defined, and is otherwise
    unwritten.  When the new value is falsy, the store stays, and a field
    that was hydrated before and whose prop is the one of the previous
    render keeps what its cell holds: nothing is reset. *)
Theorem Provider_reset_on_truthy_key storeScope atoms props prev hk w :
  is_Some (w_stores w !! storeState hk) →
  resetDeps hk ≠ p_resetKey props →
  let r1 := Provider storeScope atoms props prev (Some hk) w in
  let r2 := Provider storeScope atoms props prev (Some r1.1) r1.2 in
  (truthy (p_resetKey props) = true →
     storeState r1.1 ≠ storeState hk
     ∧ w_stores w !! storeState r1.1 = None
     ∧ w_stores r1.2 !! storeState r1.1 = Some empty_store
     ∧ storeState r2.1 = storeState r1.1
     ∧ (∀ warn, useAtomStore (provided_registry r2) storeScope None warn
                = (Some (storeState r1.1), []))
     ∧ (NoDup (rec_keys (effective_atoms atoms props)) →
        NoDup (effective_atoms atoms props).*2 →
        ∀ key a, rec_get (effective_atoms atoms props) key = Some a →
          cell (w_stores r2.2) (storeState r2.1) a = seeded_value props key))
  ∧ (truthy (p_resetKey props) = false →
     storeState r1.1 = storeState hk
     ∧ (NoDup (rec_keys (effective_atoms atoms props)) →
        NoDup (effective_atoms atoms props).*2 →
        ∀ key a, rec_get (effective_atoms atoms props) key = Some a →
          a ∈ hydrated (store_of (w_stores w) (storeState hk)) →
          syncDeps hk !! key
            = Some (useSetAtom a (storeState hk), js_get (p_fields props) key) →
          cell (w_stores r1.2) (storeState hk) a
          = cell (w_stores w) (storeState hk) a)).
Proof.
  intros Hlive Hchanged r1 r2.
  set (eff := effective_atoms atoms props).
  destruct (Provider_update storeScope atoms props prev hk w)
    as (Hst1 & Hss1 & Hrd1 & Hsd1).
  fold r1 in Hst1, Hss1, Hrd1, Hsd1. fold eff in Hsd1.
  set (ss3 := stores_before_reset atoms props hk w) in *.
  assert (Hlive3 : is_Some (ss3 !! storeState hk))
    by (by apply stores_before_reset_is_Some).
  split.
  - intros Htruthy.
    rewrite reset_effect_changed in Hst1, Hss1 by done.
    assert (Hnew : ss3 !! storeState r1.1 = None)
      by (rewrite Hst1; apply createStore_fresh).
    assert (Hne : storeState r1.1 ≠ storeState hk).
    { intros Heq. rewrite Heq in Hnew. rewrite Hnew in Hlive3. by destruct Hlive3. }
    assert (Hempty : w_stores r1.2 !! storeState r1.1 = Some empty_store).
    { rewrite Hss1, Hst1, createStore_lookup. by rewrite decide_True. }
    destruct (Provider_update storeScope atoms props prev r1.1 r1.2)
      as (Hst2 & Hss2 & _ & _).
    fold r2 in Hst2, Hss2.
    rewrite <- Hrd1 in Hst2, Hss2. rewrite reset_effect_same in Hst2, Hss2.
    simpl in Hst2, Hss2.
    assert (Hcur2 : render_store (Some r1.1) r1.2 = storeState r1.1) by done.
    assert (Hmemo1 : memoDeps r1.1 = (prev, p_scope props, storeState hk)).
    { subst r1. by rewrite Provider_closed_form. }
    assert (Hreg2 : provided_registry r2
                    = provider_entries storeScope (p_scope props) (storeState r1.1)
                        (map_content (w_maps r1.2) prev)).
    { subst r2. rewrite provided_registry_recomputed; [done|].
      intros hk' [= <-]. rewrite Hcur2, Hmemo1. intros [= Heq]. by apply Hne. }
    split; [done|]. split.
    { destruct (w_stores w !! storeState r1.1) eqn:Hw; [|done].
      assert (Hs : is_Some (ss3 !! storeState r1.1))
        by (apply stores_before_reset_is_Some; by rewrite Hw).
      rewrite Hnew in Hs. by destruct Hs. }
    split; [done|]. split; [done|].
    split; [intros warn; rewrite Hreg2; apply provider_entries_default|].
    intros Hk Ha key a Hget. rewrite Hss2, Hst2. unfold stores_before_reset.
    fold eff. set (n := storeState r1.1) in *.
    apply first_render_cell; [done | done | done | |].
    + rewrite store_of_live_createStore by (by rewrite Hempty).
      unfold store_of. by rewrite Hempty.
    + unfold effect_due. rewrite Hsd1, sync_deps_lookup.
      rewrite decide_True by (by eapply rec_get_Some_keys).
      unfold useSetAtom. intros [= Heq]. by apply Hne.
  - intros Hfalsy.
    rewrite reset_effect_falsy in Hst1, Hss1 by done. cbn [fst snd] in Hst1, Hss1.
    split; [done|].
    intros Hk Ha key a Hget Hhyd Hdeps. rewrite Hss1. unfold ss3, stores_before_reset.
    fold eff. set (cur := storeState hk) in *.
    pose proof (useSyncStore_cell eff (p_fields props) cur (syncDeps hk)
                  (useHydrateStore eff (hydration_values props) cur
                     (createStore (w_stores w)).2) key a Hk Ha Hget) as Hsync.
    unfold useSyncStore in Hsync. cbn [snd] in Hsync. rewrite Hsync. clear Hsync.
    rewrite decide_False.
    2:{ intros [Hdue _]. apply Hdue. by rewrite (js_get_Some _ _ _ Hget). }
    destruct (useHydrateStore_cell eff (hydration_values props) cur
                (createStore (w_stores w)).2 key a Hk Ha Hget) as [Hcell _].
    rewrite Hcell. rewrite store_of_live_createStore by done.
    rewrite decide_False by tauto. by apply cell_createStore.
Qed.

Lemma Provider_reset_on_truthy_key_witness :
  storeState Scenario.after_reset.1 ≠ storeState Scenario.mounted.1
  ∧ cell Scenario.after_write.(w_stores) (storeState Scenario.mounted.1) (VObj 10)
    = Some (VNum 5)
  ∧ cell (w_stores Scenario.after_reset_render.2)
         (storeState Scenario.after_reset_render.1) (VObj 10) = Some (VNum 1)
  ∧ useAtomStore (provided_registry Scenario.after_reset_render) "A" None None
    = (Some (storeState Scenario.after_reset.1), []).
Proof.
  assert (H1 : is_Some (w_stores Scenario.after_write !! storeState Scenario.mounted.1))
    by (apply (bool_decide_unpack _); vm_compute; exact I).
  assert (H2 : resetDeps Scenario.mounted.1 ≠ p_resetKey (Scenario.props (VNum 2)))
    by (vm_compute; discriminate).
  assert (H4 : NoDup (rec_keys Scenario.atoms))
    by (apply (bool_decide_unpack _); vm_compute; exact I).
  assert (H5 : NoDup Scenario.atoms.*2)
    by (apply (bool_decide_unpack _); vm_compute; exact I).
  destruct (proj1 (Provider_reset_on_truthy_key "A" Scenario.atoms
              (Scenario.props (VNum 2)) 0 Scenario.mounted.1 Scenario.after_write
              H1 H2) eq_refl) as (Hne & _ & _ & _ & Hreg & Hcell).
  split; [exact Hne|]. split; [vm_compute; reflexivity|].
  split; [exact (Hcell H4 H5 "count" (VObj 10) eq_refl) | exact (Hreg None)].
Defined.

End ProviderResetKey.
